(** * hotcode-chat: message merge engine, timestamp normaliser, rate limiter,
      notification fan-out and direct-message chat identity.

    A shallow embedding of the TypeScript sources
      - hooks/use-messages.ts      (module [Messages])
      - hooks/use-chats.ts, components/chats/chat-room.tsx: [toDate]
                                   (module [Timestamps])
      - functions/src/rateLimiter.ts   (module [RateLimiter])
      - functions/src/index.ts: [sendMessageNotification], [onMessageCreated]
                                   (module [Notifications])
      - shared/src/index.ts: [dmChatId]    (module [Shared])
    over the arrays, maps and plain objects of JavaScript (module [Js]) and
    its Number type (module [Binary64]), followed by the properties proved
    about them. *)

From Stdlib Require Import ZArith List Bool Lia Sorted Permutation.
From Stdlib Require Import Strings.String Strings.Ascii.
From Stdlib Require Floats.SpecFloat.
From stdpp Require Import base gmap strings pretty.
Import ListNotations.

Local Open Scope string_scope.
Local Open Scope Z_scope.
Set Warnings "-register-all".

(** ** JavaScript containers shared by the modules *)

Module Js.

Section Sort.
Context {A : Type}.
Variable compareFn : A -> A -> Z.

(** [Array.prototype.sort(compareFn)] is a stable sort (ECMAScript 2019):
    for a comparator that orders its arguments consistently the result is
    that of the insertion sort in which an element goes before the first
    element to its right that does not compare below it. *)
Fixpoint insert (x : A) (l : list A) : list A :=
  match l with
  | [] => [x]
  | y :: l' => if compareFn x y <=? 0 then x :: y :: l' else y :: insert x l'
  end.

Fixpoint sort (l : list A) : list A :=
  match l with
  | [] => []
  | x :: l' => insert x (sort l')
  end.
End Sort.

Section Keyed.
Context {V : Type}.

(** An insertion-ordered string-keyed table: a [Map<string, V>] or the own
    string-named properties of a plain object.  Writing an existing key
    replaces the value where the key already stands; a new key goes last.
    (Keys that are canonical array indices, which an object enumerates
    first, do not occur: the keys are message ids.)  [get] reads an own
    property; what a read of a plain object finds under a name the object
    does not own is told by [inherits] below. *)
Fixpoint set (k : string) (v : V) (m : list (string * V)) : list (string * V) :=
  match m with
  | [] => [(k, v)]
  | (k', v') :: m' =>
      if String.eqb k' k then (k, v) :: m' else (k', v') :: set k v m'
  end.

Fixpoint get (k : string) (m : list (string * V)) : option V :=
  match m with
  | [] => None
  | (k', v') :: m' => if String.eqb k' k then Some v' else get k m'
  end.

Fixpoint delete (k : string) (m : list (string * V)) : list (string * V) :=
  match m with
  | [] => []
  | (k', v') :: m' =>
      if String.eqb k' k then delete k m' else (k', v') :: delete k m'
  end.

(** [Object.values(o)], [Array.from(m.values())] *)
Definition values (m : list (string * V)) : list V := List.map snd m.

Definition keys (m : list (string * V)) : list string := List.map fst m.
End Keyed.

(** [new Set(xs)] then [Array.from]: first occurrences, in order. *)
Fixpoint setAdd (x : string) (s : list string) : list string :=
  match s with
  | [] => [x]
  | y :: s' => if String.eqb y x then y :: s' else y :: setAdd x s'
  end.

Definition setOfList (xs : list string) : list string :=
  List.fold_left (fun s x => setAdd x s) xs [].

(** The names a plain object inherits from [Object.prototype].  A read
    [o[k]] of an object that does not own [k] gives, for these names, a
    truthy value (a function; the prototype itself for [__proto__]) that has
    no enumerable property of its own, and [undefined] for every other
    name. *)
Definition prototypeNames : list string :=
  ["constructor"; "__defineGetter__"; "__defineSetter__"; "hasOwnProperty";
   "__lookupGetter__"; "__lookupSetter__"; "isPrototypeOf";
   "propertyIsEnumerable"; "toString"; "valueOf"; "__proto__";
   "toLocaleString"].

Definition inherits (k : string) : bool :=
  List.existsb (String.eqb k) prototypeNames.

End Js.

(** ** The Number type *)

Module Binary64.
Import SpecFloat.

(** A Number is an IEEE 754 binary64 value: a zero of either sign, an
    infinity of either sign, NaN, or [S754_finite s m e] for
    (-1)^s * m * 2^e with m below 2^53 and e from -1074. *)
Definition Number : Type := spec_float.

Definition prec : Z := 53.
Definition emax : Z := 1024.

(** The Number of an integer: the nearest one, ties to even. *)
Definition ofZ (z : Z) : Number := binary_normalize prec emax z 0 false.

(** [a * b], [a + b] and [a / b], rounded to nearest, ties to even. *)
Definition mul : Number -> Number -> Number := SFmul prec emax.
Definition add : Number -> Number -> Number := SFadd prec emax.
Definition div : Number -> Number -> Number := SFdiv prec emax.

Definition isNaN (x : Number) : bool :=
  match x with S754_nan => true | _ => false end.

Definition isZero (x : Number) : bool :=
  match x with S754_zero _ => true | _ => false end.

Definition isFinite (x : Number) : bool :=
  match x with S754_zero _ | S754_finite _ _ _ => true | _ => false end.

Definition signed (s : bool) (m : positive) : Z :=
  if s then Z.neg m else Z.pos m.

(** [Math.floor(x)]: an integer, a zero, an infinity and NaN are returned
    as they are. *)
Definition floor (x : Number) : Number :=
  match x with
  | S754_finite s m e =>
      if 0 <=? e then x else ofZ (signed s m / 2 ^ (- e))
  | _ => x
  end.

(** The integer part of a finite Number, toward zero. *)
Definition truncate (x : Number) : Z :=
  match x with
  | S754_finite s m e =>
      if 0 <=? e then signed s m * 2 ^ e else Z.quot (signed s m) (2 ^ (- e))
  | _ => 0
  end.

(** The magnitude of the Number is above the integer [bound]. *)
Definition magnitudeAbove (bound : Z) (x : Number) : bool :=
  match x with
  | S754_finite _ m e =>
      if 0 <=? e then bound <? Z.pos m * 2 ^ e else bound * 2 ^ (- e) <? Z.pos m
  | S754_infinity _ => true
  | _ => false
  end.

(** A finite Number is an integer multiple of 2^-1074; [scaled] is that
    integer.  Finite Numbers compare as these integers do, and the
    difference of two of them, which rounds to zero only when it is zero,
    has the sign of the difference of the integers.  An infinity stands
    beyond every finite Number. *)
Definition scaled (x : Number) : Z :=
  match x with
  | S754_zero _ => 0
  | S754_finite s m e => signed s m * 2 ^ (e + 1074)
  | S754_infinity s => signed s 1 * 2 ^ 2098
  | S754_nan => 0
  end.

End Binary64.

(** ** The Firestore SDK *)

Module Firestore.

(** [Timestamp.toMillis()]: [this.seconds * 1000 + this.nanoseconds / 1e6].
    The constructor of a Timestamp admits seconds from -62135596800 to
    253402300799 and nanoseconds from 0 to 999999999, for which the result
    is finite. *)
Definition toMillis (seconds nanoseconds : Z) : Binary64.Number :=
  Binary64.add (Binary64.mul (Binary64.ofZ seconds) (Binary64.ofZ 1000))
               (Binary64.div (Binary64.ofZ nanoseconds) (Binary64.ofZ 1000000)).

End Firestore.

(** ** hooks/use-messages.ts *)

Module Messages.

(** [createdAt: z.any()]: the values the comparator of [normalizeMessages]
    reads a finite time from. *)
Inductive AnyTime : Type :=
| ATimestamp (seconds nanoseconds : Z)   (* instanceof Timestamp *)
| ADate (ms : Z)                         (* a Date, or epoch milliseconds *)
| ANull.                                 (* a pending server timestamp *)

Inductive MessageType : Type := TText | TImage | TVideo | TFile | TSystem.

Record Attachment : Type := {
  id : string;
  storagePath : string;
  downloadURL : string;
  contentType : string;
  size : Z;
  name : string;
  width : option Z;
  height : option Z;
  duration : option Z
}.

Inductive ModerationStatus : Type := Pending | Approved | Rejected.

Record Moderation : Type := {
  status : ModerationStatus;
  reason : option string
}.

(** [MessageRecord = Message & { messageId: string }]; an optional field that
    is absent is [None]. *)
Record MessageRecord : Type := {
  messageId : string;
  chatId : string;
  senderId : string;
  text : option string;
  attachments : option (list Attachment);
  type : MessageType;
  createdAt : AnyTime;
  editedAt : option AnyTime;
  deletedAt : option AnyTime;
  reactions : option (list (string * list string));
  readBy : option (list string);
  moderation : option Moderation
}.

(** [Partial<MessageRecord>]: [None] is a key the patch does not carry. *)
Record Patch : Type := {
  p_messageId : option string;
  p_chatId : option string;
  p_senderId : option string;
  p_text : option string;
  p_attachments : option (list Attachment);
  p_type : option MessageType;
  p_createdAt : option AnyTime;
  p_editedAt : option AnyTime;
  p_deletedAt : option AnyTime;
  p_reactions : option (list (string * list string));
  p_readBy : option (list string);
  p_moderation : option Moderation
}.

(** [QueryDocumentSnapshot]: the document id and its data. *)
Record QueryDocumentSnapshot : Type := {
  doc_id : string;
  doc_data : MessageRecord
}.

Definition withMessageId (m : MessageRecord) (i : string) : MessageRecord :=
  {| messageId := i; chatId := chatId m; senderId := senderId m;
     text := text m; attachments := attachments m; type := type m;
     createdAt := createdAt m; editedAt := editedAt m;
     deletedAt := deletedAt m; reactions := reactions m;
     readBy := readBy m; moderation := moderation m |}.

(** [{ ...data, messageId: snapshot.id }] *)
Definition toMessageRecord (snapshot : QueryDocumentSnapshot) : MessageRecord :=
  withMessageId (doc_data snapshot) (doc_id snapshot).

(** The number the comparator reads for a message, as the integer multiple
    of 2^-1074 it is: [createdAt.toMillis()] for a Timestamp, the time value
    [new Date(createdAt).getTime()] otherwise, an integer of milliseconds
    that binary64 holds exactly ([new Date(null).getTime()] is 0).  Two
    Timestamps less than about 2^-12 ms apart can read as one number. *)
Definition instant (m : MessageRecord) : Z :=
  match createdAt m with
  | ATimestamp s n => Binary64.scaled (Firestore.toMillis s n)
  | ADate ms => ms * 2 ^ 1074
  | ANull => 0
  end.

(** [(a, b) => aDate - bDate]: the sort reads the sign of the difference. *)
Definition compareFn (a b : MessageRecord) : Z := instant a - instant b.

Definition normalizeMessages (messages : list MessageRecord) : list MessageRecord :=
  Js.sort compareFn messages.

(** [id.startsWith("optimistic-")] *)
Definition isOptimistic (i : string) : bool := String.prefix "optimistic-" i.

(** The state the hook keeps: the [useState] cells and the [useRef] cells. *)
Record State : Type := {
  messages : list MessageRecord;
  loading : bool;
  loadingMore : bool;
  hasMore : bool;
  oldestSnapshotRef : option QueryDocumentSnapshot;
  latestSnapshotRef : option QueryDocumentSnapshot;
  optimisticRef : list (string * MessageRecord)
}.

(** The state when the subscription effect has started for a chat. *)
Definition subscribed : State :=
  {| messages := []; loading := true; loadingMore := false; hasMore := true;
     oldestSnapshotRef := None; latestSnapshotRef := None;
     optimisticRef := [] |}.

Definition setMessages (f : list MessageRecord -> list MessageRecord) (st : State) : State :=
  {| messages := f (messages st); loading := loading st;
     loadingMore := loadingMore st; hasMore := hasMore st;
     oldestSnapshotRef := oldestSnapshotRef st;
     latestSnapshotRef := latestSnapshotRef st;
     optimisticRef := optimisticRef st |}.

Definition setOptimistic (o : list (string * MessageRecord)) (st : State) : State :=
  {| messages := messages st; loading := loading st;
     loadingMore := loadingMore st; hasMore := hasMore st;
     oldestSnapshotRef := oldestSnapshotRef st;
     latestSnapshotRef := latestSnapshotRef st;
     optimisticRef := o |}.

(** [deduped = new Map(); list.forEach(m => deduped.set(m.messageId, m))] *)
Definition dedupe (l : list MessageRecord) : list (string * MessageRecord) :=
  List.fold_left (fun d m => Js.set (messageId m) m d) l [].

(** The merge of one emission that carries documents:
    the updater passed to [setMessages] in the [onSnapshot] callback. *)
Definition mergeLive (docs : list QueryDocumentSnapshot)
    (optimistic : list (string * MessageRecord))
    (prev : list MessageRecord) : list MessageRecord :=
  let nonOptimistic :=
    List.filter (fun message => negb (isOptimistic (messageId message))) prev in
  let liveMessages := List.map toMessageRecord docs in
  let merged := normalizeMessages (liveMessages ++ Js.values optimistic) in
  let deduped := dedupe (nonOptimistic ++ merged) in
  normalizeMessages (Js.values deduped).

(** The [onSnapshot] success callback. *)
Definition onSnapshot (pageSize : Z) (docs : list QueryDocumentSnapshot)
    (st : State) : State :=
  match docs with
  | [] =>
      {| messages := Js.values (optimisticRef st);
         loading := false;
         loadingMore := loadingMore st;
         hasMore := false;
         oldestSnapshotRef := None;
         latestSnapshotRef := None;
         optimisticRef := optimisticRef st |}
  | first :: _ =>
      {| messages := mergeLive docs (optimisticRef st) (messages st);
         loading := false;
         loadingMore := loadingMore st;
         hasMore := Z.of_nat (List.length docs) =? pageSize;
         oldestSnapshotRef := Some (List.last docs first);
         latestSnapshotRef := Some first;
         optimisticRef := optimisticRef st |}
  end.

(** The updater of [loadMore]: sort, then deduplicate, and no sort after. *)
Definition mergeOlder (docs : list QueryDocumentSnapshot)
    (prev : list MessageRecord) : list MessageRecord :=
  let older := List.map toMessageRecord docs in
  let merged := normalizeMessages (prev ++ older) in
  Js.values (dedupe merged).

(** [loadMore], with the answer of [getDocs] as [fetched]
    ([None]: the query failed and the error was logged). *)
Definition loadMore (chatId : string) (pageSize : Z)
    (fetched : option (list QueryDocumentSnapshot)) (st : State) : State :=
  if String.eqb chatId "" || loadingMore st || negb (hasMore st)
     || match oldestSnapshotRef st with Some _ => false | None => true end
  then st
  else
    match fetched with
    | None => st
    | Some [] =>
        {| messages := messages st; loading := loading st;
           loadingMore := false; hasMore := false;
           oldestSnapshotRef := oldestSnapshotRef st;
           latestSnapshotRef := latestSnapshotRef st;
           optimisticRef := optimisticRef st |}
    | Some (first :: rest) =>
        let docs := first :: rest in
        {| messages := mergeOlder docs (messages st); loading := loading st;
           loadingMore := false;
           hasMore := if Z.of_nat (List.length docs) <? pageSize then false
                      else hasMore st;
           oldestSnapshotRef := Some (List.last docs first);
           latestSnapshotRef := latestSnapshotRef st;
           optimisticRef := optimisticRef st |}
    end.

(** [prependOptimistic(message)].  The assignment
    [optimisticRef.current[message.messageId] = message] makes or replaces
    an own entry for every id but [__proto__], which is no id of a document
    (Firestore admits no id of the form [__.*__]) and has no [optimistic-]
    prefix. *)
Definition prependOptimistic (message : MessageRecord) (st : State) : State :=
  let st' := setOptimistic (Js.set (messageId message) message (optimisticRef st)) st in
  setMessages (fun prev => normalizeMessages (prev ++ [message])) st'.

(** [{ ...existing, ...next, readBy: Array.from(new Set([...], [...])) }]:
    a key of [next] overrides the one of [existing]; an optional key [next]
    does not carry is left as [existing] has it. *)
Definition orElse {A : Type} (a b : option A) : option A :=
  match a with Some _ => a | None => b end.

Definition mergeInto (existing next : MessageRecord) : MessageRecord :=
  {| messageId := messageId next; chatId := chatId next;
     senderId := senderId next;
     text := orElse (text next) (text existing);
     attachments := orElse (attachments next) (attachments existing);
     type := type next;
     createdAt := createdAt next;
     editedAt := orElse (editedAt next) (editedAt existing);
     deletedAt := orElse (deletedAt next) (deletedAt existing);
     reactions := orElse (reactions next) (reactions existing);
     readBy := Some (Js.setOfList (default [] (readBy existing) ++ default [] (readBy next)));
     moderation := orElse (moderation next) (moderation existing) |}.

(** [merged.findIndex(p)]; [None] stands for -1. *)
Fixpoint findIndex {A : Type} (p : A -> bool) (l : list A) : option nat :=
  match l with
  | [] => None
  | x :: l' => if p x then Some O else option_map S (findIndex p l')
  end.

(** [merged[i] = v] for an index within the array. *)
Fixpoint assign {A : Type} (i : nat) (v : A) (l : list A) : list A :=
  match l, i with
  | [], _ => []
  | _ :: l', O => v :: l'
  | x :: l', S i' => x :: assign i' v l'
  end.

(** The updater of [settleOptimistic]. *)
Definition settleMessages (optimisticId : string) (next : option MessageRecord)
    (mergeReadBy : bool) (prev : list MessageRecord) : list MessageRecord :=
  let withoutOptimistic :=
    List.filter (fun message => negb (String.eqb (messageId message) optimisticId)) prev in
  match next with
  | None => withoutOptimistic
  | Some next =>
      let merged :=
        List.filter
          (fun message =>
             negb (String.eqb (messageId message) (messageId next)
                   && isOptimistic (messageId message)))
          withoutOptimistic in
      let existingIndex :=
        findIndex (fun message => String.eqb (messageId message) (messageId next)) merged in
      match existingIndex, mergeReadBy with
      | Some i, true =>
          match List.nth_error merged i with
          | Some existing =>
              normalizeMessages (assign i (mergeInto existing next) merged)
          | None => normalizeMessages merged
          end
      | _, _ => normalizeMessages (merged ++ [next])
      end
  end.

(** [settleOptimistic(optimisticId, next, options)];
    [mergeReadBy] is [options?.mergeReadBy] read as a boolean. *)
Definition settleOptimistic (optimisticId : string) (next : option MessageRecord)
    (mergeReadBy : bool) (st : State) : State :=
  let st' := setOptimistic (Js.delete optimisticId (optimisticRef st)) st in
  setMessages (settleMessages optimisticId next mergeReadBy) st'.

(** [{ ...existing, ...patch }] *)
Definition applyPatch (existing : MessageRecord) (patch : Patch) : MessageRecord :=
  {| messageId := default (messageId existing) (p_messageId patch);
     chatId := default (chatId existing) (p_chatId patch);
     senderId := default (senderId existing) (p_senderId patch);
     text := orElse (p_text patch) (text existing);
     attachments := orElse (p_attachments patch) (attachments existing);
     type := default (type existing) (p_type patch);
     createdAt := default (createdAt existing) (p_createdAt patch);
     editedAt := orElse (p_editedAt patch) (editedAt existing);
     deletedAt := orElse (p_deletedAt patch) (deletedAt existing);
     reactions := orElse (p_reactions patch) (reactions existing);
     readBy := orElse (p_readBy patch) (readBy existing);
     moderation := orElse (p_moderation patch) (moderation existing) |}.

(** [{ ...patch }] as a message record: the object is one when the patch
    carries every key a message record must have. *)
Definition fromPatch (patch : Patch) : option MessageRecord :=
  match p_messageId patch, p_chatId patch, p_senderId patch, p_type patch,
        p_createdAt patch with
  | Some i, Some c, Some s, Some t, Some at_ =>
      Some {| messageId := i; chatId := c; senderId := s; text := p_text patch;
              attachments := p_attachments patch; type := t; createdAt := at_;
              editedAt := p_editedAt patch; deletedAt := p_deletedAt patch;
              reactions := p_reactions patch; readBy := p_readBy patch;
              moderation := p_moderation patch |}
  | _, _, _, _, _ => None
  end.

(** The two writes of [updateOptimistic]: the side table with [patched]
    under the id, and the sequence with [nextOptimistic[optimisticId]] in
    the place of every entry of that id. *)
Definition writePatched (optimisticId : string) (patched : MessageRecord)
    (st : State) : State :=
  let nextOptimistic := Js.set optimisticId patched (optimisticRef st) in
  let st' := setOptimistic nextOptimistic st in
  setMessages
    (List.map (fun message =>
       if String.eqb (messageId message) optimisticId then patched else message))
    st'.

(** [updateOptimistic(optimisticId, patch)].  [optimisticRef.current] is a
    plain object, so [existing] is the entry the table owns under the id,
    or else, for a name of [Object.prototype], the inherited member, which
    is truthy and spreads to nothing: the call then stores [{ ...patch }].
    That object is a message record only when the patch carries the
    required keys; [None] is the outcome in which it is not, and the state
    holds an object that is no [MessageRecord]. *)
Definition updateOptimistic (optimisticId : string) (patch : Patch) (st : State)
    : option State :=
  match Js.get optimisticId (optimisticRef st) with
  | Some existing => Some (writePatched optimisticId (applyPatch existing patch) st)
  | None =>
      if Js.inherits optimisticId
      then option_map (fun patched => writePatched optimisticId patched st)
                      (fromPatch patch)
      else Some st
  end.

(** *** Vocabulary of the properties *)

Definition ids (l : list MessageRecord) : list string := List.map messageId l.

(** How many entries carry the id. *)
Definition countId (i : string) (l : list MessageRecord) : nat :=
  List.length (List.filter (fun m => String.eqb (messageId m) i) l).

(** Ascending creation instant. *)
Definition ascending (l : list MessageRecord) : Prop :=
  StronglySorted (fun a b => instant a <= instant b) l.



(** The entries of one creation instant, in sequence order. *)
Definition tie (t : Z) (l : list MessageRecord) : list MessageRecord :=
  List.filter (fun m => instant m =? t) l.


(** An entry of another id than the message. *)
Definition other (final : MessageRecord) (m : MessageRecord) : bool :=
  negb (String.eqb (messageId m) (messageId final)).


(** The last entry of the id. *)
Definition lastOfId (i : string) (l : list MessageRecord) : option MessageRecord :=
  List.find (fun m => String.eqb (messageId m) i) (List.rev l).

(** A text message of chat "c1" by "u1", for the examples. *)
Definition textMessage (i : string) (t : AnyTime) : MessageRecord :=
  {| messageId := i; chatId := "c1"; senderId := "u1"; text := Some "Hello there";
     attachments := None; type := TText; createdAt := t; editedAt := None;
     deletedAt := None; reactions := None; readBy := None; moderation := None |}.

Definition noPatch : Patch :=
  {| p_messageId := None; p_chatId := None; p_senderId := None; p_text := None;
     p_attachments := None; p_type := None; p_createdAt := None;
     p_editedAt := None; p_deletedAt := None; p_reactions := None;
     p_readBy := None; p_moderation := None |}.

(** Every entry of the table stands under its own message id. *)
Definition keyed (d : list (string * MessageRecord)) : Prop :=
  forall k v, In (k, v) d -> messageId v = k.


Definition m_opt : MessageRecord := textMessage "optimistic-a1" (ADate 20).
Definition m_final : MessageRecord := textMessage "msg-1" (ATimestamp 0 30000000).

Definition doc (i : string) (t : AnyTime) : QueryDocumentSnapshot :=
  {| doc_id := i; doc_data := textMessage "" t |}.




End Messages.

(** ** toDate (hooks/use-chats.ts and components/chats/chat-room.tsx) *)

Module Timestamps.

(** The time value of a Date: a whole number of milliseconds within
    8.64e15 of the epoch, or [NaN] for an Invalid Date. *)
Inductive TimeValue : Type := NaN | Num (z : Z).

(** The values of type [unknown] the function is read on. [JDate t] is a
    Date object of time value [t] ([NaN]: an Invalid Date), [JTimestamp] a
    Firestore [Timestamp], [JObject] a plain object with its own properties. *)
Inductive JsValue : Type :=
| JUndefined
| JNull
| JBool (b : bool)
| JNumber (n : Binary64.Number)
| JBigInt (z : Z)
| JString (s : string)
| JSymbol (description : string)
| JDate (t : TimeValue)
| JTimestamp (seconds nanoseconds : Z)
| JObject (fields : list (string * JsValue)).

(** A Date object, by its time value. *)
Record Date : Type := { getTime : TimeValue }.

(** How an evaluation ends: with a value, or with a thrown [TypeError]. *)
Inductive Completion (A : Type) : Type :=
| Normal (a : A)
| TypeError.
Arguments Normal {A} a.
Arguments TypeError {A}.

Definition bind {A B : Type} (c : Completion A) (k : A -> Completion B) : Completion B :=
  match c with
  | Normal a => k a
  | TypeError => TypeError
  end.

Notation "'let*' x ':=' c 'in' k" := (bind c (fun x => k))
  (at level 10, x name, c at level 100, k at level 200).

(** [!value] is [negb (ToBoolean value)]; a Number is falsy when it is a
    zero or NaN; every object is truthy. *)
Definition ToBoolean (value : JsValue) : bool :=
  match value with
  | JUndefined | JNull => false
  | JBool b => b
  | JNumber n => negb (Binary64.isZero n || Binary64.isNaN n)
  | JBigInt z => negb (z =? 0)
  | JString s => negb (String.eqb s "")
  | JSymbol _ | JDate _ | JTimestamp _ _ | JObject _ => true
  end.

(** The Number a Date converts to: its time value. *)
Definition numberOf (t : TimeValue) : Binary64.Number :=
  match t with
  | NaN => SpecFloat.S754_nan
  | Num z => Binary64.ofZ z
  end.

(** TimeClip: NaN for a Number that is not finite or whose magnitude is
    above 8.64e15, and the integer part, toward zero, of any other. *)
Definition TimeClip (time : Binary64.Number) : TimeValue :=
  if negb (Binary64.isFinite time) then NaN
  else if Binary64.magnitudeAbove 8640000000000000 time then NaN
  else Num (Binary64.truncate time).

(** [new Date(v)] for a Number. *)
Definition newDate (v : Binary64.Number) : Date := {| getTime := TimeClip v |}.

(** ["k" in value] for a plain object. *)
Definition hasProperty (k : string) (fields : list (string * JsValue)) : bool :=
  match Js.get k fields with Some _ => true | None => false end.

(** [value.k]: [undefined] when the property is missing. *)
Definition getProperty (k : string) (fields : list (string * JsValue)) : JsValue :=
  default JUndefined (Js.get k fields).

Section Runtime.
(** What the model leaves to the runtime: the number a string reads as,
    the number an object other than a Date converts to through [valueOf]
    and [toString] (a conversion that may throw), and [Timestamp.toDate()]
    of the Firestore SDK. *)
Variable StringToNumber : string -> Binary64.Number.
Variable ObjectToNumber : JsValue -> Completion Binary64.Number.
Variable Timestamp_toDate : Z -> Z -> Date.

(** The operand of [*] and [/] as a Number; a BigInt next to a Number
    operand and a Symbol throw. *)
Definition ToNumber (v : JsValue) : Completion Binary64.Number :=
  match v with
  | JUndefined => Normal SpecFloat.S754_nan
  | JNull => Normal (Binary64.ofZ 0)
  | JBool b => Normal (Binary64.ofZ (if b then 1 else 0))
  | JNumber n => Normal n
  | JBigInt _ => TypeError
  | JString s => Normal (StringToNumber s)
  | JSymbol _ => TypeError
  | JDate t => Normal (numberOf t)
  | JTimestamp _ _ | JObject _ => ObjectToNumber v
  end.

Definition toDate (value : JsValue) : Completion (option Date) :=
  if negb (ToBoolean value) then Normal None
  else
    match value with
    | JDate t => Normal (Some {| getTime := t |})
    | JTimestamp s n => Normal (Some (Timestamp_toDate s n))
    | JObject fields =>
        if hasProperty "seconds" fields then
          let seconds := getProperty "seconds" fields in
          let nanoseconds := getProperty "nanoseconds" fields in
          let* s := ToNumber seconds in
          let* n := ToNumber nanoseconds in
          Normal (Some (newDate
                    (Binary64.add
                       (Binary64.mul s (Binary64.ofZ 1000))
                       (Binary64.floor (Binary64.div n (Binary64.ofZ 1000000))))))
        else Normal None
    | _ => Normal None
    end.
End Runtime.

(** *** Vocabulary of the properties *)

Definition isDate (v : JsValue) : bool :=
  match v with JDate _ => true | _ => false end.

Definition isTimestamp (v : JsValue) : bool :=
  match v with JTimestamp _ _ => true | _ => false end.

(** A plain object that has a [seconds] property. *)
Definition hasSeconds (v : JsValue) : bool :=
  match v with JObject fields => hasProperty "seconds" fields | _ => false end.

(** A plain object that has both properties of the pair. *)
Definition isSecondsNanosecondsPair (v : JsValue) : bool :=
  match v with
  | JObject fields => hasProperty "seconds" fields && hasProperty "nanoseconds" fields
  | _ => false
  end.

(** The field of a plain object converts to a number without throwing. *)
Definition converts (ObjectToNumber : JsValue -> Completion Binary64.Number)
    (StringToNumber : string -> Binary64.Number) (k : string) (v : JsValue) : bool :=
  match v with
  | JObject fields =>
      match ToNumber StringToNumber ObjectToNumber (getProperty k fields) with
      | Normal _ => true
      | TypeError => false
      end
  | _ => true
  end.

(** The Date of the Number [seconds * 1000 + Math.floor(nanoseconds / 1e6)],
    which [toDate] builds from the fields of a plain object. *)
Definition dateOfFields (seconds nanoseconds : Binary64.Number) : Date :=
  newDate
    (Binary64.add
       (Binary64.mul seconds (Binary64.ofZ 1000))
       (Binary64.floor (Binary64.div nanoseconds (Binary64.ofZ 1000000)))).

(** A runtime for the examples: strings and objects read as NaN, and a
    Timestamp gives [new Date(this.toMillis())], the Date of its whole
    milliseconds, as in the Firestore SDK. *)
Definition readsNaN (s : string) : Binary64.Number := SpecFloat.S754_nan.
Definition convertsToNaN (v : JsValue) : Completion Binary64.Number :=
  Normal SpecFloat.S754_nan.
Definition wholeMillis (seconds nanoseconds : Z) : Date :=
  newDate (Firestore.toMillis seconds nanoseconds).

(** Numbers of the examples: 1.5, and the infinity. *)
Definition oneAndAHalf : Binary64.Number :=
  Binary64.div (Binary64.ofZ 3) (Binary64.ofZ 2).
Definition infinity : Binary64.Number := SpecFloat.S754_infinity false.

End Timestamps.

(** ** functions/src/rateLimiter.ts *)

Module RateLimiter.

(** Times are milliseconds since the epoch; the numbers are integers. *)
Record RateLimiterOptions : Type := {
  windowMs : Z;
  maxRequests : Z
}.

Record Bucket : Type := {
  count : Z;
  expiresAt : Z
}.

Record HttpsError : Type := {
  code : string;
  message : string
}.

Definition resourceExhausted : HttpsError :=
  {| code := "resource-exhausted";
     message := "Too many requests. Please retry in a few moments." |}.

Inductive Outcome : Type :=
| Returned
| Thrown (e : HttpsError).

(** [assertRateLimit(key, options)] on the module's [buckets] map, with
    [now] the value [Date.now()] returns in the call. *)
Definition assertRateLimit (now : Z) (key : string) (options : RateLimiterOptions)
    (buckets : gmap string Bucket) : Outcome * gmap string Bucket :=
  let fresh := {| count := 1; expiresAt := now + windowMs options |} in
  match buckets !! key with
  | None => (Returned, <[key := fresh]> buckets)
  | Some existing =>
      if expiresAt existing <=? now then (Returned, <[key := fresh]> buckets)
      else if count existing >=? maxRequests options then
        (Thrown resourceExhausted, buckets)
      else
        (Returned,
         <[key := {| count := count existing + 1;
                     expiresAt := expiresAt existing |}]> buckets)
  end.

Definition resetRateLimiter (buckets : gmap string Bucket) : gmap string Bucket := ∅.

(** A run of calls for one key and one setting, at the given clock readings;
    the outcomes are listed in call order. *)
Fixpoint calls (key : string) (options : RateLimiterOptions) (clock : list Z)
    (buckets : gmap string Bucket) : list Outcome * gmap string Bucket :=
  match clock with
  | [] => ([], buckets)
  | now :: clock' =>
      let '(o, buckets') := assertRateLimit now key options buckets in
      let '(os, buckets'') := calls key options clock' buckets' in
      (o :: os, buckets'')
  end.

Definition succeeded (o : Outcome) : bool :=
  match o with Returned => true | Thrown _ => false end.

(** The key has a window that is still open at [now]. *)
Definition live (now : Z) (key : string) (buckets : gmap string Bucket) : Prop :=
  exists b, buckets !! key = Some b /\ now < expiresAt b.

(** The window a call opens, and a window with one more request counted. *)
Definition fresh (now : Z) (options : RateLimiterOptions) : Bucket :=
  {| count := 1; expiresAt := now + windowMs options |}.

Definition bump (b : Bucket) : Bucket :=
  {| count := count b + 1; expiresAt := expiresAt b |}.

Definition perMinute (n : Z) : RateLimiterOptions :=
  {| windowMs := 60000; maxRequests := n |}.

Definition spent : gmap string Bucket :=
  <["aiSummarize:u1" := {| count := 3; expiresAt := 60000 |}]> ∅.

End RateLimiter.

(** ** functions/src/index.ts: the notification fan-out *)

Module Notifications.

Record ChatData : Type := {
  participants : option (list string);
  name : option string;
  type : option string;
  mutedBy : option (list string)
}.

Record UserData : Type := {
  fcmTokens : option (list string)
}.

Record AttachmentRef : Type := {
  downloadURL : option string;
  att_name : option string
}.

Record MessageData : Type := {
  senderId : string;
  text : option string;
  msg_type : option string;
  attachments : option (list AttachmentRef)
}.

Record MulticastMessage : Type := {
  tokens : list string;
  title : string;
  body : string;
  data_chatId : string;
  data_messageId : string;
  data_type : string
}.

Record SendResponse : Type := {
  success : bool;
  error_message : option string
}.

Record BatchResponse : Type := {
  responses : list SendResponse;
  successCount : Z
}.

(** What the function does to the outside: the multicast it sends and the
    lines it logs. *)
Inductive Event : Type :=
| Multicast (payload : MulticastMessage)
| LogInfo (line : string)
| LogWarn (line : string) (failures : list (option string))
| LogError (line : string).

Inductive Completion : Type := Resolved | Rejected.

Definition sentPayloads (trace : list Event) : list MulticastMessage :=
  List.flat_map (fun e => match e with Multicast p => [p] | _ => [] end) trace.

Section FanOut.
(** The [chats] and [users] collections, and the messaging service:
    [None] is a call that rejects. *)
Variable chats : gmap string ChatData.
Variable users : gmap string UserData.
Variable sendEachForMulticast : MulticastMessage -> option BatchResponse.

Definition targetsOf (chat : ChatData) (message : MessageData) : list string :=
  let participants := default [] (participants chat) in
  let mutedBy := default [] (mutedBy chat) in
  List.filter
    (fun memberId =>
       negb (String.eqb memberId (senderId message))
       && negb (List.existsb (String.eqb memberId) mutedBy))
    participants.

(** [userDocs.forEach(d => d.data()?.fcmTokens?.forEach(t => tokens.add(t)))] *)
Definition tokensOf (targets : list string) : list string :=
  List.fold_left
    (fun tokens memberId =>
       match users !! memberId with
       | Some data =>
           match fcmTokens data with
           | Some ts => List.fold_left (fun s t => Js.setAdd t s) ts tokens
           | None => tokens
           end
       | None => tokens
       end)
    targets [].

Definition notificationTitle (chat : ChatData) : string :=
  match type chat with
  | Some t =>
      if String.eqb t "group" then default "New group message" (name chat)
      else "New message"
  | None => "New message"
  end.

Definition notificationBody (message : MessageData) : string :=
  match text message with
  | Some t => t
  | None =>
      match attachments message with
      | Some ((_ :: _) as l) =>
          pretty (N.of_nat (List.length l)) +:+ " attachment"
            +:+ (if Nat.eqb (List.length l) 1 then "" else "s")
      | _ => "New activity in your chat."
      end
  end.

Definition sendMessageNotification (chatId messageId : string)
    (message : MessageData) : list Event * Completion :=
  match chats !! chatId with
  | None => ([], Resolved)
  | Some chat =>
      let targets := targetsOf chat message in
      match targets with
      | [] => ([], Resolved)
      | _ :: _ =>
          let tokens := tokensOf targets in
          match tokens with
          | [] => ([LogInfo "No push tokens to notify"], Resolved)
          | _ :: _ =>
              let payload :=
                {| tokens := tokens;
                   title := notificationTitle chat;
                   body := notificationBody message;
                   data_chatId := chatId;
                   data_messageId := messageId;
                   data_type := default "text" (msg_type message) |} in
              match sendEachForMulticast payload with
              | None => ([Multicast payload], Rejected)
              | Some response =>
                  let failures :=
                    List.filter (fun result => negb (success result))
                      (responses response) in
                  match failures with
                  | _ :: _ =>
                      ([Multicast payload;
                        LogWarn "Some notifications failed"
                          (List.map error_message failures)],
                       Resolved)
                  | [] =>
                      ([Multicast payload;
                        LogInfo "Delivered FCM notifications"],
                       Resolved)
                  end
              end
          end
      end
  end.

(** The [onDocumentCreated] handler: [None] is an event without payload. *)
Definition onMessageCreated (chatId messageId : string)
    (message : option MessageData) : list Event * Completion :=
  match message with
  | None => ([LogWarn "No message payload for onMessageCreated" []], Resolved)
  | Some message =>
      match sendMessageNotification chatId messageId message with
      | (trace, Resolved) => (trace, Resolved)
      | (trace, Rejected) =>
          ((trace ++ [LogError "Failed to send push notification"])%list, Resolved)
      end
  end.
End FanOut.

(** *** Vocabulary of the properties *)

(** A token registered by one of the users. *)
Definition registered (users : gmap string UserData) (targets : list string)
    (t : string) : Prop :=
  exists u data ts, In u targets /\ users !! u = Some data
                    /\ fcmTokens data = Some ts /\ In t ts.

(** The deliveries the service reports as failed. *)
Definition failed (response : BatchResponse) : list SendResponse :=
  List.filter (fun result => negb (success result)) (responses response).

(** *** A chat for the examples: u3 has muted it, u2 has two devices. *)

Definition chat1 : ChatData :=
  {| participants := Some ["u1"; "u2"; "u3"]; name := None;
     type := Some "dm"; mutedBy := Some ["u3"] |}.

Definition chats1 : gmap string ChatData := <["c1" := chat1]> ∅.

Definition users1 : gmap string UserData :=
  <["u2" := {| fcmTokens := Some ["t1"; "t2"; "t1"] |}]>
    (<["u3" := {| fcmTokens := Some ["t9"] |}]> ∅).

Definition message1 : MessageData :=
  {| senderId := "u1"; text := Some "Hello there"; msg_type := None;
     attachments := None |}.

(** A message of two pictures and no text. *)
Definition message2 : MessageData :=
  {| senderId := "u1"; text := None; msg_type := Some "image";
     attachments :=
       Some [{| downloadURL := Some "https://example.test/a.png";
                att_name := Some "a.png" |};
             {| downloadURL := Some "https://example.test/b.png";
                att_name := None |}] |}.

(** A service that delivers to the first token only. *)
Definition partialDelivery (payload : MulticastMessage) : option BatchResponse :=
  Some {| responses :=
            [{| success := true; error_message := None |};
             {| success := false; error_message := Some "unregistered" |}];
          successCount := 1 |}.

End Notifications.

(** ** shared/src/index.ts *)

Module Shared.

(** The default comparator of [Array.prototype.sort]: strings by code unit,
    here by character code, the strings being sequences of 8-bit characters. *)
Definition defaultCompare (a b : string) : Z :=
  match String.compare a b with
  | Lt => -1
  | Eq => 0
  | Gt => 1
  end.

(** [[uidA, uidB].sort().join("__")] *)
Definition dmChatId (uidA uidB : string) : string :=
  String.concat "__" (Js.sort defaultCompare [uidA; uidB]).

(** *** Vocabulary of the properties *)

(** The id holds no underscore. *)
Fixpoint plain (s : string) : bool :=
  match s with
  | EmptyString => true
  | String c s' => negb (Ascii.eqb c "_") && plain s'
  end.

End Shared.

(** ** The hook as its callers drive it *)

Module MessageSession.
Import Messages.

(** The guard of [loadMore]: a chat, no load in flight, more to load, and a
    cursor. *)
Definition canLoadMore (chatId : string) (st : State) : bool :=
  negb (String.eqb chatId "" || loadingMore st || negb (hasMore st)
        || match oldestSnapshotRef st with Some _ => false | None => true end).

(** What happens to the hook: an emission of the subscription, the answer to
    a [loadMore] query, and the three calls of the component.  A settle call
    with a message passes [{ mergeReadBy: true }], as [handleSend] does. *)
Inductive Action : Type :=
| Emit (pageSize : Z) (docs : list QueryDocumentSnapshot)
| LoadMore (chatId : string) (pageSize : Z) (fetched : option (list QueryDocumentSnapshot))
| Prepend (message : MessageRecord)
| Settle (optimisticId : string) (next : option MessageRecord)
| Update (optimisticId : string) (patch : Patch).

(** [None]: an [updateOptimistic] left an object that is no message record
    in the state. *)
Definition run (a : Action) (st : State) : option State :=
  match a with
  | Emit pageSize docs => Some (onSnapshot pageSize docs st)
  | LoadMore chatId pageSize fetched => Some (loadMore chatId pageSize fetched st)
  | Prepend message => Some (prependOptimistic message st)
  | Settle optimisticId next => Some (settleOptimistic optimisticId next true st)
  | Update optimisticId patch => updateOptimistic optimisticId patch st
  end.

Fixpoint runAll (actions : list Action) (st : State) : option State :=
  match actions with
  | [] => Some st
  | a :: rest =>
      match run a st with
      | Some st' => runAll rest st'
      | None => None
      end
  end.

(** The calls a component makes: a message is prepended under an id that is
    not shown yet and is not [__proto__] (an assignment under that name sets
    the prototype of the side table, not an entry); a patch does not carry
    [messageId], and goes to a pending id or to an id that is no name of
    [Object.prototype]. *)
Definition admissible (a : Action) (st : State) : Prop :=
  match a with
  | Prepend message =>
      ~ In (messageId message) (ids (messages st))
      /\ messageId message <> "__proto__"
  | Update optimisticId patch =>
      p_messageId patch = None
      /\ (Js.get optimisticId (optimisticRef st) <> None
          \/ Js.inherits optimisticId = false)
  | _ => True
  end.

Fixpoint allAdmissible (actions : list Action) (st : State) : Prop :=
  match actions with
  | [] => True
  | a :: rest =>
      admissible a st
      /\ match run a st with
         | Some st' => allAdmissible rest st'
         | None => False
         end
  end.

(** One entry per id in the sequence, and a side table whose entries stand
    under their own ids, one per key. *)
Definition wellKeyed (st : State) : Prop :=
  List.NoDup (ids (messages st))
  /\ keyed (optimisticRef st)
  /\ List.NoDup (Js.keys (optimisticRef st)).

End MessageSession.

(** ** functions/src/rateLimiter.ts: runs of calls for many keys *)

Module RateLimiterRuns.
Import RateLimiter.

(** One call of [assertRateLimit]: the reading of [Date.now()] in it and its
    two arguments. *)
Record Call : Type := {
  call_now : Z;
  call_key : string;
  call_options : RateLimiterOptions
}.

(** The calls of a trace, in order, on the module's one [buckets] map. *)
Fixpoint serve (trace : list Call) (buckets : gmap string Bucket)
    : list Outcome * gmap string Bucket :=
  match trace with
  | [] => ([], buckets)
  | c :: trace' =>
      let '(o, buckets') :=
        assertRateLimit (call_now c) (call_key c) (call_options c) buckets in
      let '(os, buckets'') := serve trace' buckets' in
      (o :: os, buckets'')
  end.

(** *** Vocabulary of the properties *)

Definition forKey (key : string) (c : Call) : bool := String.eqb (call_key c) key.

(** The outcomes of the calls made for [key], in call order. *)
Definition outcomesFor (key : string) (trace : list Call) (outcomes : list Outcome)
    : list Outcome :=
  List.map snd (List.filter (fun p => forKey key (fst p)) (List.combine trace outcomes)).

(** Every call of the trace uses the setting its key has in [policy]. *)
Definition follows (policy : string -> RateLimiterOptions) (trace : list Call) : Prop :=
  List.Forall (fun c => call_options c = policy (call_key c)) trace.

(** The settings index.ts uses, by the prefix of the key. *)
Definition endpointPolicy (key : string) : RateLimiterOptions :=
  if String.prefix "aiSummarize:" key then {| windowMs := 60000; maxRequests := 3 |}
  else if String.prefix "aiDraft:" key then {| windowMs := 60000; maxRequests := 5 |}
  else if String.prefix "aiModerate:" key then {| windowMs := 30000; maxRequests := 10 |}
  else if String.prefix "presence:" key then {| windowMs := 15000; maxRequests := 10 |}
  else {| windowMs := 60000; maxRequests := 1 |}.

Definition mixedTrace : list Call :=
  [ {| call_now := 0; call_key := "syncUsers:u1"; call_options := endpointPolicy "syncUsers:u1" |};
    {| call_now := 5; call_key := "presence:u2"; call_options := endpointPolicy "presence:u2" |};
    {| call_now := 10; call_key := "syncUsers:u1"; call_options := endpointPolicy "syncUsers:u1" |};
    {| call_now := 15; call_key := "presence:u2"; call_options := endpointPolicy "presence:u2" |} ].

End RateLimiterRuns.


(** ** functions/src/ai.ts *)

Module Ai.

Definition DEFAULT_CHAT_SUMMARY_MESSAGE : string :=
  "No recent conversation to summarize yet. Start chatting to see AI highlights here.".

Definition SUMMARY_MODEL : string := "gemini-1.5-flash-latest".
Definition DRAFT_MODEL : string := "gemini-1.5-flash-latest".
Definition MODERATION_MODEL : string := "gemini-pro".

Record GeminiResponse : Type := {
  summary : option string;
  suggestions : option (list string);
  approved : option bool;
  reason : option string
}.

Definition noResponse : GeminiResponse :=
  {| summary := None; suggestions := None; approved := None; reason := None |}.

(** An entry of the transcript [fetchRecentMessages] returns. *)
Record TranscriptMessage : Type := {
  senderId : string;
  text : option string;
  createdAt : Z;
  type : string
}.

Definition blocklist : list string := ["spam"; "phishing"; "terrorism"].

Definition quote : string := String (Ascii.ascii_of_nat 34) EmptyString.
Definition newline : string := String (Ascii.ascii_of_nat 10) EmptyString.

(** [s.includes(term)] *)
Fixpoint includes (s term : string) : bool :=
  String.prefix term s
  || match s with
     | EmptyString => false
     | String _ s' => includes s' term
     end.

(** [s.split("\n")] *)
Fixpoint split (s : string) : list string :=
  match s with
  | EmptyString => [""]
  | String c s' =>
      if Ascii.eqb c (Ascii.ascii_of_nat 10) then "" :: split s'
      else match split s' with
           | line :: lines => String c line :: lines
           | [] => [String c EmptyString]
           end
  end.

(** [Boolean(s)] of a string. *)
Definition truthy (s : string) : bool := negb (String.eqb s "").

Section Service.
(** [isGeminiStub] of config.ts; the string methods of the runtime, whose
    results are left open; the recent messages of a chat ([None]: the read or
    its validation rejects); and the exchange with the Gemini endpoint in
    [callGemini] ([None]: it throws, on a failed response or one without
    text). *)
Variable isGeminiStub : bool.
Variable toLowerCase : string -> string.
Variable trim : string -> string.
Variable stripLeadingBullet : string -> string.
Variable fetchRecentMessages : string -> Z -> option (list TranscriptMessage).
Variable generateContent : string -> string -> option string.

Definition callGemini (model prompt : string) : option string :=
  if isGeminiStub then Some "[stubbed] Gemini API key not configured."
  else generateContent model prompt.

(** [`${message.senderId}: ${message.text ?? `[${message.type}]`}`] joined by
    line breaks. *)
Definition transcriptOf (messages : list TranscriptMessage) : string :=
  String.concat newline
    (List.map
       (fun message =>
          senderId message +:+ ": "
            +:+ default ("[" +:+ type message +:+ "]") (text message))
       messages).

Definition generateChatSummary (chatId : string) : option GeminiResponse :=
  match fetchRecentMessages chatId 30 with
  | None => None
  | Some messages =>
      match messages with
      | [] =>
          Some {| summary := Some DEFAULT_CHAT_SUMMARY_MESSAGE; suggestions := None;
                  approved := None; reason := None |}
      | first :: rest =>
          if isGeminiStub then
            let lastSpeaker := List.last rest first in
            Some {| summary :=
                      Some ("Recent activity from " +:+ senderId lastSpeaker +:+ ": "
                              +:+ quote +:+ default "sent an update" (text lastSpeaker)
                              +:+ quote +:+ ".");
                    suggestions := None; approved := None; reason := None |}
          else
            let prompt := trim ("
You are an assistant summarizing a chat conversation.
Provide a concise summary (2-3 sentences) focusing on decisions, blockers, and next steps if mentioned.
Transcript:
" +:+ transcriptOf messages +:+ "
  ") in
            match callGemini SUMMARY_MODEL prompt with
            | Some summary =>
                Some {| summary := Some summary; suggestions := None;
                        approved := None; reason := None |}
            | None =>
                Some {| summary := Some DEFAULT_CHAT_SUMMARY_MESSAGE; suggestions := None;
                        approved := None; reason := None |}
            end
      end
  end.

Definition cannedReplies : GeminiResponse :=
  {| summary := None;
     suggestions :=
       Some ["👍 Sounds good!"; "Let me check and get back to you.";
             "Thanks for the heads up!"];
     approved := None; reason := None |}.

Definition generateDraftReplies (chatId lastMessage : string) : option GeminiResponse :=
  match fetchRecentMessages chatId 10 with
  | None => None
  | Some messages =>
      if isGeminiStub then
        Some {| summary := None;
                suggestions :=
                  Some ["On " +:+ chatId +:+ ": sounds good!";
                        "I'll take a look shortly.";
                        "Thanks for the update, let's keep the thread going."];
                approved := None; reason := None |}
      else
        let prompt := trim ("
You are an assistant composing short chat replies (max 120 characters each).
Provide three practical, friendly reply options in bullet form.
Latest message to respond to:
" +:+ lastMessage +:+ "

Recent context:
" +:+ transcriptOf messages +:+ "
  ") in
        match callGemini DRAFT_MODEL prompt with
        | None => Some cannedReplies
        | Some text =>
            let suggestions :=
              List.firstn 3
                (List.filter truthy
                   (List.map (fun line => trim (stripLeadingBullet line)) (split text))) in
            match suggestions with
            | [] => Some cannedReplies
            | _ :: _ =>
                Some {| summary := None; suggestions := Some suggestions;
                        approved := None; reason := None |}
            end
        end
  end.

Definition moderateContent (message : string) : GeminiResponse :=
  let normalized := toLowerCase message in
  if List.existsb (fun term => includes normalized term) blocklist then
    {| summary := None; suggestions := None; approved := Some false;
       reason := Some "Message contains restricted terms." |}
  else if isGeminiStub then
    {| summary := None; suggestions := None; approved := Some true; reason := None |}
  else
    let prompt := trim ("
You are a safety filter for a chat platform.
Classify the following message as either " +:+ quote +:+ "allow" +:+ quote +:+ " or "
+:+ quote +:+ "block" +:+ quote +:+ ".
If blocked, provide a short reason referencing policy categories.
Message:
" +:+ message +:+ "
  ") in
    match callGemini MODERATION_MODEL prompt with
    | Some text =>
        if includes (toLowerCase text) "block" then
          {| summary := None; suggestions := None; approved := Some false;
             reason := Some text |}
        else
          {| summary := None; suggestions := None; approved := Some true; reason := None |}
    | None =>
        {| summary := None; suggestions := None; approved := Some true; reason := None |}
    end.

End Service.

(** *** Vocabulary of the properties *)

(** The message holds a term of the blocklist, in any letter case the
    runtime folds to the term. *)
Definition restricted (toLowerCase : string -> string) (message : string) : Prop :=
  exists term, In term blocklist /\ includes (toLowerCase message) term = true.

(** Suggestions that can be shown: some, at most three, none empty. *)
Definition usable (l : list string) : Prop :=
  l <> [] /\ (List.length l <= 3)%nat /\ List.Forall (fun s => s <> "") l.

(** A lower-casing of the letters A to Z, for the examples. *)
Definition lowerAscii (c : ascii) : ascii :=
  let n := Ascii.nat_of_ascii c in
  if (65 <=? n)%nat && (n <=? 90)%nat then Ascii.ascii_of_nat (n + 32) else c.

Fixpoint lower (s : string) : string :=
  match s with
  | EmptyString => EmptyString
  | String c s' => String (lowerAscii c) (lower s')
  end.

End Ai.


(** ** functions/src/index.ts: the callable and HTTP endpoints *)

Module Functions.
Import RateLimiter.

(** A value of a request: [null] or [undefined], a string, an object with
    its own properties, anything else.  A property holds a string or
    something that is not a string. *)
Inductive Field : Type :=
| FString (s : string)
| FOther.

Inductive Value : Type :=
| VNullish
| VString (s : string)
| VObject (fields : list (string * Field))
| VOther.

Record CallableRequest : Type := {
  auth : option string;
  data : Value
}.

(** What a handler throws: an [HttpsError], the error of a failed [parse],
    or the rejection of a service it awaits. *)
Inductive Failure : Type :=
| Https (e : HttpsError)
| ZodError
| Rejection.

Inductive Result (A : Type) : Type :=
| Ok (a : A)
| Err (f : Failure).
Arguments Ok {A} a.
Arguments Err {A} f.

(** [z.object({...}).parse(value ?? {})]: the properties of an object. *)
Definition objectOf (value : Value) : option (list (string * Field)) :=
  match value with
  | VNullish => Some []
  | VObject fields => Some fields
  | VString _ | VOther => None
  end.

(** [z.string().min(1)] on a property. *)
Definition requiredString (name : string) (fields : list (string * Field))
    : option string :=
  match Js.get name fields with
  | Some (FString s) => if String.eqb s "" then None else Some s
  | _ => None
  end.

Definition summarizeInput (value : Value) : option string :=
  match objectOf value with
  | Some fields => requiredString "chatId" fields
  | None => None
  end.

Definition draftInput (value : Value) : option (string * string) :=
  match objectOf value with
  | Some fields =>
      match requiredString "chatId" fields, requiredString "messageContext" fields with
      | Some chatId, Some messageContext => Some (chatId, messageContext)
      | _, _ => None
      end
  | None => None
  end.

Definition moderationInput (value : Value) : option string :=
  match objectOf value with
  | Some fields => requiredString "message" fields
  | None => None
  end.

(** [z.object({ status: z.enum([...]).default("online") }).parse(body)] *)
Definition presencePayload (body : Value) : option string :=
  match body with
  | VObject fields =>
      match Js.get "status" fields with
      | None => Some "online"
      | Some (FString s) =>
          if String.eqb s "online" || String.eqb s "away" || String.eqb s "offline"
          then Some s else None
      | Some FOther => None
      end
  | _ => None
  end.

Definition ensureAuthenticated (context : CallableRequest) : Result string :=
  match auth context with
  | None =>
      Err (Https {| code := "unauthenticated"; message := "Authentication is required." |})
  | Some uid => Ok uid
  end.

Record SummaryResponse : Type := { res_summary : string }.
Record DraftResponse : Type := { res_suggestions : list string }.
Record ModerationResponse : Type := { res_approved : bool; res_reason : option string }.

Record HttpRequest : Type := {
  method : string;
  authorization : option string;
  body : Value
}.

Inductive ResponseBody : Type :=
| Text (s : string)
| Json (ok : bool) (reply : option string).

Record HttpResponse : Type := {
  status : Z;
  sent : ResponseBody
}.

(** The fields [presencePing] sets on the user document; [lastSeen] is the
    server's time stamp. *)
Record PresenceWrite : Type := {
  write_uid : string;
  write_isOnline : bool
}.

Section Endpoints.
(** The [chats] collection; the services of ai.ts ([None]: the promise
    rejects); [verifyIdToken] of the Admin SDK ([None]: it rejects);
    [JSON.parse] ([None]: it throws); [trim] of the runtime; and whether the
    write of a presence document resolves. *)
Variable chats : gmap string Notifications.ChatData.
Variable generateChatSummary : string -> option Ai.GeminiResponse.
Variable generateDraftReplies : string -> string -> option Ai.GeminiResponse.
Variable moderateContent : string -> Ai.GeminiResponse.
Variable verifyIdToken : string -> option string.
Variable jsonParse : string -> option Value.
Variable trim : string -> string.
Variable setResolves : PresenceWrite -> bool.

Definition ensureChatParticipant (uid chatId : string) : Result Notifications.ChatData :=
  match chats !! chatId with
  | None => Err (Https {| code := "not-found"; message := "Chat not found." |})
  | Some chatData =>
      match Notifications.participants chatData with
      | Some participants =>
          if List.existsb (String.eqb uid) participants then Ok chatData
          else Err (Https {| code := "permission-denied";
                             message := "You are not a participant of this chat." |})
      | None =>
          Err (Https {| code := "permission-denied";
                        message := "You are not a participant of this chat." |})
      end
  end.

Definition aiSummarizeChat (now : Z) (request : CallableRequest)
    (buckets : gmap string Bucket) : Result SummaryResponse * gmap string Bucket :=
  match ensureAuthenticated request with
  | Err f => (Err f, buckets)
  | Ok uid =>
      match summarizeInput (data request) with
      | None => (Err ZodError, buckets)
      | Some chatId =>
          match ensureChatParticipant uid chatId with
          | Err f => (Err f, buckets)
          | Ok _ =>
              match assertRateLimit now ("aiSummarize:" +:+ uid)
                      {| windowMs := 60000; maxRequests := 3 |} buckets with
              | (Thrown e, buckets') => (Err (Https e), buckets')
              | (Returned, buckets') =>
                  match generateChatSummary chatId with
                  | None => (Err Rejection, buckets')
                  | Some result =>
                      (Ok {| res_summary :=
                               default Ai.DEFAULT_CHAT_SUMMARY_MESSAGE (Ai.summary result) |},
                       buckets')
                  end
              end
          end
      end
  end.

Definition aiDraftReply (now : Z) (request : CallableRequest)
    (buckets : gmap string Bucket) : Result DraftResponse * gmap string Bucket :=
  match ensureAuthenticated request with
  | Err f => (Err f, buckets)
  | Ok uid =>
      match draftInput (data request) with
      | None => (Err ZodError, buckets)
      | Some (chatId, messageContext) =>
          match ensureChatParticipant uid chatId with
          | Err f => (Err f, buckets)
          | Ok _ =>
              match assertRateLimit now ("aiDraft:" +:+ uid)
                      {| windowMs := 60000; maxRequests := 5 |} buckets with
              | (Thrown e, buckets') => (Err (Https e), buckets')
              | (Returned, buckets') =>
                  match generateDraftReplies chatId messageContext with
                  | None => (Err Rejection, buckets')
                  | Some result =>
                      (Ok {| res_suggestions :=
                               default ["Working on it!"; "I'll circle back soon.";
                                        "Let's continue this thread shortly."]
                                 (Ai.suggestions result) |},
                       buckets')
                  end
              end
          end
      end
  end.

Definition aiModerateMessage (now : Z) (request : CallableRequest)
    (buckets : gmap string Bucket) : Result ModerationResponse * gmap string Bucket :=
  match ensureAuthenticated request with
  | Err f => (Err f, buckets)
  | Ok uid =>
      match moderationInput (data request) with
      | None => (Err ZodError, buckets)
      | Some message =>
          match assertRateLimit now ("aiModerate:" +:+ uid)
                  {| windowMs := 30000; maxRequests := 10 |} buckets with
          | (Thrown e, buckets') => (Err (Https e), buckets')
          | (Returned, buckets') =>
              let result := moderateContent message in
              (Ok {| res_approved := default true (Ai.approved result);
                     res_reason := Ai.reason result |},
               buckets')
          end
      end
  end.

(** [authorizationHeader.replace("Bearer ", "")] of a header that starts
    with the prefix: the header without its first seven characters. *)
Definition withoutBearer (header : string) : string :=
  String.substring 7 (String.length header - 7) header.

Definition verifyBearerToken (authorizationHeader : option string) : Result string :=
  match authorizationHeader with
  | Some header =>
      if String.prefix "Bearer " header then
        match verifyIdToken (trim (withoutBearer header)) with
        | Some uid => Ok uid
        | None =>
            Err (Https {| code := "unauthenticated";
                          message := "Invalid authentication token." |})
        end
      else Err (Https {| code := "unauthenticated"; message := "Missing bearer token." |})
  | None => Err (Https {| code := "unauthenticated"; message := "Missing bearer token." |})
  end.

(** The body [presencePayload] parses: a string that is not empty goes
    through [JSON.parse], a missing body is the empty object. *)
Definition bodyOf (body : Value) : option Value :=
  match body with
  | VString s => if String.eqb s "" then Some body else jsonParse s
  | VNullish => Some (VObject [])
  | _ => Some body
  end.

(** The handler of [presencePing]: the response it sends ([None]: it throws
    without one), the table of windows and the write it attempted. *)
Definition presencePing (now : Z) (req : HttpRequest) (buckets : gmap string Bucket)
    : option HttpResponse * gmap string Bucket * option PresenceWrite :=
  if negb (String.eqb (method req) "POST") then
    (Some {| status := 405; sent := Text "Method Not Allowed" |}, buckets, None)
  else
    match verifyBearerToken (authorization req) with
    | Err (Https e) =>
        (Some {| status := 401; sent := Json false (Some (message e)) |}, buckets, None)
    | Err _ =>
        (Some {| status := 401; sent := Json false (Some "Authentication failed.") |},
         buckets, None)
    | Ok uid =>
        match assertRateLimit now ("presence:" +:+ uid)
                {| windowMs := 15000; maxRequests := 10 |} buckets with
        | (Thrown e, buckets') =>
            if String.eqb (code e) "resource-exhausted" then
              (Some {| status := 429; sent := Json false (Some (message e)) |},
               buckets', None)
            else (None, buckets', None)
        | (Returned, buckets') =>
            match
              match bodyOf (body req) with
              | Some parsed => presencePayload parsed
              | None => None
              end
            with
            | None =>
                (Some {| status := 400; sent := Json false (Some "Invalid payload.") |},
                 buckets', None)
            | Some payloadStatus =>
                let write := {| write_uid := uid;
                                write_isOnline := String.eqb payloadStatus "online" |} in
                if setResolves write then
                  (Some {| status := 200; sent := Json true None |}, buckets', Some write)
                else
                  (Some {| status := 500;
                           sent := Json false (Some "Unable to update presence.") |},
                   buckets', Some write)
            end
        end
    end.

End Endpoints.

(** *** Vocabulary of the properties *)

Definition isOk {A : Type} (r : Result A) : bool :=
  match r with Ok _ => true | Err _ => false end.

(** The caller is a participant of the chat. *)
Definition participates (chats : gmap string Notifications.ChatData)
    (uid chatId : string) : Prop :=
  exists chatData participants,
    chats !! chatId = Some chatData
    /\ Notifications.participants chatData = Some participants
    /\ In uid participants.

Definition summarizeRequest (uid chatId : string) : CallableRequest :=
  {| auth := Some uid; data := VObject [("chatId", FString chatId)] |}.

(** Calls of [aiSummarizeChat] with one request at the given clock readings. *)
Fixpoint summarizeAt (chats : gmap string Notifications.ChatData)
    (generateChatSummary : string -> option Ai.GeminiResponse)
    (clock : list Z) (request : CallableRequest) (buckets : gmap string Bucket)
    : list (Result SummaryResponse) * gmap string Bucket :=
  match clock with
  | [] => ([], buckets)
  | now :: clock' =>
      let '(r, buckets') := aiSummarizeChat chats generateChatSummary now request buckets in
      let '(rs, buckets'') :=
        summarizeAt chats generateChatSummary clock' request buckets' in
      (r :: rs, buckets'')
  end.

End Functions.


(** ** components/chats/chat-room.tsx *)

Module ChatRoom.
Import Messages.

Inductive Kind : Type := KImage | KVideo | KFile.

Record File : Type := {
  file_name : string;
  file_type : string;
  file_size : Z
}.

Record DraftAttachment : Type := {
  draft_id : string;
  file : File;
  previewUrl : string;
  kind : Kind;
  progress : Z
}.

Definition resolveKind (file : File) : Kind :=
  if String.prefix "image/" (file_type file) then KImage
  else if String.prefix "video/" (file_type file) then KVideo
  else KFile.

Definition isImage (k : Kind) : bool := match k with KImage => true | _ => false end.
Definition isVideo (k : Kind) : bool := match k with KVideo => true | _ => false end.

(** [createOptimisticMessage], with the reading of [new Date()] and the
    string [nanoid()] returns. *)
Definition createOptimisticMessage (now : Z) (nanoid : string)
    (chatId senderId text : string) (attachments : list DraftAttachment)
    : MessageRecord :=
  let mappedAttachments :=
    match attachments with
    | [] => None
    | _ :: _ =>
        Some (List.map
                (fun item =>
                   {| id := draft_id item;
                      storagePath := "";
                      downloadURL := previewUrl item;
                      contentType := file_type (file item);
                      size := file_size (file item);
                      name := file_name (file item);
                      width := None; height := None; duration := None |})
                attachments)
    end in
  let type :=
    match attachments with
    | [] => TText
    | _ :: _ =>
        if List.forallb (fun item => isImage (kind item)) attachments then TImage
        else if List.forallb (fun item => isVideo (kind item)) attachments then TVideo
        else TFile
    end in
  {| messageId := "optimistic-" +:+ nanoid;
     chatId := chatId;
     senderId := senderId;
     text := Some text;
     attachments := mappedAttachments;
     type := type;
     createdAt := ADate now;
     editedAt := None;
     deletedAt := None;
     reactions := Some [];
     readBy := Some [senderId];
     moderation := None |}.

(** [messageStatus]: [None] is null. *)
Definition messageStatus (message : MessageRecord) (currentUserId : string)
    (participants : list string) : option string :=
  if negb (String.eqb (senderId message) currentUserId) then None
  else if isOptimistic (messageId message) then Some "Sending…"
  else
    let others :=
      List.filter (fun participant => negb (String.eqb participant currentUserId))
        participants in
    match others with
    | [] => Some "Delivered"
    | _ :: _ =>
        let readBy := Js.setOfList (default [] (readBy message)) in
        let unread :=
          List.filter (fun member => negb (List.existsb (String.eqb member) readBy))
            others in
        match unread with
        | [] => Some "Read"
        | _ :: _ => Some "Delivered"
        end
    end.

(** [l.slice(-n)] *)
Definition sliceLast {A : Type} (n : nat) (l : list A) : list A :=
  List.skipn (List.length l - n) l.

(** The effect that marks messages read: the ids passed to
    [markMessagesRead], [None] when it is not called. *)
Definition markRead (user : option string) (messages : list MessageRecord)
    : option (list string) :=
  match user with
  | None => None
  | Some uid =>
      let unread :=
        List.map messageId
          (List.filter
             (fun message =>
                negb (String.eqb (senderId message) uid)
                && negb (isOptimistic (messageId message))
                && negb (List.existsb (String.eqb uid) (default [] (readBy message))))
             messages) in
      match unread with
      | [] => None
      | _ :: _ => Some (sliceLast 30 unread)
      end
  end.

(** The argument of [sendMessage]. *)
Record SendPayload : Type := {
  send_chatId : string;
  send_senderId : string;
  send_text : option string;
  send_attachments : option (list Attachment);
  send_type : MessageType;
  send_participants : option (list string)
}.

(** The answers of the services [handleSend] awaits; [None] is a promise
    that rejects.  [aiModerateMessage] answers with [approved] and [reason],
    [uploadAttachments] with the uploaded attachments, [sendMessage] with the
    id of the new document, [getDoc] with the data of the document when it
    exists. *)
Record Services : Type := {
  aiModerateMessage : string -> option (bool * option string);
  uploadAttachments : string -> list DraftAttachment -> option (list Attachment);
  sendMessage : SendPayload -> option string;
  getDoc : string -> option (option MessageRecord)
}.

(** What [handleSend] does, in order. *)
Inductive Effect : Type :=
| ToastInfo (text : string)
| ToastError (text : string)
| SetSending (value : bool)
| PrependOptimistic (message : MessageRecord)
| SettleOptimistic (optimisticId : string) (next : option MessageRecord)
    (mergeReadBy : bool)
| Moderate (text : string)
| Upload (attachments : list DraftAttachment)
| SendMessage (payload : SendPayload)
| GetDoc (docId : string)
| LogError
| RevokeObjectURLs (urls : list string).

Definition uploadedType (uploaded : list Attachment) : MessageType :=
  match uploaded with
  | [] => TText
  | _ :: _ =>
      if List.forallb (fun item => String.prefix "image/" (contentType item)) uploaded
      then TImage
      else if List.forallb (fun item => String.prefix "video/" (contentType item)) uploaded
      then TVideo
      else TFile
  end.

Section HandleSend.
(** The signed-in user, the chat of the room and its participants when the
    chat document is loaded, the services, [String.prototype.trim], and the
    readings of [new Date()] and [nanoid()] in the call. *)
Variable user : option string.
Variable chatId : string.
Variable participants : option (list string).
Variable services : Services.
Variable trim : string -> string.
Variable now : Z.
Variable nanoid : string.

(** The [catch] clause. *)
Definition sendFailed (optimistic : MessageRecord) : list Effect :=
  [LogError; SettleOptimistic (messageId optimistic) None false;
   ToastError "Failed to send message. Try again."].

(** The [try] block, after the moderation approved. *)
Definition sendApproved (uid trimmed : string) (optimistic : MessageRecord)
    (uploaded : list Attachment) : list Effect :=
  let payload :=
    {| send_chatId := chatId;
       send_senderId := uid;
       send_text := if String.eqb trimmed "" then None else Some trimmed;
       send_attachments := match uploaded with [] => None | _ :: _ => Some uploaded end;
       send_type := uploadedType uploaded;
       send_participants := participants |} in
  SendMessage payload ::
  match sendMessage services payload with
  | None => sendFailed optimistic
  | Some docId =>
      GetDoc docId ::
      match getDoc services docId with
      | None => sendFailed optimistic
      | Some None =>
          [SettleOptimistic (messageId optimistic) None false; SetSending false]
      | Some (Some data) =>
          [SettleOptimistic (messageId optimistic) (Some (withMessageId data docId)) true]
      end
  end.

Definition handleSend (text : string) (attachments : list DraftAttachment)
    : list Effect :=
  match user with
  | None => []
  | Some uid =>
      let trimmed := trim text in
      if String.eqb trimmed "" && Nat.eqb (List.length attachments) 0 then
        [ToastInfo "Add a message or attachment before sending."]
      else
        let optimistic :=
          createOptimisticMessage now nanoid chatId uid trimmed attachments in
        ([SetSending true; PrependOptimistic optimistic; Moderate trimmed]
         ++ match aiModerateMessage services trimmed with
            | None => sendFailed optimistic
            | Some (approved, reason) =>
                if negb approved then
                  [SettleOptimistic (messageId optimistic) None false;
                   ToastError ("Message blocked: " +:+ default "violates policy" reason);
                   SetSending false]
                else
                  match attachments with
                  | [] => sendApproved uid trimmed optimistic []
                  | _ :: _ =>
                      Upload attachments ::
                      match uploadAttachments services chatId attachments with
                      | None => sendFailed optimistic
                      | Some uploaded =>
                          sendApproved uid trimmed optimistic uploaded
                      end
                  end
            end
         ++ [RevokeObjectURLs (List.map previewUrl attachments); SetSending false])%list
  end.

End HandleSend.

(** *** Vocabulary of the properties *)

(** The calls of the hook among the effects, applied to its state. *)
Fixpoint applyEffects (effects : list Effect) (st : State) : State :=
  match effects with
  | [] => st
  | PrependOptimistic message :: rest => applyEffects rest (prependOptimistic message st)
  | SettleOptimistic optimisticId next mergeReadBy :: rest =>
      applyEffects rest (settleOptimistic optimisticId next mergeReadBy st)
  | _ :: rest => applyEffects rest st
  end.

Definition prepends (effects : list Effect) : list MessageRecord :=
  List.flat_map (fun e => match e with PrependOptimistic m => [m] | _ => [] end) effects.

Definition settles (effects : list Effect) : list (string * option MessageRecord * bool) :=
  List.flat_map
    (fun e => match e with
              | SettleOptimistic i next mergeReadBy => [(i, next, mergeReadBy)]
              | _ => []
              end) effects.

Definition sends (effects : list Effect) : list SendPayload :=
  List.flat_map (fun e => match e with SendMessage p => [p] | _ => [] end) effects.

Definition uploads (effects : list Effect) : list (list DraftAttachment) :=
  List.flat_map (fun e => match e with Upload a => [a] | _ => [] end) effects.

(** Every other participant has read the message. *)
Definition readByAll (message : MessageRecord) (currentUserId : string)
    (participants : list string) : Prop :=
  forall member, In member participants -> member <> currentUserId ->
                 In member (default [] (readBy message)).

(** The message is one the user has yet to read. *)
Definition unreadFor (uid : string) (message : MessageRecord) : Prop :=
  senderId message <> uid
  /\ isOptimistic (messageId message) = false
  /\ ~ In uid (default [] (readBy message)).

(** The test of the effect that marks messages read. *)
Definition isUnread (uid : string) (message : MessageRecord) : bool :=
  negb (String.eqb (senderId message) uid)
  && negb (isOptimistic (messageId message))
  && negb (List.existsb (String.eqb uid) (default [] (readBy message))).

(** The client's moderation call when it passes the text as [message] to
    the callable [aiModerateMessage] and hands back its answer: a call the
    endpoint fails rejects. *)
Definition moderatedBy
    (endpoint : Functions.CallableRequest ->
                Functions.Result Functions.ModerationResponse)
    (uid : string) (text : string) : option (bool * option string) :=
  match endpoint {| Functions.auth := Some uid;
                    Functions.data :=
                      Functions.VObject [("message", Functions.FString text)] |} with
  | Functions.Ok response =>
      Some (Functions.res_approved response, Functions.res_reason response)
  | Functions.Err _ => None
  end.

(** Services for the examples: everything goes through; the moderation
    turns the message down. *)
Definition delivered (data : MessageRecord) : Services :=
  {| aiModerateMessage := fun _ => Some (true, None);
     uploadAttachments := fun _ _ => Some [];
     sendMessage := fun _ => Some "msg-1";
     getDoc := fun _ => Some (Some data) |}.

Definition blocking : Services :=
  {| aiModerateMessage := fun _ => Some (false, Some "policy");
     uploadAttachments := fun _ _ => None;
     sendMessage := fun _ => None;
     getDoc := fun _ => None |}.

End ChatRoom.


(** ** hooks/use-chats.ts *)

Module Chats.
Import Timestamps.

Record User : Type := {
  uid : option string;
  email : option string;
  displayName : option string;
  photoURL : option string
}.

(** A chat document with its id; the three time fields are [z.any()]. *)
Record Chat : Type := {
  chatId : string;
  type : option string;
  participants : list string;
  name : option string;
  avatarUrl : option string;
  lastMessage : option string;
  lastMessageAt : JsValue;
  updatedAt : JsValue;
  createdAt : JsValue
}.

(** [a ?? b] *)
Definition coalesce (a b : JsValue) : JsValue :=
  match a with
  | JUndefined | JNull => b
  | _ => a
  end.

(** [b - a] for two time values: NaN when one of them is, else a Number of
    the sign of the difference, which is what the sort reads (the Number is
    the difference itself up to 2^53). *)
Definition sub (a b : TimeValue) : TimeValue :=
  match a, b with Num x, Num y => Num (x - y) | _, _ => NaN end.

Section Runtime.
Variable StringToNumber : string -> Binary64.Number.
Variable ObjectToNumber : JsValue -> Completion Binary64.Number.
Variable Timestamp_toDate : Z -> Z -> Date.

(** [toDate(a.lastMessageAt ?? a.updatedAt ?? a.createdAt)?.getTime() ?? 0] *)
Definition activityTime (chat : Chat) : Completion TimeValue :=
  let* date := toDate StringToNumber ObjectToNumber Timestamp_toDate
                 (coalesce (coalesce (lastMessageAt chat) (updatedAt chat))
                    (createdAt chat)) in
  Normal (match date with Some d => getTime d | None => Num 0 end).

(** The comparator: [bDate - aDate]. *)
Definition compareChats (a b : Chat) : Completion TimeValue :=
  let* aDate := activityTime a in
  let* bDate := activityTime b in
  Normal (sub bDate aDate).

(** What the sort reads from the comparator: [NaN] counts as +0. *)
Definition comparison (a b : Chat) : Z :=
  match compareChats a b with
  | Normal (Num v) => v
  | _ => 0
  end.

Definition completes {A : Type} (c : Completion A) : bool :=
  match c with Normal _ => true | TypeError => false end.

(** [chats.sort(comparator)]: with two chats or more every chat is compared,
    and a comparator that throws ends the sort. *)
Definition sortChats (chats : list Chat) : Completion (list Chat) :=
  match chats with
  | [] | [_] => Normal chats
  | _ :: _ :: _ =>
      if List.forallb (fun chat => completes (activityTime chat)) chats
      then Normal (Js.sort comparison chats)
      else TypeError
  end.
End Runtime.

(** [getDoc(doc(db, "users", id))]: [exists()] is false for [None]. *)
Record UserSnapshot : Type := {
  snap_id : string;
  snap_data : option User
}.

(** [userDirectoryRef.current[participantId]] read as a boolean.  The
    directory is a plain object: the read finds the entry the directory
    owns, or else, for a name of [Object.prototype], the inherited member,
    which is truthy. *)
Definition known (directory : gmap string User) (participantId : string) : bool :=
  match directory !! participantId with
  | Some _ => true
  | None => Js.inherits participantId
  end.

(** The participants the callback looks up: the [missing] set, in insertion
    order. *)
Definition missingOf (userId : string) (directory : gmap string User)
    (chats : list Chat) : list string :=
  List.fold_left
    (fun missing chat =>
       List.fold_left
         (fun missing participantId =>
            if String.eqb participantId userId then missing
            else if known directory participantId then missing
            else Js.setAdd participantId missing)
         (participants chat) missing)
    chats [].

(** The updater passed to [setUserDirectory], on [next = { ...prev }].  The
    assignment [next[key] = ...] makes an entry, except under the key
    [__proto__], where it replaces the prototype of [next]: [None] is that
    outcome, after which the object is no directory of own entries. *)
Fixpoint mergeDirectory (snapshots : list UserSnapshot) (next : gmap string User)
    : option (gmap string User) :=
  match snapshots with
  | [] => Some next
  | userSnapshot :: rest =>
      match snap_data userSnapshot with
      | None => mergeDirectory rest next
      | Some payload =>
          let key := default (snap_id userSnapshot) (uid payload) in
          if String.eqb key "__proto__" then None
          else mergeDirectory rest
                 (<[key := {| uid := Some key; email := email payload;
                              displayName := displayName payload;
                              photoURL := photoURL payload |}]> next)
      end
  end.

(** The directory after the callback ran on the chats of a snapshot, when
    the reads resolve. *)
Definition refresh (userId : string) (getDoc : string -> UserSnapshot)
    (chats : list Chat) (directory : gmap string User)
    : option (gmap string User) :=
  match missingOf userId directory chats with
  | [] => Some directory
  | missing => mergeDirectory (List.map getDoc missing) directory
  end.

(** *** Vocabulary of the properties *)

(** The activity time of a chat, where it is a number. *)
Definition timeOf (StringToNumber : string -> Binary64.Number)
    (ObjectToNumber : JsValue -> Completion Binary64.Number) (Timestamp_toDate : Z -> Z -> Date)
    (chat : Chat) : Z :=
  match activityTime StringToNumber ObjectToNumber Timestamp_toDate chat with
  | Normal (Num t) => t
  | _ => 0
  end.

Definition timed (StringToNumber : string -> Binary64.Number)
    (ObjectToNumber : JsValue -> Completion Binary64.Number) (Timestamp_toDate : Z -> Z -> Date)
    (chat : Chat) : Prop :=
  exists t, activityTime StringToNumber ObjectToNumber Timestamp_toDate chat
            = Normal (Num t).

(** Somebody else who takes part in one of the chats. *)
Definition counterpartIn (userId : string) (chats : list Chat) (p : string) : Prop :=
  p <> userId /\ exists chat, In chat chats /\ In p (participants chat).

(** The user documents are stored under their own uid. *)
Definition wellStored (getDoc : string -> UserSnapshot) (ids : list string) : Prop :=
  forall i, In i ids ->
    snap_id (getDoc i) = i
    /\ exists payload, snap_data (getDoc i) = Some payload
                       /\ (uid payload = None \/ uid payload = Some i).

Definition chatAt (i : string) (t : JsValue) (ps : list string) : Chat :=
  {| chatId := i; type := Some "dm"; participants := ps; name := None;
     avatarUrl := None; lastMessage := None; lastMessageAt := t;
     updatedAt := JUndefined; createdAt := JUndefined |}.

Definition storedUser (i : string) : UserSnapshot :=
  {| snap_id := i;
     snap_data := Some {| uid := Some i; email := None; displayName := None;
                          photoURL := None |} |}.

End Chats.


(** ** functions/src/index.ts: syncAuthUsersToFirestore *)

Module SyncUsers.
Import RateLimiter Functions.

(** A user of Firebase Auth, as [listUsers] returns it. *)
Record UserRecord : Type := {
  rec_uid : string;
  rec_email : option string;
  rec_displayName : option string;
  rec_photoURL : option string
}.

(** A time field of a document: a stored time, or the server time stamp the
    function writes. *)
Inductive Time : Type :=
| At (t : Z)
| ServerTimestamp.

(** A document of the [users] collection: the fields the function writes,
    and the others. *)
Record UserDoc : Type := {
  doc_uid : option string;
  doc_email : option string;
  doc_displayName : option string;
  doc_photoURL : option string;
  doc_updatedAt : option Time;
  doc_createdAt : option Time;
  doc_others : list (string * string)
}.

(** [batch.set(userDocRef, userData, { merge: true })]: the document id and
    the data; [createdAt] is part of the data of a new document only. *)
Record Write : Type := {
  w_uid : string;
  w_email : string;
  w_displayName : string;
  w_photoURL : option string;
  w_created : bool
}.

(** A string that is present and not empty. *)
Definition truthy (s : option string) : bool :=
  match s with
  | Some s => negb (String.eqb s "")
  | None => false
  end.

(** [email.split("@")[0]] *)
Fixpoint localPart (email : string) : string :=
  match email with
  | EmptyString => EmptyString
  | String c email' =>
      if Ascii.eqb c "@" then EmptyString else String c (localPart email')
  end.

(** [!userDoc.exists || !userDoc.data()?.email] *)
Definition needsSync (users : gmap string UserDoc) (userRecord : UserRecord) : bool :=
  match users !! rec_uid userRecord with
  | None => true
  | Some data => negb (truthy (doc_email data))
  end.

Definition writeFor (users : gmap string UserDoc) (userRecord : UserRecord) : Write :=
  {| w_uid := rec_uid userRecord;
     w_email := if truthy (rec_email userRecord)
                then default "" (rec_email userRecord) else "";
     w_displayName :=
       if truthy (rec_displayName userRecord)
       then default "" (rec_displayName userRecord)
       else if truthy (rec_email userRecord)
            then localPart (default "" (rec_email userRecord))
            else rec_uid userRecord;
     w_photoURL := if truthy (rec_photoURL userRecord)
                   then rec_photoURL userRecord else None;
     w_created := match users !! rec_uid userRecord with
                  | None => true
                  | Some _ => false
                  end |}.

(** A write with [merge: true], as the commit of its batch applies it. *)
Definition applyWrite (users : gmap string UserDoc) (w : Write) : gmap string UserDoc :=
  let stored := users !! w_uid w in
  <[w_uid w :=
      {| doc_uid := Some (w_uid w);
         doc_email := Some (w_email w);
         doc_displayName := Some (w_displayName w);
         doc_photoURL := w_photoURL w;
         doc_updatedAt := Some ServerTimestamp;
         doc_createdAt :=
           if w_created w then Some ServerTimestamp
           else match stored with Some d => doc_createdAt d | None => None end;
         doc_others := match stored with Some d => doc_others d | None => [] end |}]>
    users.

(** The variables of the loop, the batches committed so far, and whether an
    awaited commit has rejected. *)
Record Loop : Type := {
  users : gmap string UserDoc;
  batch : list Write;
  totalSynced : Z;
  committed : list (list Write);
  failed : bool
}.

Definition BATCH_SIZE : nat := 500.

Section Sync.
(** Whether the commit of a batch resolves. *)
Variable commitResolves : list Write -> bool.

(** [await batch.commit(); totalSynced += batchCount; batch = db.batch();
    batchCount = 0] *)
Definition commit (st : Loop) : Loop :=
  if commitResolves (batch st) then
    {| users := List.fold_left applyWrite (batch st) (users st);
       batch := [];
       totalSynced := totalSynced st + Z.of_nat (List.length (batch st));
       committed := (committed st ++ [batch st])%list;
       failed := false |}
  else
    {| users := users st; batch := batch st; totalSynced := totalSynced st;
       committed := committed st; failed := true |}.

(** The body of the loop over the users of a page. *)
Definition visit (st : Loop) (userRecord : UserRecord) : Loop :=
  if failed st then st
  else if needsSync (users st) userRecord then
    let st' :=
      {| users := users st;
         batch := (batch st ++ [writeFor (users st) userRecord])%list;
         totalSynced := totalSynced st; committed := committed st;
         failed := false |} in
    if (BATCH_SIZE <=? List.length (batch st'))%nat then commit st' else st'
  else st.

(** One turn of the [do ... while]: a new batch, the users of the page, and
    the commit of what remains. *)
Definition page (st : Loop) (listed : list UserRecord) : Loop :=
  if failed st then st
  else
    let st' :=
      List.fold_left visit listed
        {| users := users st; batch := []; totalSynced := totalSynced st;
           committed := committed st; failed := false |} in
    if failed st' then st'
    else if (0 <? List.length (batch st'))%nat then commit st' else st'.

Record SyncResponse : Type := { success : bool; synced : Z }.

(** The handler, on the pages [listUsers] returns in turn (no page at all
    stands for the one empty page of an empty listing), the table of windows
    and the [users] collection: its result, the table, the collection and
    the batches committed. *)
Definition syncAuthUsersToFirestore (now : Z) (request : CallableRequest)
    (pages : list (list UserRecord)) (buckets : gmap string Bucket)
    (stored : gmap string UserDoc)
    : Result SyncResponse * gmap string Bucket * gmap string UserDoc * list (list Write) :=
  match ensureAuthenticated request with
  | Err f => (Err f, buckets, stored, [])
  | Ok uid =>
      match assertRateLimit now ("syncUsers:" +:+ uid)
              {| windowMs := 60000; maxRequests := 1 |} buckets with
      | (Thrown e, buckets') => (Err (Https e), buckets', stored, [])
      | (Returned, buckets') =>
          let st :=
            List.fold_left page pages
              {| users := stored; batch := []; totalSynced := 0; committed := [];
                 failed := false |} in
          if failed st then
            (Err (Https {| code := "internal";
                           message := "Failed to sync users. Please try again." |}),
             buckets', users st, committed st)
          else
            (Ok {| success := true; synced := totalSynced st |},
             buckets', users st, committed st)
      end
  end.
End Sync.

(** *** Vocabulary of the properties *)

Definition listedUsers (pages : list (list UserRecord)) : list UserRecord :=
  List.concat pages.

(** The writes of the users that need one, by the collection as it is when
    the call starts. *)
Definition writesFor (stored : gmap string UserDoc) (listed : list UserRecord)
    : list Write :=
  List.map (writeFor stored) (List.filter (needsSync stored) listed).

(** The invariant of the loop on the batches: the committed ones hold
    between one and [BATCH_SIZE] writes, the open one is not full, the counter
    counts the committed writes, and the collection holds them. *)
Definition sized (stored : gmap string UserDoc) (st : Loop) : Prop :=
  List.Forall (fun c => (1 <= List.length c <= BATCH_SIZE)%nat) (committed st)
  /\ (List.length (batch st) <= BATCH_SIZE)%nat
  /\ (failed st = false -> (List.length (batch st) < BATCH_SIZE)%nat)
  /\ totalSynced st = Z.of_nat (List.length (List.concat (committed st)))
  /\ users st = List.fold_left applyWrite (List.concat (committed st)) stored.

(** The invariant of the loop on the writes: after the users [seen], the
    committed and the pending writes are those of the users that needed one
    when the call started, and only their documents have changed. *)
Definition written (stored : gmap string UserDoc) (seen : list UserRecord)
    (st : Loop) : Prop :=
  failed st = false
  /\ (List.concat (committed st) ++ batch st)%list = writesFor stored seen.

Definition always (batch : list Write) : bool := true.

Definition alice : UserRecord :=
  {| rec_uid := "u1"; rec_email := Some "alice@example.com";
     rec_displayName := None; rec_photoURL := None |}.

Definition bob : UserRecord :=
  {| rec_uid := "u2"; rec_email := None; rec_displayName := Some "Bob";
     rec_photoURL := None |}.

Definition syncRequest : CallableRequest := {| auth := Some "admin"; data := VNullish |}.

End SyncUsers.


(** * Properties *)

(** ** The stable sort *)

Module SortFacts.

Section Keyed.
Context {A : Type}.
Variable key : A -> Z.

Let cmp (a b : A) : Z := key a - key b.
Let le (a b : A) : Prop := key a <= key b.
Let tie (t : Z) (l : list A) : list A := List.filter (fun a => key a =? t) l.

Lemma insert_perm (x : A) (l : list A) :
  Permutation (Js.insert cmp x l) (x :: l).
Proof.
  induction l as [|y l IH]; simpl.
  - apply Permutation_refl.
  - destruct (cmp x y <=? 0).
    + apply Permutation_refl.
    + apply Permutation_trans with (y :: x :: l).
      * apply perm_skip, IH.
      * apply perm_swap.
Qed.

Lemma sort_perm (l : list A) : Permutation (Js.sort cmp l) l.
Proof.
  induction l as [|x l IH]; simpl.
  - apply perm_nil.
  - apply Permutation_trans with (x :: Js.sort cmp l).
    + apply insert_perm.
    + apply perm_skip, IH.
Qed.

Lemma insert_sorted (x : A) (l : list A) :
  StronglySorted le l -> StronglySorted le (Js.insert cmp x l).
Proof.
  induction 1 as [|y l Hs IH Hall]; simpl.
  - constructor; [constructor | constructor].
  - destruct (Z.leb_spec (cmp x y) 0) as [Hle | Hgt].
    + constructor.
      * constructor; assumption.
      * constructor.
        -- unfold le, cmp in *. lia.
        -- eapply List.Forall_impl; [|exact Hall].
           intros z Hz. unfold le, cmp in *. lia.
    + constructor; [exact IH|].
      eapply Permutation_Forall.
      * apply Permutation_sym, insert_perm.
      * constructor; [unfold le, cmp in *; lia | exact Hall].
Qed.

Lemma sort_sorted (l : list A) : StronglySorted le (Js.sort cmp l).
Proof.
  induction l as [|x l IH]; simpl.
  - constructor.
  - apply insert_sorted, IH.
Qed.

(** Stability: the entries of one key stand as they stood. *)
Lemma insert_tie (t : Z) (x : A) (l : list A) :
  tie t (Js.insert cmp x l) = tie t (x :: l).
Proof.
  induction l as [|y l IH]; simpl.
  - reflexivity.
  - destruct (Z.leb_spec (cmp x y) 0) as [Hle | Hgt].
    + reflexivity.
    + unfold tie in *. simpl in *. rewrite IH.
      destruct (Z.eqb_spec (key x) t) as [Hx | Hx];
        destruct (Z.eqb_spec (key y) t) as [Hy | Hy]; try reflexivity.
      unfold cmp in Hgt. lia.
Qed.

Lemma sort_tie (t : Z) (l : list A) : tie t (Js.sort cmp l) = tie t l.
Proof.
  induction l as [|x l IH]; simpl.
  - reflexivity.
  - rewrite insert_tie. unfold tie in *. simpl. rewrite IH. reflexivity.
Qed.

Lemma insert_head (x : A) (l : list A) :
  Forall (le x) l -> Js.insert cmp x l = x :: l.
Proof.
  destruct l as [|y l]; simpl; [reflexivity|].
  intros H. inversion H as [|? ? Hxy _]; subst.
  destruct (Z.leb_spec (cmp x y) 0) as [Hle | Hgt]; [reflexivity|].
  unfold le, cmp in *. lia.
Qed.

(** Sorting a sorted sequence changes nothing. *)
Lemma sort_sorted_id (l : list A) : StronglySorted le l -> Js.sort cmp l = l.
Proof.
  induction 1 as [|x l Hs IH Hall]; simpl.
  - reflexivity.
  - rewrite IH. apply insert_head, Hall.
Qed.


End Keyed.

End SortFacts.

(** ** Insertion-ordered tables *)

Module TableFacts.

Section Table.
Context {V : Type}.
Implicit Types (k : string) (v : V) (m : list (string * V)).

Lemma get_set_eq k v m : Js.get k (Js.set k v m) = Some v.
Proof.
  induction m as [|[k' v'] m IH]; simpl.
  - rewrite String.eqb_refl. reflexivity.
  - destruct (String.eqb_spec k' k) as [-> | Hne]; simpl.
    + rewrite String.eqb_refl. reflexivity.
    + destruct (String.eqb_spec k' k); [contradiction | exact IH].
Qed.

Lemma get_set_ne k k0 v m : k <> k0 -> Js.get k0 (Js.set k v m) = Js.get k0 m.
Proof.
  intros Hne. induction m as [|[k' v'] m IH]; simpl.
  - destruct (String.eqb_spec k k0); [contradiction | reflexivity].
  - destruct (String.eqb_spec k' k) as [-> | Hk]; simpl.
    + destruct (String.eqb_spec k k0); [contradiction | reflexivity].
    + destruct (String.eqb_spec k' k0); [reflexivity | exact IH].
Qed.

Lemma get_set k k0 v m :
  Js.get k0 (Js.set k v m) = if String.eqb k k0 then Some v else Js.get k0 m.
Proof.
  destruct (String.eqb_spec k k0) as [<- | Hne].
  - apply get_set_eq.
  - apply get_set_ne, Hne.
Qed.

Lemma in_set k v k0 v0 m :
  In (k0, v0) (Js.set k v m) -> (k0 = k /\ v0 = v) \/ In (k0, v0) m.
Proof.
  induction m as [|[k' v'] m IH]; simpl.
  - intros [H | []]. inversion H; subst. left; split; reflexivity.
  - destruct (String.eqb_spec k' k) as [-> | Hk]; simpl.
    + intros [H | H].
      * inversion H; subst. left; split; reflexivity.
      * right; right; exact H.
    + intros [H | H].
      * right; left; exact H.
      * destruct (IH H) as [Heq | Hin]; [left; exact Heq | right; right; exact Hin].
Qed.

Lemma keys_set k v k0 m :
  In k0 (Js.keys (Js.set k v m)) <-> k0 = k \/ In k0 (Js.keys m).
Proof.
  induction m as [|[k' v'] m IH]; simpl.
  - intuition auto.
  - destruct (String.eqb_spec k' k) as [-> | Hk]; simpl.
    + intuition auto.
    + rewrite IH. intuition auto.
Qed.

Lemma set_NoDup k v m : List.NoDup (Js.keys m) -> List.NoDup (Js.keys (Js.set k v m)).
Proof.
  induction m as [|[k' v'] m IH]; simpl; intros H.
  - constructor; [intros [] | constructor].
  - inversion H as [|? ? Hnotin Hnd]; subst.
    destruct (String.eqb_spec k' k) as [-> | Hk]; simpl.
    + constructor; assumption.
    + constructor; [|apply IH, Hnd].
      rewrite keys_set. intros [Heq | Hin]; [congruence | contradiction].
Qed.

Lemma get_Some_in k v m : Js.get k m = Some v -> In (k, v) m.
Proof.
  induction m as [|[k' v'] m IH]; simpl; [discriminate|].
  destruct (String.eqb_spec k' k) as [-> | Hk].
  - intros H; inversion H; subst. left; reflexivity.
  - intros H. right. apply IH, H.
Qed.

Lemma in_get_Some k v m : List.NoDup (Js.keys m) -> In (k, v) m -> Js.get k m = Some v.
Proof.
  induction m as [|[k' v'] m IH]; simpl; [intros _ []|].
  intros Hnd [Heq | Hin].
  - inversion Heq; subst. rewrite String.eqb_refl. reflexivity.
  - inversion Hnd as [|? ? Hnotin Hnd']; subst.
    destruct (String.eqb_spec k' k) as [-> | Hk].
    + exfalso. apply Hnotin. unfold Js.keys. apply (List.in_map fst _ _ Hin).
    + apply IH; assumption.
Qed.

Lemma get_None_keys k m : Js.get k m = None <-> ~ In k (Js.keys m).
Proof.
  induction m as [|[k' v'] m IH]; simpl.
  - tauto.
  - destruct (String.eqb_spec k' k) as [-> | Hk].
    + split; [discriminate | intros H; exfalso; apply H; left; reflexivity].
    + rewrite IH. tauto.
Qed.

Lemma get_delete_ne k k0 m : k <> k0 -> Js.get k0 (Js.delete k m) = Js.get k0 m.
Proof.
  intros Hne. induction m as [|[k' v'] m IH]; simpl; [reflexivity|].
  destruct (String.eqb_spec k' k) as [-> | Hk]; simpl.
  - destruct (String.eqb_spec k k0); [contradiction | exact IH].
  - destruct (String.eqb_spec k' k0); [reflexivity | exact IH].
Qed.

Lemma get_delete_eq k m : Js.get k (Js.delete k m) = None.
Proof.
  induction m as [|[k' v'] m IH]; simpl; [reflexivity|].
  destruct (String.eqb_spec k' k) as [-> | Hk]; simpl; [exact IH|].
  destruct (String.eqb_spec k' k); [contradiction | exact IH].
Qed.
End Table.

Lemma setAdd_in (x y : string) (s : list string) :
  In y (Js.setAdd x s) <-> y = x \/ In y s.
Proof.
  induction s as [|z s IH]; simpl.
  - intuition auto.
  - destruct (String.eqb_spec z x) as [-> | Hne]; simpl.
    + intuition auto.
    + rewrite IH. intuition auto.
Qed.

Lemma setAdd_NoDup (x : string) (s : list string) :
  List.NoDup s -> List.NoDup (Js.setAdd x s).
Proof.
  induction s as [|z s IH]; simpl; intros H.
  - constructor; [intros [] | constructor].
  - inversion H as [|? ? Hnotin Hnd]; subst.
    destruct (String.eqb_spec z x) as [-> | Hne].
    + exact H.
    + constructor; [|apply IH, Hnd].
      rewrite setAdd_in. intros [Heq | Hin]; [congruence | contradiction].
Qed.

Lemma addAll_in (ts : list string) (s : list string) (y : string) :
  In y (List.fold_left (fun s t => Js.setAdd t s) ts s) <-> In y s \/ In y ts.
Proof.
  revert s. induction ts as [|t ts IH]; simpl; intros s.
  - tauto.
  - rewrite IH, setAdd_in. intuition (subst; auto).
Qed.

Lemma addAll_NoDup (ts : list string) (s : list string) :
  List.NoDup s -> List.NoDup (List.fold_left (fun s t => Js.setAdd t s) ts s).
Proof.
  revert s. induction ts as [|t ts IH]; simpl; intros s H.
  - exact H.
  - apply IH, setAdd_NoDup, H.
Qed.

End TableFacts.

(** ** The merge engine *)

Module MessageFacts.
Import Messages.

Lemma normalize_perm (l : list MessageRecord) : Permutation (normalizeMessages l) l.
Proof. apply (SortFacts.sort_perm instant). Qed.

Lemma normalize_ascending (l : list MessageRecord) : ascending (normalizeMessages l).
Proof. apply (SortFacts.sort_sorted instant). Qed.


Lemma normalize_in (m : MessageRecord) (l : list MessageRecord) :
  In m (normalizeMessages l) <-> In m l.
Proof.
  split; apply Permutation_in; [|apply Permutation_sym]; apply normalize_perm.
Qed.

(** *** Counting ids *)

Lemma countId_app (i : string) (l l' : list MessageRecord) :
  countId i (l ++ l') = (countId i l + countId i l')%nat.
Proof. unfold countId. rewrite List.filter_app, List.length_app. reflexivity. Qed.

Lemma countId_perm (i : string) (l l' : list MessageRecord) :
  Permutation l l' -> countId i l = countId i l'.
Proof.
  intros H. unfold countId. induction H; simpl.
  - reflexivity.
  - destruct (String.eqb (messageId x) i); simpl; congruence.
  - destruct (String.eqb (messageId x) i), (String.eqb (messageId y) i); reflexivity.
  - congruence.
Qed.

Lemma countId_normalize (i : string) (l : list MessageRecord) :
  countId i (normalizeMessages l) = countId i l.
Proof. apply countId_perm, normalize_perm. Qed.

Lemma countId_ids (i : string) (l l' : list MessageRecord) :
  ids l = ids l' -> countId i l = countId i l'.
Proof.
  revert l'. induction l as [|x l IH]; intros [|y l']; simpl; try discriminate.
  - reflexivity.
  - intros H. injection H as Hxy Hl. unfold countId in *. simpl.
    rewrite Hxy. specialize (IH l' Hl).
    destruct (String.eqb (messageId y) i); simpl; congruence.
Qed.

Lemma countId_without (i : string) (l : list MessageRecord) :
  countId i (List.filter (fun message => negb (String.eqb (messageId message) i)) l) = 0%nat.
Proof.
  unfold countId. induction l as [|x l IH]; simpl; [reflexivity|].
  destruct (String.eqb (messageId x) i) eqn:E; simpl; [exact IH|].
  rewrite E. exact IH.
Qed.

Lemma countId_without_other (i j : string) (l : list MessageRecord) :
  i <> j ->
  countId i (List.filter (fun message => negb (String.eqb (messageId message) j)) l)
  = countId i l.
Proof.
  intros Hne. unfold countId. induction l as [|x l IH]; simpl; [reflexivity|].
  destruct (String.eqb_spec (messageId x) j) as [Hj | Hj]; simpl.
  - destruct (String.eqb_spec (messageId x) i) as [Hi | Hi]; [congruence | exact IH].
  - destruct (String.eqb (messageId x) i); simpl; congruence.
Qed.

Lemma filter_all {A : Type} (p : A -> bool) (l : list A) :
  (forall x, In x l -> p x = true) -> List.filter p l = l.
Proof.
  induction l as [|x l IH]; simpl; intros H; [reflexivity|].
  rewrite (H x (or_introl eq_refl)). f_equal. apply IH.
  intros y Hy. apply H. right; exact Hy.
Qed.

(** *** [findIndex] and indexed assignment *)

Lemma findIndex_Some {A : Type} (p : A -> bool) (l : list A) (i : nat) :
  findIndex p l = Some i -> exists x, List.nth_error l i = Some x /\ p x = true.
Proof.
  revert i. induction l as [|x l IH]; simpl; intros i; [discriminate|].
  destruct (p x) eqn:E.
  - intros H; inversion H; subst. exists x. split; [reflexivity | exact E].
  - destruct (findIndex p l) as [j|]; simpl; [|discriminate].
    intros H; inversion H; subst. apply (IH j eq_refl).
Qed.

Lemma findIndex_None {A : Type} (p : A -> bool) (l : list A) :
  findIndex p l = None -> List.filter p l = [].
Proof.
  induction l as [|x l IH]; simpl; [reflexivity|].
  destruct (p x); [discriminate|].
  destruct (findIndex p l); simpl; [discriminate|]. intros _. apply IH. reflexivity.
Qed.

Lemma ids_assign (l : list MessageRecord) (i : nat) (x y : MessageRecord) :
  List.nth_error l i = Some x -> messageId y = messageId x ->
  ids (assign i y l) = ids l.
Proof.
  revert i. induction l as [|z l IH]; intros [|i]; simpl; try discriminate.
  - intros H Hy. inversion H; subst. rewrite Hy. reflexivity.
  - intros H Hy. f_equal. apply (IH i H Hy).
Qed.

Lemma nth_error_count (l : list MessageRecord) (i : nat) (x : MessageRecord) :
  List.nth_error l i = Some x -> (0 < countId (messageId x) l)%nat.
Proof.
  revert i. induction l as [|z l IH]; intros [|i]; simpl; try discriminate.
  - intros H; inversion H; subst. unfold countId. simpl.
    rewrite String.eqb_refl. simpl. lia.
  - intros H. specialize (IH i H). unfold countId in *. simpl.
    destruct (String.eqb (messageId z) (messageId x)); simpl; lia.
Qed.

(** *** Settling an optimistic entry *)

Lemma settle_keeps_all (final : MessageRecord) (l : list MessageRecord) :
  isOptimistic (messageId final) = false ->
  List.filter
    (fun message =>
       negb (String.eqb (messageId message) (messageId final)
             && isOptimistic (messageId message))) l = l.
Proof.
  intros Hf. apply filter_all. intros x _.
  destruct (String.eqb_spec (messageId x) (messageId final)) as [-> | Hne]; simpl.
  - rewrite Hf. reflexivity.
  - reflexivity.
Qed.

Lemma settle_count (optimisticId : string) (final : MessageRecord)
    (mergeReadBy : bool) (prev : list MessageRecord) :
  isOptimistic (messageId final) = false ->
  messageId final <> optimisticId ->
  let c := countId (messageId final) prev in
  let out := settleMessages optimisticId (Some final) mergeReadBy prev in
  countId optimisticId out = 0%nat /\
  countId (messageId final) out = (if mergeReadBy && (0 <? c)%nat then c else S c).
Proof.
  intros Hf Hne c out. subst out. unfold settleMessages.
  rewrite (settle_keeps_all final _ Hf).
  set (W := List.filter (fun message => negb (String.eqb (messageId message) optimisticId)) prev).
  assert (HW0 : countId optimisticId W = 0%nat) by apply countId_without.
  assert (HWc : countId (messageId final) W = c)
    by (apply countId_without_other; exact Hne).
  assert (Happ : countId optimisticId (W ++ [final]) = 0%nat /\
                 countId (messageId final) (W ++ [final]) = S c).
  { rewrite !countId_app, HW0, HWc. unfold countId. simpl.
    rewrite String.eqb_refl.
    destruct (String.eqb_spec (messageId final) optimisticId); [contradiction|].
    simpl. split; lia. }
  destruct (findIndex _ W) as [i|] eqn:Ei.
  - destruct (findIndex_Some _ _ _ Ei) as [x [Hx Hp]].
    apply String.eqb_eq in Hp.
    assert (Hpos : (0 < c)%nat).
    { rewrite <- HWc, <- Hp. apply (nth_error_count _ _ _ Hx). }
    destruct mergeReadBy; simpl.
    + rewrite Hx. rewrite !countId_normalize.
      rewrite (countId_ids optimisticId _ W), (countId_ids (messageId final) _ W);
        try (apply (ids_assign _ _ x); [exact Hx | simpl; symmetry; exact Hp]).
      rewrite HW0, HWc.
      destruct (Nat.ltb_spec 0 c); [split; reflexivity | lia].
    + rewrite !countId_normalize. exact Happ.
  - assert (Hc0 : c = 0%nat).
    { rewrite <- HWc. unfold countId. rewrite (findIndex_None _ _ Ei). reflexivity. }
    rewrite !countId_normalize.
    replace (mergeReadBy && (0 <? c)%nat) with false
      by (rewrite Hc0; destruct mergeReadBy; reflexivity).
    exact Happ.
Qed.

Lemma prefix_differ (a b : string) :
  isOptimistic a = true -> isOptimistic b = false -> b <> a.
Proof. intros Ha Hb Heq. subst. congruence. Qed.

(** C1, as the code has it: after [prependOptimistic m] and
    [settleOptimistic (messageId m) final] for an optimistic [m] and a
    persisted [final], no entry carries the optimistic id; the entries of
    [final]'s id are as many as the starting sequence held when
    [mergeReadBy] is requested and it held one, and one more otherwise.  So
    there is exactly one when the starting sequence held none, or held one
    and [mergeReadBy] is requested. *)
Theorem prepend_then_settle (st : State) (m final : MessageRecord)
    (mergeReadBy : bool) :
  isOptimistic (messageId m) = true ->
  isOptimistic (messageId final) = false ->
  let c := countId (messageId final) (messages st) in
  let out :=
    messages (settleOptimistic (messageId m) (Some final) mergeReadBy
                (prependOptimistic m st)) in
  countId (messageId m) out = 0%nat /\
  countId (messageId final) out = (if mergeReadBy && (0 <? c)%nat then c else S c) /\
  (c = 0%nat \/ (c = 1%nat /\ mergeReadBy = true) ->
   countId (messageId final) out = 1%nat).
Proof.
  intros Hm Hf c out.
  assert (Hne : messageId final <> messageId m) by (apply prefix_differ; assumption).
  assert (Hc : countId (messageId final) (normalizeMessages (messages st ++ [m])) = c).
  { rewrite countId_normalize, countId_app. unfold countId at 2. simpl.
    destruct (String.eqb_spec (messageId m) (messageId final)); [congruence|].
    simpl. subst c. lia. }
  destruct (settle_count (messageId m) final mergeReadBy
              (normalizeMessages (messages st ++ [m])) Hf Hne) as [H0 H1].
  rewrite Hc in H1.
  assert (Hout : out = settleMessages (messageId m) (Some final) mergeReadBy
                         (normalizeMessages (messages st ++ [m]))) by reflexivity.
  rewrite Hout. split; [exact H0|]. split; [exact H1|].
  intros [H | [H Hmr]]; rewrite H1, H.
  - destruct mergeReadBy; reflexivity.
  - rewrite Hmr. reflexivity.
Qed.

Lemma prepend_then_settle_witness :
  countId "optimistic-a1"
    (messages (settleOptimistic "optimistic-a1" (Some m_final) true
                 (prependOptimistic m_opt subscribed))) = 0%nat /\
  countId "msg-1"
    (messages (settleOptimistic "optimistic-a1" (Some m_final) true
                 (prependOptimistic m_opt subscribed))) = 1%nat.
Proof.
  destruct (prepend_then_settle subscribed m_opt m_final true eq_refl eq_refl)
    as [H0 [_ H1]].
  split; [exact H0 | apply H1; left; reflexivity].
Defined.

(** C1 as stated fails: when the sequence already holds the persisted
    message, the settle call without [mergeReadBy] adds it a second time;
    the same happens when the subscription delivers the persisted message
    between the two calls.  With [mergeReadBy], a sequence that held the id
    twice still holds it twice. *)
Lemma settle_duplicates_delivered :
  (let st := setMessages (fun _ => [m_final]) subscribed in
   countId (messageId m_final)
     (messages (settleOptimistic (messageId m_opt) (Some m_final) false
                  (prependOptimistic m_opt st))) = 2%nat) /\
  countId "msg-1"
    (messages (settleOptimistic (messageId m_opt) (Some m_final) false
                 (onSnapshot 40 [doc "msg-1" (ATimestamp 0 30000000)]
                    (prependOptimistic m_opt subscribed)))) = 2%nat /\
  (let st := setMessages (fun _ => [m_final; m_final]) subscribed in
   countId (messageId m_final)
     (messages (settleOptimistic (messageId m_opt) (Some m_final) true
                  (prependOptimistic m_opt st))) = 2%nat).
Proof. repeat split; vm_compute; reflexivity. Qed.

(** *** Deduplication through a [Map] *)

Lemma find_app {A : Type} (p : A -> bool) (a b : list A) :
  List.find p (a ++ b)
  = match List.find p a with Some x => Some x | None => List.find p b end.
Proof.
  induction a as [|x a IH]; simpl; [reflexivity|].
  destruct (p x); [reflexivity | exact IH].
Qed.

Lemma lastOfId_app (i : string) (a b : list MessageRecord) :
  lastOfId i (a ++ b)
  = match lastOfId i b with Some m => Some m | None => lastOfId i a end.
Proof. unfold lastOfId. rewrite List.rev_app_distr. apply find_app. Qed.

Lemma lastOfId_Some (i : string) (l : list MessageRecord) (m : MessageRecord) :
  lastOfId i l = Some m -> In m l /\ messageId m = i.
Proof.
  unfold lastOfId. intros H. apply List.find_some in H. destruct H as [Hin Hp].
  split; [apply List.in_rev, Hin | apply String.eqb_eq, Hp].
Qed.

Lemma lastOfId_None (i : string) (l : list MessageRecord) :
  lastOfId i l = None <-> ~ In i (ids l).
Proof.
  unfold lastOfId, ids. split.
  - intros H Hin. apply List.in_map_iff in Hin. destruct Hin as [m [Hm Hin]].
    apply List.in_rev in Hin.
    pose proof (List.find_none _ _ H m Hin) as Hp. simpl in Hp.
    rewrite Hm, String.eqb_refl in Hp. discriminate.
  - intros H. destruct (List.find _ _) as [m|] eqn:E; [|reflexivity].
    exfalso. apply H. apply List.find_some in E. destruct E as [Hin Hp].
    apply String.eqb_eq in Hp. apply List.in_map_iff. exists m.
    split; [exact Hp | apply List.in_rev, Hin].
Qed.

Lemma lastOfId_unique (l : list MessageRecord) (m : MessageRecord) :
  In m l -> (forall x, In x l -> messageId x = messageId m -> x = m) ->
  lastOfId (messageId m) l = Some m.
Proof.
  intros Hin Huniq. destruct (lastOfId (messageId m) l) as [x|] eqn:E.
  - apply lastOfId_Some in E. destruct E as [Hx Hid].
    rewrite (Huniq x Hx Hid). reflexivity.
  - exfalso. apply lastOfId_None in E. apply E.
    apply List.in_map. exact Hin.
Qed.

Lemma dedupe_fold (l : list MessageRecord) (d : list (string * MessageRecord)) :
  List.NoDup (Js.keys d) -> keyed d ->
  let r := List.fold_left (fun d m => Js.set (messageId m) m d) l d in
  List.NoDup (Js.keys r) /\ keyed r /\
  forall k, Js.get k r
            = match lastOfId k l with Some m => Some m | None => Js.get k d end.
Proof.
  revert d. induction l as [|x l IH]; simpl; intros d Hnd Hk.
  - split; [exact Hnd|]. split; [exact Hk|]. reflexivity.
  - assert (Hnd' : List.NoDup (Js.keys (Js.set (messageId x) x d)))
      by (apply TableFacts.set_NoDup, Hnd).
    assert (Hk' : keyed (Js.set (messageId x) x d)).
    { intros k v Hin. apply TableFacts.in_set in Hin.
      destruct Hin as [[-> ->] | Hin]; [reflexivity | apply (Hk _ _ Hin)]. }
    destruct (IH _ Hnd' Hk') as [H1 [H2 H3]].
    split; [exact H1|]. split; [exact H2|].
    intros k. rewrite H3. change (x :: l) with ([x] ++ l)%list.
    rewrite lastOfId_app. destruct (lastOfId k l); [reflexivity|].
    rewrite TableFacts.get_set. unfold lastOfId. simpl.
    destruct (String.eqb (messageId x) k); reflexivity.
Qed.

Lemma dedupe_spec (l : list MessageRecord) :
  List.NoDup (Js.keys (dedupe l)) /\ keyed (dedupe l) /\
  forall k, Js.get k (dedupe l) = lastOfId k l.
Proof.
  destruct (dedupe_fold l []) as [H1 [H2 H3]].
  - constructor.
  - intros k v [].
  - split; [exact H1|]. split; [exact H2|].
    intros k. unfold dedupe. rewrite (H3 k). simpl.
    destruct (lastOfId k l); reflexivity.
Qed.

Lemma ids_values_keyed (d : list (string * MessageRecord)) :
  keyed d -> ids (Js.values d) = Js.keys d.
Proof.
  unfold ids, Js.values, Js.keys. induction d as [|[k v] d IH]; simpl; intros H.
  - reflexivity.
  - rewrite (H k v (or_introl eq_refl)). f_equal. apply IH.
    intros k' v' Hin. apply H. right; exact Hin.
Qed.

Lemma values_dedupe_in (m : MessageRecord) (l : list MessageRecord) :
  In m (Js.values (dedupe l)) <-> lastOfId (messageId m) l = Some m.
Proof.
  destruct (dedupe_spec l) as [Hnd [Hk Hget]]. rewrite <- Hget. split.
  - intros Hin. apply List.in_map_iff in Hin. destruct Hin as [[k v] [Hv Hin]].
    simpl in Hv. subst v. rewrite (Hk _ _ Hin).
    apply TableFacts.in_get_Some; assumption.
  - intros H. apply TableFacts.get_Some_in in H.
    apply List.in_map_iff. exists (messageId m, m). split; [reflexivity | exact H].
Qed.

Lemma ids_dedupe_in (i : string) (l : list MessageRecord) :
  In i (ids (Js.values (dedupe l))) <-> In i (ids l).
Proof.
  destruct (dedupe_spec l) as [Hnd [Hk Hget]].
  rewrite (ids_values_keyed _ Hk).
  destruct (lastOfId i l) as [m|] eqn:E.
  - split; intros _.
    + apply lastOfId_Some in E. destruct E as [Hin <-]. apply List.in_map, Hin.
    + rewrite <- Hget in E. apply TableFacts.get_Some_in in E.
      apply (List.in_map fst _ _ E).
  - split; intros H.
    + rewrite <- Hget in E. apply TableFacts.get_None_keys in E. contradiction.
    + apply lastOfId_None in E. contradiction.
Qed.

Lemma ids_perm (l l' : list MessageRecord) :
  Permutation l l' -> Permutation (ids l) (ids l').
Proof. apply Permutation_map. Qed.

Lemma ids_normalize_in (i : string) (l : list MessageRecord) :
  In i (ids (normalizeMessages l)) <-> In i (ids l).
Proof.
  split; apply Permutation_in; [|apply Permutation_sym];
    apply ids_perm, normalize_perm.
Qed.

(** *** The merge of a live window *)

Lemma ids_nonOptimistic (i : string) (prev : list MessageRecord) :
  In i (ids (List.filter (fun message => negb (isOptimistic (messageId message))) prev))
  <-> In i (ids prev) /\ isOptimistic i = false.
Proof.
  unfold ids. rewrite !List.in_map_iff. split.
  - intros [m [Hm Hin]]. apply List.filter_In in Hin. destruct Hin as [Hin Hp].
    subst i. split; [exists m; split; [reflexivity | exact Hin]|].
    destruct (isOptimistic (messageId m)); [discriminate | reflexivity].
  - intros [[m [Hm Hin]] Hopt]. exists m. split; [exact Hm|].
    apply List.filter_In. split; [exact Hin|]. rewrite Hm, Hopt. reflexivity.
Qed.

Lemma lastOfId_latest (i : string) (l : list MessageRecord) (m : MessageRecord) :
  ascending l -> lastOfId i l = Some m ->
  forall x, In x l -> messageId x = i -> instant x <= instant m.
Proof.
  intros Hs. revert m. induction Hs as [|y l Hs IH Hall]; intros m Hm x Hx Hid.
  - contradiction.
  - change (y :: l) with ([y] ++ l)%list in Hm. rewrite lastOfId_app in Hm.
    destruct (lastOfId i l) as [m'|] eqn:E.
    + inversion Hm; subst m'. destruct Hx as [<- | Hx].
      * rewrite List.Forall_forall in Hall. apply Hall.
        apply (lastOfId_Some _ _ _ E).
      * apply (IH m eq_refl x Hx Hid).
    + destruct Hx as [<- | Hx].
      * unfold lastOfId in Hm. simpl in Hm. rewrite Hid, String.eqb_refl in Hm.
        inversion Hm; subst. lia.
      * exfalso. apply lastOfId_None in E. apply E.
        rewrite <- Hid. apply List.in_map. exact Hx.
Qed.

Lemma mergeLive_spec (docs : list QueryDocumentSnapshot)
    (optimistic : list (string * MessageRecord)) (prev : list MessageRecord) :
  let live := List.map toMessageRecord docs in
  let pending := Js.values optimistic in
  let out := mergeLive docs optimistic prev in
  List.NoDup (ids out) /\
  (forall i, In i (ids out) <->
             (In i (ids prev) /\ isOptimistic i = false)
             \/ In i (ids live) \/ In i (ids pending)) /\
  (forall m, In m prev -> isOptimistic (messageId m) = false ->
             ~ In (messageId m) (ids live) -> ~ In (messageId m) (ids pending) ->
             exists m', In m' prev /\ messageId m' = messageId m /\ In m' out) /\
  (forall m, In m (live ++ pending) ->
             (forall x, In x (live ++ pending) -> messageId x = messageId m -> x = m) ->
             In m out) /\
  (forall i, In i (ids live) \/ In i (ids pending) ->
             exists m, In m (live ++ pending) /\ messageId m = i /\ In m out /\
                       forall x, In x (live ++ pending) -> messageId x = i ->
                                 instant x <= instant m).
Proof.
  intros live pending out. subst out. unfold mergeLive.
  fold live. fold pending.
  set (nonOptimistic := List.filter _ prev).
  set (merged := normalizeMessages (live ++ pending)).
  assert (Hmerged : forall i, In i (ids merged) <-> In i (ids live) \/ In i (ids pending)).
  { intros i. unfold merged. rewrite ids_normalize_in. unfold ids.
    rewrite List.map_app, List.in_app_iff. reflexivity. }
  destruct (dedupe_spec (nonOptimistic ++ merged)) as [Hnd [Hk Hget]].
  split; [|split; [|split; [|split]]].
  - apply (Permutation_NoDup (l := ids (Js.values (dedupe (nonOptimistic ++ merged))))).
    + apply Permutation_sym, ids_perm, normalize_perm.
    + rewrite (ids_values_keyed _ Hk). exact Hnd.
  - intros i. rewrite ids_normalize_in, ids_dedupe_in. unfold ids at 1.
    rewrite List.map_app, List.in_app_iff. fold (ids nonOptimistic). fold (ids merged).
    unfold nonOptimistic. rewrite ids_nonOptimistic, Hmerged. reflexivity.
  - intros m Hin Hopt Hlive Hpend.
    assert (Hnone : lastOfId (messageId m) merged = None).
    { apply lastOfId_None. rewrite Hmerged. tauto. }
    destruct (lastOfId (messageId m) nonOptimistic) as [m'|] eqn:E.
    + destruct (lastOfId_Some _ _ _ E) as [Hin' Hid].
      exists m'. split; [|split; [exact Hid|]].
      * unfold nonOptimistic in Hin'. apply List.filter_In in Hin'. tauto.
      * apply normalize_in, values_dedupe_in.
        rewrite lastOfId_app, Hid, Hnone. exact E.
    + exfalso. apply lastOfId_None in E. apply E.
      unfold nonOptimistic. rewrite ids_nonOptimistic. split; [|exact Hopt].
      apply List.in_map. exact Hin.
  - intros m Hin Huniq. apply normalize_in, values_dedupe_in.
    rewrite lastOfId_app.
    assert (E : lastOfId (messageId m) merged = Some m).
    { apply lastOfId_unique.
      - apply (proj2 (normalize_in _ _)). exact Hin.
      - intros x Hx. apply Huniq. apply (proj1 (normalize_in _ _)). exact Hx. }
    rewrite E. reflexivity.
  - intros i Hi. apply Hmerged in Hi.
    destruct (lastOfId i merged) as [m|] eqn:E;
      [|apply lastOfId_None in E; contradiction].
    destruct (lastOfId_Some _ _ _ E) as [Hin Hid].
    exists m. split; [apply (proj1 (normalize_in _ _)), Hin|].
    split; [exact Hid|]. split.
    + apply normalize_in, values_dedupe_in.
      rewrite lastOfId_app, Hid, E. reflexivity.
    + intros x Hx Hxi.
      apply (lastOfId_latest i merged m (normalize_ascending _) E x);
        [apply (proj2 (normalize_in _ _)), Hx | exact Hxi].
Qed.

(** C2, as the code has it: on an emission that carries documents the new
    sequence has one entry per id; its ids are those of the previous
    non-optimistic entries, of the live window and of the pending entries; a
    previous non-optimistic entry whose id is neither live nor pending is
    kept (the last previous entry of that id stays), while an entry that is
    the only live or pending one of its id is in the result, whatever the
    previous sequence held under that id; of the live and pending entries
    that share an id, one of the latest creation instant is the one kept. *)
Theorem emission_merges_live_window (pageSize : Z)
    (docs : list QueryDocumentSnapshot) (st : State) :
  docs <> [] ->
  let live := List.map toMessageRecord docs in
  let pending := Js.values (optimisticRef st) in
  let out := messages (onSnapshot pageSize docs st) in
  List.NoDup (ids out) /\
  (forall i, In i (ids out) <->
             (In i (ids (messages st)) /\ isOptimistic i = false)
             \/ In i (ids live) \/ In i (ids pending)) /\
  (forall m, In m (messages st) -> isOptimistic (messageId m) = false ->
             ~ In (messageId m) (ids live) -> ~ In (messageId m) (ids pending) ->
             exists m', In m' (messages st) /\ messageId m' = messageId m
                        /\ In m' out) /\
  (forall m, In m (live ++ pending) ->
             (forall x, In x (live ++ pending) -> messageId x = messageId m -> x = m) ->
             In m out) /\
  (forall i, In i (ids live) \/ In i (ids pending) ->
             exists m, In m (live ++ pending) /\ messageId m = i /\ In m out /\
                       forall x, In x (live ++ pending) -> messageId x = i ->
                                 instant x <= instant m).
Proof.
  intros Hdocs live pending out.
  destruct docs as [|d ds]; [contradiction|].
  apply (mergeLive_spec (d :: ds) (optimisticRef st) (messages st)).
Qed.

Lemma emission_merges_live_window_witness :
  List.NoDup (ids (messages (onSnapshot 40 [doc "msg-1" (ADate 30)]
                               (prependOptimistic m_opt subscribed)))).
Proof.
  refine (proj1 (emission_merges_live_window 40 [doc "msg-1" (ADate 30)]
                   (prependOptimistic m_opt subscribed) _)).
  discriminate.
Defined.

(** C2 as stated fails: with a window of one document, the message of the
    first emission is outside the window of the second and is still shown.
    And a live entry does not win over a pending entry of the same id that
    sorts after it: the later one of the two is kept. *)
Lemma emission_keeps_entries_outside_window :
  (let st := onSnapshot 1 [doc "msg-0" (ADate 10)] subscribed in
   let docs := [doc "msg-1" (ADate 30)] in
   let old := toMessageRecord (doc "msg-0" (ADate 10)) in
   In old (messages st) /\
   isOptimistic (messageId old) = false /\
   ~ In (messageId old) (ids (List.map toMessageRecord docs)) /\
   In old (messages (onSnapshot 1 docs st))) /\
  messages (onSnapshot 40 [doc "msg-1" (ADate 30)]
              (prependOptimistic (textMessage "msg-1" (ADate 50)) subscribed))
  = [textMessage "msg-1" (ADate 50)].
Proof.
  split; [|reflexivity].
  cbv zeta. split; [vm_compute; auto|]. split; [reflexivity|].
  split; [|vm_compute; auto].
  vm_compute. intros [H | []]. discriminate.
Qed.

(** The instants are the numbers the comparator reads: two Timestamps a
    nanosecond apart read as one number, and of a live and a pending entry
    of one id that tie, the pending one, which the sort leaves last, is
    kept. *)
Lemma emission_of_a_tie :
  instant (textMessage "msg-1" (ATimestamp 1700000000 1))
  = instant (textMessage "msg-1" (ATimestamp 1700000000 0))
  /\ instant (textMessage "msg-1" (ATimestamp 1700000000 0))
     < instant (textMessage "msg-1" (ATimestamp 1700000000 1000))
  /\ messages (onSnapshot 40 [doc "msg-1" (ATimestamp 1700000000 1)]
                 (prependOptimistic (textMessage "msg-1" (ATimestamp 1700000000 0))
                    subscribed))
     = [textMessage "msg-1" (ATimestamp 1700000000 0)].
Proof. repeat split; vm_compute; reflexivity. Qed.

(** C6: an emission without documents sets [hasMore] to false and shows the
    pending optimistic entries, the values of the side table, and nothing
    else; the side table itself is left as it is. *)
Theorem empty_emission (pageSize : Z) (st : State) :
  let st' := onSnapshot pageSize [] st in
  hasMore st' = false /\
  messages st' = Js.values (optimisticRef st) /\
  optimisticRef st' = optimisticRef st /\
  (forall m, In m (messages st') <-> exists k, In (k, m) (optimisticRef st)) /\
  hasMore (onSnapshot 40 [] subscribed) = false /\
  messages (onSnapshot 40 [] subscribed) = [].
Proof.
  simpl. repeat split.
  - unfold Js.values. intros H. apply List.in_map_iff in H.
    destruct H as [[k v] [Hv Hin]]. simpl in Hv. subst v. exists k. exact Hin.
  - intros [k Hin]. unfold Js.values.
    apply List.in_map_iff. exists (k, m). split; [reflexivity | exact Hin].
Qed.

(** *** Order *)












(** *** The order among entries of one instant *)






Lemma ids_filter_in (p : MessageRecord -> bool) (i : string) (l : list MessageRecord) :
  In i (ids (List.filter p l)) -> In i (ids l).
Proof.
  unfold ids. rewrite !List.in_map_iff. intros [m [Hm Hin]].
  apply List.filter_In in Hin. exists m. tauto.
Qed.

Lemma ids_NoDup_filter (p : MessageRecord -> bool) (l : list MessageRecord) :
  List.NoDup (ids l) -> List.NoDup (ids (List.filter p l)).
Proof.
  induction l as [|x l IH]; simpl; intros H; [constructor|].
  inversion H as [|? ? Hnotin Hnd]; subst.
  destruct (p x); simpl; [|apply IH, Hnd].
  constructor; [|apply IH, Hnd].
  intros Hin. apply Hnotin. apply (ids_filter_in p). exact Hin.
Qed.












(** *** [updateOptimistic] *)






End MessageFacts.

(** ** The timestamp normaliser *)

Module TimestampFacts.
Import Timestamps.

#[local] Arguments Binary64.ofZ : simpl never.
#[local] Arguments Binary64.add : simpl never.
#[local] Arguments Binary64.mul : simpl never.
#[local] Arguments Binary64.div : simpl never.
#[local] Arguments Binary64.floor : simpl never.
#[local] Arguments TimeClip : simpl never.

(** *** Numbers that are not finite *)

Lemma add_NaN (x : Binary64.Number) : Binary64.add x SpecFloat.S754_nan = SpecFloat.S754_nan.
Proof. destruct x; reflexivity. Qed.

Lemma mul_not_finite (x : Binary64.Number) :
  Binary64.isFinite x = false ->
  Binary64.isFinite (Binary64.mul x (Binary64.ofZ 1000)) = false.
Proof. destruct x as [s|s| |s m e]; try discriminate; intros _; vm_compute; reflexivity. Qed.

Lemma add_not_finite (x y : Binary64.Number) :
  Binary64.isFinite x = false -> Binary64.isFinite (Binary64.add x y) = false.
Proof.
  destruct x as [s|s| |s m e]; try discriminate; intros _.
  - destruct y as [s'|s'| |s' m' e']; try reflexivity.
    destruct s, s'; reflexivity.
  - reflexivity.
Qed.

Lemma TimeClip_not_finite (x : Binary64.Number) :
  Binary64.isFinite x = false -> TimeClip x = NaN.
Proof. intros H. unfold TimeClip. rewrite H. reflexivity. Qed.

Lemma dateOfFields_not_finite (s n : Binary64.Number) :
  Binary64.isFinite s = false -> dateOfFields s n = {| getTime := NaN |}.
Proof.
  intros H. unfold dateOfFields, newDate. f_equal.
  apply TimeClip_not_finite, add_not_finite, mul_not_finite, H.
Qed.

Lemma dateOfFields_undefined (s : Binary64.Number) :
  dateOfFields s SpecFloat.S754_nan = {| getTime := NaN |}.
Proof.
  unfold dateOfFields, newDate. f_equal.
  change (Binary64.floor (Binary64.div SpecFloat.S754_nan (Binary64.ofZ 1000000)))
    with SpecFloat.S754_nan.
  rewrite add_NaN. reflexivity.
Qed.

Section Runtime.
Variable StringToNumber : string -> Binary64.Number.
Variable ObjectToNumber : JsValue -> Completion Binary64.Number.
Variable Timestamp_toDate : Z -> Z -> Date.

Let toDate := Timestamps.toDate StringToNumber ObjectToNumber Timestamp_toDate.
Let converts := Timestamps.converts ObjectToNumber StringToNumber.

(** The three ways the function ends, by the shape of its argument. *)
Lemma toDate_cases (value : JsValue) :
  (isDate value || isTimestamp value || hasSeconds value = false
   /\ toDate value = Normal None) \/
  (isDate value || isTimestamp value || hasSeconds value = true
   /\ converts "seconds" value && converts "nanoseconds" value = true
   /\ exists d, toDate value = Normal (Some d)) \/
  (hasSeconds value = true
   /\ converts "seconds" value && converts "nanoseconds" value = false
   /\ toDate value = TypeError).
Proof.
  unfold toDate, converts, Timestamps.toDate, Timestamps.converts.
  destruct value as [| |b|n|z|s|d|t|s n|fields]; simpl;
    try (left; split; reflexivity);
    try (right; left; split; [reflexivity|]; split; [reflexivity|];
         eexists; reflexivity).
  - destruct b; left; split; reflexivity.
  - destruct n; left; split; reflexivity.
  - destruct (z =? 0); left; split; reflexivity.
  - destruct (String.eqb s ""); left; split; reflexivity.
  - destruct (hasProperty "seconds" fields); [|left; split; reflexivity].
    right.
    destruct (ToNumber StringToNumber ObjectToNumber (getProperty "seconds" fields))
      as [s|]; simpl; [|right; repeat split; reflexivity].
    destruct (ToNumber StringToNumber ObjectToNumber (getProperty "nanoseconds" fields))
      as [n|]; simpl; [|right; repeat split; reflexivity].
    left. split; [reflexivity|]. split; [reflexivity|]. eexists; reflexivity.
Qed.

Lemma toDate_fields (fields : list (string * JsValue)) (s n : Binary64.Number) :
  hasProperty "seconds" fields = true ->
  ToNumber StringToNumber ObjectToNumber (getProperty "seconds" fields) = Normal s ->
  ToNumber StringToNumber ObjectToNumber (getProperty "nanoseconds" fields) = Normal n ->
  toDate (JObject fields) = Normal (Some (dateOfFields s n)).
Proof.
  intros Hhas Hs Hn.
  unfold toDate, Timestamps.toDate. cbn [ToBoolean negb].
  rewrite Hhas, Hs, Hn. reflexivity.
Qed.

Lemma hasProperty_get (k : string) (fields : list (string * JsValue)) (v : JsValue) :
  Js.get k fields = Some v ->
  hasProperty k fields = true /\ getProperty k fields = v.
Proof. intros H. unfold hasProperty, getProperty. rewrite H. split; reflexivity. Qed.

(** C5, as the code has it.  [toDate] is a function of its argument alone.
    It ends on every value, by a return except on an object that has a
    [seconds] property of which [seconds] or [nanoseconds] does not convert
    to a number (a BigInt, a Symbol).  It returns a Date exactly for a Date
    object, a Timestamp, and such an object whose fields convert, with or
    without [nanoseconds]; it returns null for null, undefined and everything
    else.  A Date object is returned as it is.  Fields that convert to the
    Numbers s and n, whole or not, finite or not, give the Date whose time
    value is TimeClip of the binary64 number s * 1000 + floor(n / 1000000):
    the integer part of that number when it is finite and within 8.64e15,
    and an Invalid Date otherwise, as it is when s is NaN or an infinity and
    when n is NaN; number fields convert to themselves, and a missing
    [nanoseconds] to NaN. *)
Theorem toDate_spec (value : JsValue) :
  ((exists d, toDate value = Normal (Some d)) <->
   isDate value || isTimestamp value || hasSeconds value = true
   /\ converts "seconds" value && converts "nanoseconds" value = true) /\
  (toDate value = Normal None <->
   isDate value || isTimestamp value || hasSeconds value = false) /\
  (toDate value = TypeError <->
   hasSeconds value = true
   /\ converts "seconds" value && converts "nanoseconds" value = false) /\
  toDate JNull = Normal None /\
  toDate JUndefined = Normal None /\
  (forall t, toDate (JDate t) = Normal (Some {| getTime := t |})) /\
  (forall fields s n,
     hasProperty "seconds" fields = true ->
     ToNumber StringToNumber ObjectToNumber (getProperty "seconds" fields)
     = Normal s ->
     ToNumber StringToNumber ObjectToNumber (getProperty "nanoseconds" fields)
     = Normal n ->
     toDate (JObject fields)
     = Normal (Some {| getTime :=
                         TimeClip
                           (Binary64.add
                              (Binary64.mul s (Binary64.ofZ 1000))
                              (Binary64.floor
                                 (Binary64.div n (Binary64.ofZ 1000000)))) |})
     /\ (Binary64.isFinite s = false \/ Binary64.isNaN n = true ->
         toDate (JObject fields) = Normal (Some {| getTime := NaN |}))) /\
  (forall fields s n,
     Js.get "seconds" fields = Some (JNumber s) ->
     Js.get "nanoseconds" fields = Some (JNumber n) ->
     toDate (JObject fields)
     = Normal (Some {| getTime :=
                         TimeClip
                           (Binary64.add
                              (Binary64.mul s (Binary64.ofZ 1000))
                              (Binary64.floor
                                 (Binary64.div n (Binary64.ofZ 1000000)))) |})) /\
  (forall fields s,
     Js.get "seconds" fields = Some (JNumber s) ->
     Js.get "nanoseconds" fields = None ->
     toDate (JObject fields) = Normal (Some {| getTime := NaN |})).
Proof.
  split; [|split; [|split; [|split; [|split; [|split; [|split; [|split]]]]]]];
    try reflexivity.
  - destruct (toDate_cases value) as [[Hs Hr] | [[Hs [Hc [d Hr]]] | [Hs [Hc Hr]]]];
      rewrite Hr.
    + split; [intros [d Hd]; discriminate | intros [H _]; congruence].
    + split; [intros _; split; assumption | intros _; exists d; reflexivity].
    + split; [intros [d Hd]; discriminate | intros [_ H]; congruence].
  - destruct (toDate_cases value) as [[Hs Hr] | [[Hs [Hc [d Hr]]] | [Hs [Hc Hr]]]];
      rewrite Hr.
    + split; [intros _; exact Hs | reflexivity].
    + split; [discriminate | intros H; congruence].
    + split; [discriminate|].
      intros H. rewrite Hs, !Bool.orb_true_r in H. discriminate.
  - destruct (toDate_cases value) as [[Hs Hr] | [[Hs [Hc [d Hr]]] | [Hs [Hc Hr]]]];
      rewrite Hr.
    + split; [discriminate|].
      intros [H _]. rewrite H, !Bool.orb_true_r in Hs. discriminate.
    + split; [discriminate | intros [_ H]; congruence].
    + split; [intros _; split; assumption | reflexivity].
  - intros fields s n Hhas Hs Hn.
    assert (H : toDate (JObject fields) = Normal (Some (dateOfFields s n)))
      by (apply toDate_fields; assumption).
    split; [exact H|].
    intros [Hinf | Hnan]; rewrite H.
    + rewrite (dateOfFields_not_finite s n Hinf). reflexivity.
    + destruct n; try discriminate. rewrite dateOfFields_undefined. reflexivity.
  - intros fields s n Hs Hn.
    destruct (hasProperty_get _ _ _ Hs) as [Hhas Hgs].
    destruct (hasProperty_get _ _ _ Hn) as [_ Hgn].
    apply (toDate_fields fields s n Hhas); [rewrite Hgs | rewrite Hgn]; reflexivity.
  - intros fields s Hs Hn.
    destruct (hasProperty_get _ _ _ Hs) as [Hhas Hgs].
    rewrite (toDate_fields fields s SpecFloat.S754_nan Hhas).
    + rewrite dateOfFields_undefined. reflexivity.
    + rewrite Hgs. reflexivity.
    + unfold getProperty. rewrite Hn. reflexivity.
Qed.
End Runtime.

Lemma toDate_spec_witness :
  toDate readsNaN convertsToNaN wholeMillis
    (JObject [("seconds", JNumber (Binary64.ofZ 1700000000));
              ("nanoseconds", JNumber (Binary64.ofZ 123456789))])
  = Normal (Some {| getTime := Num 1700000000123 |})
  /\ toDate readsNaN convertsToNaN wholeMillis
       (JObject [("seconds", JNumber infinity);
                 ("nanoseconds", JNumber (Binary64.ofZ 0))])
     = Normal (Some {| getTime := NaN |})
  /\ toDate readsNaN convertsToNaN wholeMillis
       (JObject [("seconds", JNumber (Binary64.ofZ 1))])
     = Normal (Some {| getTime := NaN |})
  /\ toDate readsNaN convertsToNaN wholeMillis
       (JObject [("seconds", JBool true); ("nanoseconds", JNull)])
     = Normal (Some {| getTime := Num 1000 |}).
Proof.
  pose proof (toDate_spec readsNaN convertsToNaN wholeMillis JNull)
    as [_ [_ [_ [_ [_ [_ [Hany [Hnum Hmiss]]]]]]]].
  split; [|split; [|split]].
  - rewrite (Hnum [("seconds", JNumber (Binary64.ofZ 1700000000));
                   ("nanoseconds", JNumber (Binary64.ofZ 123456789))]
               (Binary64.ofZ 1700000000) (Binary64.ofZ 123456789)
               eq_refl eq_refl).
    vm_compute. reflexivity.
  - apply (proj2 (Hany [("seconds", JNumber infinity);
                        ("nanoseconds", JNumber (Binary64.ofZ 0))]
                    infinity (Binary64.ofZ 0) eq_refl eq_refl eq_refl)).
    left. reflexivity.
  - apply (Hmiss [("seconds", JNumber (Binary64.ofZ 1))] (Binary64.ofZ 1));
      reflexivity.
  - rewrite (proj1 (Hany [("seconds", JBool true); ("nanoseconds", JNull)]
                      (Binary64.ofZ 1) (Binary64.ofZ 0) eq_refl eq_refl eq_refl)).
    vm_compute. reflexivity.
Defined.

(** The arithmetic is that of binary64: fields that are not whole, fields of
    either sign, sums that cancel at large magnitudes, and sums beyond the
    range of Date. *)
Lemma toDate_numbers :
  let toDate := toDate readsNaN convertsToNaN wholeMillis in
  let pair s n := JObject [("seconds", JNumber s); ("nanoseconds", JNumber n)] in
  toDate (pair oneAndAHalf (Binary64.ofZ 0))
  = Normal (Some {| getTime := Num 1500 |})
  /\ toDate (pair (Binary64.ofZ 1) (Binary64.ofZ 1500000))
     = Normal (Some {| getTime := Num 1001 |})
  /\ toDate (pair (Binary64.ofZ (-1)) (Binary64.ofZ (-1)))
     = Normal (Some {| getTime := Num (-1001) |})
  /\ toDate (pair (Binary64.ofZ 1000000000000000)
                  (Binary64.ofZ (-1000000000000000000000000)))
     = Normal (Some {| getTime := Num 0 |})
  /\ toDate (pair (Binary64.ofZ 8640000000000) (Binary64.ofZ 0))
     = Normal (Some {| getTime := Num 8640000000000000 |})
  /\ toDate (pair (Binary64.ofZ 8640000000000) (Binary64.ofZ 1000000))
     = Normal (Some {| getTime := NaN |})
  /\ toDate (pair (Binary64.ofZ 0) infinity)
     = Normal (Some {| getTime := NaN |})
  /\ toDate (JNumber (Binary64.ofZ 0)) = Normal None
  /\ toDate (JNumber oneAndAHalf) = Normal None.
Proof. repeat split; vm_compute; reflexivity. Qed.

(** C5 as stated fails: an object that has [seconds] alone is not a
    {seconds, nanoseconds} pair, and the result is a Date (an invalid one),
    not null; and a BigInt under [seconds] makes the multiplication throw. *)
Lemma toDate_outside_the_contract :
  (let value := JObject [("seconds", JNumber (Binary64.ofZ 1))] in
   toDate readsNaN convertsToNaN wholeMillis value
   = Normal (Some {| getTime := NaN |}) /\
   isDate value || isSecondsNanosecondsPair value || isTimestamp value = false) /\
  toDate readsNaN convertsToNaN wholeMillis
    (JObject [("seconds", JBigInt 1); ("nanoseconds", JNumber (Binary64.ofZ 0))])
  = TypeError.
Proof. repeat split; vm_compute; reflexivity. Qed.

End TimestampFacts.

(** ** The rate limiter *)

Module RateLimiterFacts.
Import RateLimiter.

Lemma assertRateLimit_throws (now : Z) (key : string) (options : RateLimiterOptions)
    (buckets : gmap string Bucket) :
  fst (assertRateLimit now key options buckets) = Thrown resourceExhausted <->
  exists b, buckets !! key = Some b /\ now < expiresAt b
            /\ maxRequests options <= count b.
Proof.
  unfold assertRateLimit. destruct (buckets !! key) as [b|] eqn:E; simpl.
  - destruct (Z.leb_spec (expiresAt b) now) as [Hexp | Hlive]; simpl.
    + split; [discriminate|]. intros [b' [Hb [Hl _]]]. inversion Hb; subst. lia.
    + destruct (Z.geb_spec (count b) (maxRequests options)) as [Hfull | Hroom]; simpl.
      * split; [|reflexivity]. intros _. exists b. repeat split; [exact Hlive | lia].
      * split; [discriminate|]. intros [b' [Hb [_ Hc]]]. inversion Hb; subst. lia.
  - split; [discriminate|]. intros [b' [Hb _]]. discriminate.
Qed.

Lemma assertRateLimit_opens (now : Z) (key : string) (options : RateLimiterOptions)
    (buckets : gmap string Bucket) :
  ~ live now key buckets ->
  assertRateLimit now key options buckets
  = (Returned, <[key := fresh now options]> buckets).
Proof.
  intros Hdead. unfold assertRateLimit.
  destruct (buckets !! key) as [b|] eqn:E; [|reflexivity].
  destruct (Z.leb_spec (expiresAt b) now) as [Hexp | Hlive]; [reflexivity|].
  exfalso. apply Hdead. exists b. split; [exact E | exact Hlive].
Qed.

Lemma assertRateLimit_counts (now : Z) (key : string) (options : RateLimiterOptions)
    (buckets : gmap string Bucket) (b : Bucket) :
  buckets !! key = Some b -> now < expiresAt b -> count b < maxRequests options ->
  assertRateLimit now key options buckets = (Returned, <[key := bump b]> buckets).
Proof.
  intros E Hlive Hroom. unfold assertRateLimit. rewrite E.
  destruct (Z.leb_spec (expiresAt b) now); [lia|].
  destruct (Z.geb_spec (count b) (maxRequests options)); [lia | reflexivity].
Qed.

Lemma assertRateLimit_rejects (now : Z) (key : string) (options : RateLimiterOptions)
    (buckets : gmap string Bucket) (b : Bucket) :
  buckets !! key = Some b -> now < expiresAt b -> maxRequests options <= count b ->
  assertRateLimit now key options buckets = (Thrown resourceExhausted, buckets).
Proof.
  intros E Hlive Hfull. unfold assertRateLimit. rewrite E.
  destruct (Z.leb_spec (expiresAt b) now); [lia|].
  destruct (Z.geb_spec (count b) (maxRequests options)); [reflexivity | lia].
Qed.

(** Calls while the window of the key is open: call [i] returns when the
    counter it finds, [count b + i], is below [maxRequests]; the expiry of
    the window is never moved. *)
Lemma calls_live (key : string) (options : RateLimiterOptions) (clock : list Z) :
  forall (buckets : gmap string Bucket) (b : Bucket),
    buckets !! key = Some b ->
    List.Forall (fun t => t < expiresAt b) clock ->
    (forall i o, List.nth_error (fst (calls key options clock buckets)) i = Some o ->
                 succeeded o = (count b + Z.of_nat i <? maxRequests options)) /\
    exists b', snd (calls key options clock buckets) !! key = Some b'
               /\ expiresAt b' = expiresAt b.
Proof.
  induction clock as [|now clock IH]; intros buckets b E Hall.
  - simpl. split; [intros [|i] o H; discriminate | exists b; auto].
  - inversion Hall as [|? ? Hnow Hrest]; subst. simpl.
    destruct (Z.lt_ge_cases (count b) (maxRequests options)) as [Hroom | Hfull].
    + rewrite (assertRateLimit_counts now key options buckets b E Hnow Hroom).
      destruct (IH (<[key := bump b]> buckets) (bump b)
                  (lookup_insert_eq _ _ _) Hrest) as [Hout [b' [Hb' He]]].
      destruct (calls key options clock (<[key := bump b]> buckets)) as [os bs].
      simpl in *. split; [|exists b'; auto].
      intros [|i] o H; simpl in H.
      * inversion H; subst. simpl. symmetry. apply Z.ltb_lt. lia.
      * rewrite (Hout i o H). f_equal. lia.
    + rewrite (assertRateLimit_rejects now key options buckets b E Hnow Hfull).
      destruct (IH buckets b E Hrest) as [Hout [b' [Hb' He]]].
      destruct (calls key options clock buckets) as [os bs].
      simpl in *. split; [|exists b'; auto].
      intros [|i] o H; simpl in H.
      * inversion H; subst. simpl. symmetry. apply Z.ltb_ge. lia.
      * rewrite (Hout i o H).
        transitivity false; [apply Z.ltb_ge | symmetry; apply Z.ltb_ge]; lia.
Qed.

(** C4, as the code has it.  A call fails, with resource-exhausted, exactly
    when the key has an open window whose counter has reached [maxRequests];
    otherwise it returns, opening a window with count 1 when none is open and
    counting one more in the open window otherwise.  For [maxRequests] of at
    least 1, of the calls made for a key from the one that opens a window
    until that window expires, call number [i] (from 0) returns exactly when
    [i < maxRequests]: [maxRequests] calls succeed and every later one
    fails; a call at or after the expiry returns and opens a new window. *)
Theorem assertRateLimit_spec (now : Z) (key : string)
    (options : RateLimiterOptions) (buckets : gmap string Bucket) :
  (fst (assertRateLimit now key options buckets) = Thrown resourceExhausted <->
   exists b, buckets !! key = Some b /\ now < expiresAt b
             /\ maxRequests options <= count b) /\
  (fst (assertRateLimit now key options buckets) = Returned \/
   fst (assertRateLimit now key options buckets) = Thrown resourceExhausted) /\
  (~ live now key buckets ->
   assertRateLimit now key options buckets
   = (Returned, <[key := fresh now options]> buckets)) /\
  (forall b, buckets !! key = Some b -> now < expiresAt b ->
             count b < maxRequests options ->
             assertRateLimit now key options buckets
             = (Returned, <[key := bump b]> buckets)) /\
  (1 <= maxRequests options -> ~ live now key buckets ->
   forall later, List.Forall (fun t => t < now + windowMs options) later ->
     let run := calls key options (now :: later) buckets in
     (forall i o, List.nth_error (fst run) i = Some o ->
                  succeeded o = (Z.of_nat i <? maxRequests options)) /\
     (forall t, now + windowMs options <= t ->
                assertRateLimit t key options (snd run)
                = (Returned, <[key := fresh t options]> (snd run)))).
Proof.
  split; [apply assertRateLimit_throws|].
  split; [|split; [apply assertRateLimit_opens|split; [apply assertRateLimit_counts|]]].
  - unfold assertRateLimit. destruct (buckets !! key) as [b|]; [|left; reflexivity].
    destruct (expiresAt b <=? now); [left; reflexivity|].
    destruct (count b >=? maxRequests options); [right | left]; reflexivity.
  - intros Hmax Hdead later Hall run. subst run. simpl.
    rewrite (assertRateLimit_opens now key options buckets Hdead).
    destruct (calls_live key options later
                (<[key := fresh now options]> buckets) (fresh now options)
                (lookup_insert_eq _ _ _) Hall) as [Hout [b' [Hb' He]]].
    destruct (calls key options later (<[key := fresh now options]> buckets))
      as [os bs].
    simpl in *. split.
    + intros [|i] o H; simpl in H.
      * inversion H; subst. simpl. symmetry. apply Z.ltb_lt. lia.
      * rewrite (Hout i o H). f_equal. lia.
    + intros t Ht. apply assertRateLimit_opens.
      intros [b [Hb Hlive]]. rewrite Hb' in Hb. inversion Hb; subst. lia.
Qed.

Lemma assertRateLimit_spec_witness :
  List.map succeeded
    (fst (calls "aiSummarize:u1" (perMinute 3) [0; 10; 20; 30; 40] ∅))
  = [true; true; true; false; false].
Proof.
  assert (H : forall i o,
             List.nth_error
               (fst (calls "aiSummarize:u1" (perMinute 3) [0; 10; 20; 30; 40] ∅)) i
             = Some o ->
             succeeded o = (Z.of_nat i <? 3)).
  { refine (proj1 (proj2 (proj2 (proj2 (proj2
              (assertRateLimit_spec 0 "aiSummarize:u1" (perMinute 3) ∅)))) _ _
              [10; 20; 30; 40] _)).
    - simpl. lia.
    - intros [b [Hb _]]. rewrite lookup_empty in Hb. discriminate.
    - repeat constructor. }
  change ([succeeded Returned; succeeded Returned; succeeded Returned;
           succeeded (Thrown resourceExhausted);
           succeeded (Thrown resourceExhausted)]
          = [true; true; true; false; false]).
  rewrite (H 0%nat Returned eq_refl).
  rewrite (H 3%nat (Thrown resourceExhausted) eq_refl).
  reflexivity.
Defined.

(** C4 as stated fails for a quota of zero: the call that opens the window
    is not checked against [maxRequests] and returns. *)
Lemma zero_quota_admits_a_call :
  List.map succeeded (fst (calls "presence:u1" (perMinute 0) [0] ∅)) = [true].
Proof. reflexivity. Qed.

(** C9: a call that is rejected leaves the table of windows as it was,
    counter and expiry included. *)
Theorem rejection_changes_nothing (now : Z) (key : string)
    (options : RateLimiterOptions) (buckets : gmap string Bucket) (e : HttpsError) :
  fst (assertRateLimit now key options buckets) = Thrown e ->
  snd (assertRateLimit now key options buckets) = buckets.
Proof.
  unfold assertRateLimit. destruct (buckets !! key) as [b|]; [|discriminate].
  destruct (expiresAt b <=? now); [discriminate|].
  destruct (count b >=? maxRequests options); [reflexivity | discriminate].
Qed.

Lemma rejection_changes_nothing_witness :
  snd (assertRateLimit 500 "aiSummarize:u1" (perMinute 3) spent) = spent.
Proof.
  apply (rejection_changes_nothing 500 "aiSummarize:u1" (perMinute 3) spent
           resourceExhausted).
  unfold spent.
  rewrite (assertRateLimit_rejects 500 "aiSummarize:u1" (perMinute 3) _
             {| count := 3; expiresAt := 60000 |});
    [reflexivity | apply lookup_insert_eq | simpl; lia | simpl; lia].
Defined.

End RateLimiterFacts.

(** ** The notification fan-out *)

Module NotificationFacts.
Import Notifications.

Section FanOut.
Variable chats : gmap string ChatData.
Variable users : gmap string UserData.
Variable sendEachForMulticast : MulticastMessage -> option BatchResponse.

Lemma targetsOf_spec (chat : ChatData) (message : MessageData) (u : string) :
  In u (targetsOf chat message) <->
  In u (default [] (participants chat)) /\ u <> senderId message
  /\ ~ In u (default [] (mutedBy chat)).
Proof.
  unfold targetsOf. rewrite List.filter_In, Bool.andb_true_iff, !Bool.negb_true_iff.
  assert (Hm : List.existsb (String.eqb u) (default [] (mutedBy chat)) = false
               <-> ~ In u (default [] (mutedBy chat))).
  { rewrite <- Bool.not_true_iff_false, List.existsb_exists. split.
    - intros H Hin. apply H. exists u. split; [exact Hin | apply String.eqb_refl].
    - intros H [x [Hin Hx]]. apply String.eqb_eq in Hx. subst x. contradiction. }
  rewrite Hm, String.eqb_neq. tauto.
Qed.

Lemma tokensOf_fold (targets : list string) (acc : list string) :
  let step := fun tokens memberId =>
    match users !! memberId with
    | Some data =>
        match fcmTokens data with
        | Some ts => List.fold_left (fun s t => Js.setAdd t s) ts tokens
        | None => tokens
        end
    | None => tokens
    end in
  let r := List.fold_left step targets acc in
  (List.NoDup acc -> List.NoDup r) /\
  (forall t, In t r <-> In t acc \/ registered users targets t).
Proof.
  revert acc. induction targets as [|u targets IH]; intros acc; simpl.
  - split; [auto|]. intros t. split; [auto|].
    intros [H | [u [data [ts [[] _]]]]]. exact H.
  - destruct (IH (match users !! u with
                  | Some data =>
                      match fcmTokens data with
                      | Some ts => List.fold_left (fun s t => Js.setAdd t s) ts acc
                      | None => acc
                      end
                  | None => acc
                  end)) as [Hnd Hin].
    simpl in Hnd, Hin. split.
    + intros H. apply Hnd.
      destruct (users !! u) as [data|]; [|exact H].
      destruct (fcmTokens data) as [ts|]; [|exact H].
      apply TableFacts.addAll_NoDup, H.
    + intros t. rewrite Hin. split.
      * intros [H | [u' [data [ts [Hu' Hrest]]]]].
        -- destruct (users !! u) as [data|] eqn:Eu; [|left; exact H].
           destruct (fcmTokens data) as [ts|] eqn:Et; [|left; exact H].
           rewrite TableFacts.addAll_in in H.
           destruct H as [H | H]; [left; exact H|].
           right. exists u, data, ts. split; [left; reflexivity | auto].
        -- right. exists u', data, ts. split; [right; exact Hu' | exact Hrest].
      * intros [H | [u' [data [ts [[Heq | Hu'] [Hd [Ht Hin']]]]]]].
        -- left. destruct (users !! u) as [data|]; [|exact H].
           destruct (fcmTokens data) as [ts|]; [|exact H].
           rewrite TableFacts.addAll_in. left; exact H.
        -- subst u'. left. rewrite Hd, Ht.
           rewrite TableFacts.addAll_in. right; exact Hin'.
        -- right. exists u', data, ts. auto.
Qed.

Lemma tokensOf_spec (targets : list string) :
  List.NoDup (tokensOf users targets) /\
  (forall t, In t (tokensOf users targets) <-> registered users targets t).
Proof.
  destruct (tokensOf_fold targets []) as [Hnd Hin]. split.
  - apply Hnd. constructor.
  - intros t. unfold tokensOf. rewrite (Hin t). simpl. tauto.
Qed.

(** The runs of the function, by what it finds. *)
Lemma run_cases (chatId messageId : string) (message : MessageData)
    (chat : ChatData) :
  chats !! chatId = Some chat ->
  let run :=
    sendMessageNotification chats users sendEachForMulticast chatId messageId message in
  let targets := targetsOf chat message in
  (targets = [] /\ run = ([], Resolved)) \/
  (targets <> [] /\ tokensOf users targets = []
   /\ run = ([LogInfo "No push tokens to notify"], Resolved)) \/
  (targets <> [] /\ tokensOf users targets <> [] /\
   exists p, tokens p = tokensOf users targets /\ data_chatId p = chatId
             /\ data_messageId p = messageId /\
     ((sendEachForMulticast p = None /\ run = ([Multicast p], Rejected)) \/
      (exists response, sendEachForMulticast p = Some response /\
         ((failed response = [] /\
           run = ([Multicast p; LogInfo "Delivered FCM notifications"], Resolved)) \/
          (failed response <> [] /\
           run = ([Multicast p;
                   LogWarn "Some notifications failed"
                     (List.map error_message (failed response))], Resolved)))))).
Proof.
  intros Echat run targets. subst run targets.
  unfold sendMessageNotification. rewrite Echat.
  destruct (targetsOf chat message) as [|u0 targets']; [left; auto|].
  right.
  destruct (tokensOf users (u0 :: targets')) as [|t0 tokens'].
  { left. split; [discriminate | auto]. }
  right. split; [discriminate|]. split; [discriminate|].
  set (payload := {| tokens := t0 :: tokens';
                     title := notificationTitle chat;
                     body := notificationBody message;
                     data_chatId := chatId;
                     data_messageId := messageId;
                     data_type := default "text" (msg_type message) |}).
  exists payload.
  split; [reflexivity|]. split; [reflexivity|]. split; [reflexivity|].
  destruct (sendEachForMulticast payload) as [response|]; [right | left; auto].
  exists response. split; [reflexivity|]. unfold failed.
  destruct (List.filter _ (responses response)) as [|f fs];
    [left; auto | right; split; [discriminate | reflexivity]].
Qed.

(** C7: the targets are the participants other than the sender and the
    users who muted the chat; at most one multicast is sent, none when the
    chat is missing, the targets are empty or they have no token, and
    otherwise one whose tokens are the registered tokens of the targets,
    each once; when the service answers, failed deliveries are logged as a
    warning and the function completes, and the trigger completes in every
    case. *)
Theorem fanout_spec (chatId messageId : string) (message : MessageData) :
  let run :=
    sendMessageNotification chats users sendEachForMulticast chatId messageId message in
  let trace := fst run in
  (List.length (sentPayloads trace) <= 1)%nat /\
  (chats !! chatId = None -> trace = []) /\
  (forall chat, chats !! chatId = Some chat ->
     let targets := targetsOf chat message in
     (forall u, In u targets <->
                In u (default [] (participants chat)) /\ u <> senderId message
                /\ ~ In u (default [] (mutedBy chat))) /\
     (targets = [] \/ tokensOf users targets = [] -> sentPayloads trace = []) /\
     (targets <> [] -> tokensOf users targets <> [] ->
      exists p, sentPayloads trace = [p] /\ tokens p = tokensOf users targets
                /\ data_chatId p = chatId /\ data_messageId p = messageId) /\
     List.NoDup (tokensOf users targets) /\
     (forall t, In t (tokensOf users targets) <-> registered users targets t)) /\
  (forall p response,
     sentPayloads trace = [p] -> sendEachForMulticast p = Some response ->
     snd run = Resolved /\
     (failed response <> [] ->
      In (LogWarn "Some notifications failed"
            (List.map error_message (failed response))) trace)) /\
  snd (onMessageCreated chats users sendEachForMulticast chatId messageId
         (Some message)) = Resolved.
Proof.
  intros run trace.
  assert (Hnochat : chats !! chatId = None -> run = ([], Resolved)).
  { intros H. subst run. unfold sendMessageNotification. rewrite H. reflexivity. }
  subst trace run.
  split; [|split; [|split; [|split]]].
  - destruct (chats !! chatId) as [chat|] eqn:Echat.
    + destruct (run_cases chatId messageId message chat Echat)
        as [[_ H] | [[_ [_ H]] | [_ [_ [p [_ [_ [_ H]]]]]]]].
      * rewrite H. simpl. lia.
      * rewrite H. simpl. lia.
      * destruct H as [[_ H] | [response [_ [[_ H] | [_ H]]]]];
          rewrite H; simpl; lia.
    + rewrite (Hnochat eq_refl). simpl. lia.
  - intros H. rewrite (Hnochat H). reflexivity.
  - intros chat Echat targets.
    split; [intros u; apply targetsOf_spec|].
    destruct (tokensOf_spec targets) as [Hnd Hin].
    split; [|split; [|split; [exact Hnd | exact Hin]]].
    + intros Hempty.
      destruct (run_cases chatId messageId message chat Echat)
        as [[_ H] | [[_ [_ H]] | [Ht [Hk _]]]].
      * rewrite H. reflexivity.
      * rewrite H. reflexivity.
      * destruct Hempty; contradiction.
    + intros Ht Hk.
      destruct (run_cases chatId messageId message chat Echat)
        as [[H _] | [[_ [H _]] | [_ [_ [p [Hp [Hc [Hm H]]]]]]]];
        [contradiction | contradiction |].
      exists p. split; [|auto].
      destruct H as [[_ H] | [response [_ [[_ H] | [_ H]]]]];
        rewrite H; reflexivity.
  - intros p response Hsent Hresp.
    destruct (chats !! chatId) as [chat|] eqn:Echat.
    + destruct (run_cases chatId messageId message chat Echat)
        as [[_ H] | [[_ [_ H]] | [_ [_ [p' [_ [_ [_ H]]]]]]]].
      * rewrite H in Hsent. discriminate.
      * rewrite H in Hsent. discriminate.
      * assert (Hpp : p' = p).
        { destruct H as [[_ H] | [r [_ [[_ H] | [_ H]]]]];
            rewrite H in Hsent;
            inversion Hsent; reflexivity. }
        subst p'.
        destruct H as [[Hn _] | [r [Hr [[Hf H] | [Hf H]]]]].
        -- rewrite Hn in Hresp. discriminate.
        -- rewrite Hr in Hresp. inversion Hresp; subst r.
           rewrite H. split; [reflexivity|].
           intros Hne. contradiction.
        -- rewrite Hr in Hresp. inversion Hresp; subst r.
           rewrite H. split; [reflexivity|].
           intros _. right; left; reflexivity.
    + rewrite (Hnochat eq_refl) in Hsent. discriminate.
  - unfold onMessageCreated.
    destruct (sendMessageNotification _ _ _ _ _ _) as [tr [|]]; reflexivity.
Qed.
End FanOut.

End NotificationFacts.

Module NotificationExamples.
Import Notifications NotificationFacts.

(** The body of the notification: the text when the message has one;
    otherwise the number of attachments, [attachment] in the singular for
    one; otherwise the fixed line. *)
Lemma notificationBody_cases (message : MessageData) :
  notificationBody message
  = match text message, attachments message with
    | Some t, _ => t
    | None, Some (a :: rest) =>
        pretty (N.of_nat (List.length (a :: rest))) +:+ " attachment"
          +:+ (match rest with [] => "" | _ :: _ => "s" end)
    | None, _ => "New activity in your chat."
    end.
Proof.
  unfold notificationBody. destruct (text message); [reflexivity|].
  destruct (attachments message) as [[|a [|b rest]]|]; reflexivity.
Qed.

Lemma notificationBody_counts (a b : AttachmentRef) (sender : string) :
  notificationBody {| senderId := sender; text := None; msg_type := Some "image";
                      attachments := Some [a] |} = "1 attachment"
  /\ notificationBody {| senderId := sender; text := None; msg_type := Some "image";
                         attachments := Some [a; b] |} = "2 attachments"
  /\ notificationBody {| senderId := sender; text := None; msg_type := None;
                         attachments := Some [] |} = "New activity in your chat.".
Proof. repeat split; vm_compute; reflexivity. Qed.

(** The multicast for a message of two pictures. *)
Lemma payload_of_attachments :
  sentPayloads
    (fst (sendMessageNotification chats1 users1 partialDelivery "c1" "m2" message2))
  = [{| tokens := ["t1"; "t2"]; title := "New message"; body := "2 attachments";
        data_chatId := "c1"; data_messageId := "m2"; data_type := "image" |}].
Proof. vm_compute. reflexivity. Qed.

Lemma fanout_spec_witness :
  List.map tokens
    (sentPayloads
       (fst (sendMessageNotification chats1 users1 partialDelivery "c1" "m1" message1)))
  = [["t1"; "t2"]]
  /\ In (LogWarn "Some notifications failed" [Some "unregistered"])
       (fst (sendMessageNotification chats1 users1 partialDelivery "c1" "m1" message1)).
Proof.
  destruct (fanout_spec chats1 users1 partialDelivery "c1" "m1" message1)
    as [_ [_ [Hchat [Hresp _]]]].
  destruct (Hchat chat1 eq_refl) as [_ [_ [Hone _]]].
  destruct Hone as [p [Hp [Htok _]]]; [discriminate | discriminate |].
  split.
  - rewrite Hp. simpl. rewrite Htok. reflexivity.
  - destruct (Hresp p _ Hp eq_refl) as [_ Hwarn].
    apply Hwarn. discriminate.
Defined.

End NotificationExamples.

(** ** The direct-message chat identity *)

Module SharedFacts.
Import Shared.

Lemma sort_pair (a b : string) :
  Js.sort defaultCompare [a; b] = if String.leb a b then [a; b] else [b; a].
Proof.
  simpl. unfold defaultCompare, String.leb.
  destruct (String.compare a b); reflexivity.
Qed.

(** C8: the identity does not depend on the order of the two ids, and it is
    the smaller id, the separator, and the larger id. *)
Theorem dmChatId_symmetric (a b : string) :
  dmChatId a b = dmChatId b a /\
  dmChatId a b
  = (if String.leb a b then a else b) +:+ "__" +:+ (if String.leb a b then b else a) /\
  String.leb (if String.leb a b then a else b) (if String.leb a b then b else a) = true.
Proof.
  assert (E' : String.compare b a = CompOpp (String.compare a b))
    by apply String.compare_antisym.
  unfold dmChatId. rewrite !sort_pair. unfold String.leb.
  destruct (String.compare a b) eqn:E; simpl in E'; rewrite ?E'; simpl.
  - rewrite E. apply String.compare_eq_iff in E. subst b.
    repeat split; reflexivity.
  - rewrite E. repeat split; reflexivity.
  - repeat split; reflexivity.
Qed.

End SharedFacts.

(** * Further properties *)

(** ** More on the stable sort *)

Module SortExtras.

Section Keyed.
Context {A : Type}.
Variable key : A -> Z.

Let cmp (a b : A) : Z := key a - key b.
Let le (a b : A) : Prop := key a <= key b.

(** Filtering commutes with inserting into a sorted sequence. *)
Lemma filter_insert (p : A -> bool) (x : A) (l : list A) :
  StronglySorted le l ->
  List.filter p (Js.insert cmp x l)
  = if p x then Js.insert cmp x (List.filter p l) else List.filter p l.
Proof.
  induction 1 as [|y l Hs IH Hall]; simpl.
  - destruct (p x); reflexivity.
  - destruct (Z.leb_spec (cmp x y) 0) as [Hle | Hgt]; simpl.
    + destruct (p x) eqn:Ex; [|reflexivity].
      symmetry. apply (SortFacts.insert_head key).
      assert (Hx : List.Forall (fun z => key x <= key z) (y :: l)).
      { constructor; [unfold cmp in Hle; lia|].
        eapply List.Forall_impl; [|exact Hall].
        intros z Hz. unfold le, cmp in *. lia. }
      apply List.Forall_forall. intros z Hz.
      change (y :: l) with ([y] ++ l)%list in Hx.
      rewrite List.Forall_forall in Hx. apply Hx.
      pose proof (proj1 (List.filter_In p z (y :: l))) as Hf.
      simpl in Hf. apply Hf. exact Hz.
    + rewrite IH. destruct (p y) eqn:Ey; destruct (p x) eqn:Ex; simpl;
        try reflexivity.
      destruct (Z.leb_spec (cmp x y) 0); [lia | reflexivity].
Qed.

Lemma filter_sort (p : A -> bool) (l : list A) :
  List.filter p (Js.sort cmp l) = Js.sort cmp (List.filter p l).
Proof.
  induction l as [|x l IH]; simpl; [reflexivity|].
  rewrite filter_insert by apply (SortFacts.sort_sorted key).
  rewrite IH. destruct (p x); reflexivity.
Qed.
End Keyed.

Section Ext.
Context {A : Type}.
Variables cmp1 cmp2 : A -> A -> Z.

(** Two comparators that agree on the elements sort them alike. *)
Lemma insert_ext (x : A) (l : list A) :
  (forall y, In y l -> cmp1 x y = cmp2 x y) ->
  Js.insert cmp1 x l = Js.insert cmp2 x l.
Proof.
  induction l as [|y l IH]; simpl; intros H; [reflexivity|].
  rewrite (H y (or_introl eq_refl)).
  destruct (cmp2 x y <=? 0); [reflexivity|].
  f_equal. apply IH. intros z Hz. apply H. right; exact Hz.
Qed.
End Ext.

Lemma sort_in {A : Type} (cmp : A -> A -> Z) (x : A) (l : list A) :
  In x (Js.sort cmp l) <-> In x l.
Proof.
  assert (Hins : forall y l', In x (Js.insert cmp y l') <-> x = y \/ In x l').
  { intros y l'. induction l' as [|z l' IH]; simpl.
    - intuition auto.
    - destruct (cmp y z <=? 0); simpl; [intuition auto|].
      rewrite IH. intuition auto. }
  induction l as [|y l IH]; simpl; [tauto|].
  rewrite Hins, IH. intuition auto.
Qed.

Lemma sort_ext {A : Type} (cmp1 cmp2 : A -> A -> Z) (l : list A) :
  (forall x y, In x l -> In y l -> cmp1 x y = cmp2 x y) ->
  Js.sort cmp1 l = Js.sort cmp2 l.
Proof.
  induction l as [|x l IH]; simpl; intros H; [reflexivity|].
  rewrite IH by (intros a b Ha Hb; apply H; right; assumption).
  apply insert_ext. intros y Hy. apply H; [left; reflexivity|].
  right. apply (sort_in cmp2). exact Hy.
Qed.

End SortExtras.

(** ** More on the merge engine *)

Module MessageExtras.
Import Messages MessageSession MessageFacts.

(** *** Tables *)

Lemma delete_absent {V : Type} (k : string) (m : list (string * V)) :
  ~ In k (Js.keys m) -> Js.delete k m = m.
Proof.
  induction m as [|[k' v'] m IH]; simpl; intros H; [reflexivity|].
  destruct (String.eqb_spec k' k) as [-> | Hne].
  - exfalso. apply H. left; reflexivity.
  - f_equal. apply IH. intros Hin. apply H. right; exact Hin.
Qed.

Lemma delete_set_fresh {V : Type} (k : string) (v : V) (m : list (string * V)) :
  ~ In k (Js.keys m) -> Js.delete k (Js.set k v m) = m.
Proof.
  induction m as [|[k' v'] m IH]; simpl; intros H.
  - rewrite String.eqb_refl. reflexivity.
  - destruct (String.eqb_spec k' k) as [-> | Hne].
    + exfalso. apply H. left; reflexivity.
    + simpl. destruct (String.eqb_spec k' k); [contradiction|].
      f_equal. apply IH. intros Hin. apply H. right; exact Hin.
Qed.

Lemma in_delete {V : Type} (k k0 : string) (v : V) (m : list (string * V)) :
  In (k0, v) (Js.delete k m) <-> In (k0, v) m /\ k0 <> k.
Proof.
  induction m as [|[k' v'] m IH]; simpl; [tauto|].
  destruct (String.eqb_spec k' k) as [-> | Hne]; simpl.
  - rewrite IH. split.
    + intros [H1 H2]. auto.
    + intros [[H1 | H1] H2]; [inversion H1; subst; contradiction | auto].
  - rewrite IH. split.
    + intros [H | [H1 H2]]; [inversion H; subst; auto | auto].
    + intros [[H | H] H2]; auto.
Qed.

Lemma keys_delete {V : Type} (k k0 : string) (m : list (string * V)) :
  In k0 (Js.keys (Js.delete k m)) <-> In k0 (Js.keys m) /\ k0 <> k.
Proof.
  induction m as [|[k' v'] m IH]; simpl; [tauto|].
  destruct (String.eqb_spec k' k) as [-> | Hne]; simpl.
  - rewrite IH. split; [tauto|]. intros [[H | H] H2]; [congruence | auto].
  - rewrite IH. split; [|tauto].
    intros [H | [H1 H2]]; [subst; auto | auto].
Qed.

Lemma delete_NoDup {V : Type} (k : string) (m : list (string * V)) :
  List.NoDup (Js.keys m) -> List.NoDup (Js.keys (Js.delete k m)).
Proof.
  induction m as [|[k' v'] m IH]; simpl; intros H; [constructor|].
  inversion H as [|? ? Hnotin Hnd]; subst.
  destruct (String.eqb_spec k' k) as [-> | Hne]; simpl; [apply IH, Hnd|].
  constructor; [|apply IH, Hnd].
  rewrite keys_delete. tauto.
Qed.

(** *** A failed send *)

Lemma without_absent (i : string) (l : list MessageRecord) :
  ~ In i (ids l) ->
  List.filter (fun message => negb (String.eqb (messageId message) i)) l = l.
Proof.
  intros H. apply filter_all. intros x Hx.
  destruct (String.eqb_spec (messageId x) i) as [Heq | Hne]; [|reflexivity].
  exfalso. apply H. rewrite <- Heq. apply List.in_map. exact Hx.
Qed.

Lemma normalize_ascending_id (l : list MessageRecord) :
  ascending l -> normalizeMessages l = l.
Proof. apply (SortFacts.sort_sorted_id instant). Qed.

Lemma without_prepended (m : MessageRecord) (prev : list MessageRecord) :
  ascending prev -> ~ In (messageId m) (ids prev) ->
  List.filter (fun message => negb (String.eqb (messageId message) (messageId m)))
    (normalizeMessages (prev ++ [m])) = prev.
Proof.
  intros Hasc Hfresh. unfold normalizeMessages, compareFn.
  rewrite (SortExtras.filter_sort instant).
  rewrite List.filter_app. simpl. rewrite String.eqb_refl. simpl.
  rewrite List.app_nil_r, (without_absent _ _ Hfresh).
  apply normalize_ascending_id, Hasc.
Qed.

(** X1: a send that fails is rolled back exactly.  When the sequence is in
    ascending order and does not show the id yet, nor the side table, then
    [prependOptimistic] followed by [settleOptimistic] with null gives the
    state back as it was: the sequence, the side table and every flag. *)
Theorem failed_send_restores_state (m : MessageRecord) (mergeReadBy : bool)
    (st : State) :
  ascending (messages st) ->
  ~ In (messageId m) (ids (messages st)) ->
  ~ In (messageId m) (Js.keys (optimisticRef st)) ->
  settleOptimistic (messageId m) None mergeReadBy (prependOptimistic m st) = st.
Proof.
  intros Hasc Hfresh Htable. destruct st as [ms ld lm hm o1 o2 tbl].
  unfold settleOptimistic, prependOptimistic, setMessages, setOptimistic,
    settleMessages. simpl in *.
  rewrite (delete_set_fresh _ _ _ Htable), (without_prepended _ _ Hasc Hfresh).
  reflexivity.
Qed.

Lemma failed_send_restores_state_witness :
  settleOptimistic "optimistic-a1" None false
    (prependOptimistic m_opt (onSnapshot 40 [doc "msg-1" (ADate 30)] subscribed))
  = onSnapshot 40 [doc "msg-1" (ADate 30)] subscribed.
Proof.
  apply (failed_send_restores_state m_opt false
           (onSnapshot 40 [doc "msg-1" (ADate 30)] subscribed)).
  - repeat constructor.
  - simpl. intros [H | []]. discriminate.
  - simpl. intros [].
Defined.

(** *** Loading older pages *)

Lemma ids_live (docs : list QueryDocumentSnapshot) :
  ids (List.map toMessageRecord docs) = List.map doc_id docs.
Proof. unfold ids. rewrite List.map_map. reflexivity. Qed.

Lemma mergeOlder_ids (docs : list QueryDocumentSnapshot) (prev : list MessageRecord) :
  List.NoDup (ids (mergeOlder docs prev)) /\
  forall i, In i (ids (mergeOlder docs prev)) <->
            In i (ids prev) \/ In i (List.map doc_id docs).
Proof.
  unfold mergeOlder.
  destruct (dedupe_spec (normalizeMessages (prev ++ List.map toMessageRecord docs)))
    as [Hnd [Hk _]].
  split.
  - rewrite (ids_values_keyed _ Hk). exact Hnd.
  - intros i. rewrite ids_dedupe_in, ids_normalize_in. unfold ids at 1.
    rewrite List.map_app, List.in_app_iff. fold (ids prev).
    fold (ids (List.map toMessageRecord docs)). rewrite ids_live. reflexivity.
Qed.

Lemma mergeOlder_keeps (docs : list QueryDocumentSnapshot) (prev : list MessageRecord)
    (m : MessageRecord) :
  In m (prev ++ List.map toMessageRecord docs) ->
  (forall x, In x (prev ++ List.map toMessageRecord docs) ->
             messageId x = messageId m -> x = m) ->
  In m (mergeOlder docs prev).
Proof.
  intros Hin Huniq. unfold mergeOlder. apply values_dedupe_in.
  apply lastOfId_unique.
  - apply (proj2 (normalize_in _ _)). exact Hin.
  - intros x Hx. apply Huniq. apply (proj1 (normalize_in _ _)). exact Hx.
Qed.

Lemma loadMore_runs (chatId : string) (pageSize : Z) (d : QueryDocumentSnapshot)
    (ds : list QueryDocumentSnapshot) (st : State) :
  canLoadMore chatId st = true ->
  loadMore chatId pageSize (Some (d :: ds)) st
  = {| messages := mergeOlder (d :: ds) (messages st); loading := loading st;
       loadingMore := false;
       hasMore := if Z.of_nat (List.length (d :: ds)) <? pageSize then false
                  else hasMore st;
       oldestSnapshotRef := Some (List.last (d :: ds) d);
       latestSnapshotRef := latestSnapshotRef st;
       optimisticRef := optimisticRef st |}.
Proof.
  unfold canLoadMore, loadMore. intros H.
  destruct (_ || _); [discriminate | reflexivity].
Qed.

(** X2: a page of older messages that [loadMore] merges leaves one entry per
    id; the ids shown are those shown before and those of the page; an entry
    of the sequence or of the page that is the only one of its id is shown;
    and the side table of pending entries is not touched. *)
Theorem loadMore_merges_page (chatId : string) (pageSize : Z)
    (docs : list QueryDocumentSnapshot) (st : State) :
  canLoadMore chatId st = true -> docs <> [] ->
  let st' := loadMore chatId pageSize (Some docs) st in
  List.NoDup (ids (messages st')) /\
  (forall i, In i (ids (messages st')) <->
             In i (ids (messages st)) \/ In i (List.map doc_id docs)) /\
  (forall m, In m (messages st ++ List.map toMessageRecord docs) ->
             (forall x, In x (messages st ++ List.map toMessageRecord docs) ->
                        messageId x = messageId m -> x = m) ->
             In m (messages st')) /\
  optimisticRef st' = optimisticRef st.
Proof.
  intros Hcan Hdocs st'. subst st'. destruct docs as [|d ds]; [contradiction|].
  rewrite (loadMore_runs _ _ _ _ _ Hcan). simpl messages. simpl optimisticRef.
  destruct (mergeOlder_ids (d :: ds) (messages st)) as [Hnd Hin].
  split; [exact Hnd|]. split; [exact Hin|]. split; [|reflexivity].
  apply mergeOlder_keeps.
Qed.

Lemma loadMore_merges_page_witness :
  List.NoDup
    (ids (messages (loadMore "c1" 1 (Some [doc "msg-0" (ADate 5)])
                      (onSnapshot 1 [doc "msg-1" (ADate 30)] subscribed)))).
Proof.
  refine (proj1 (loadMore_merges_page "c1" 1 [doc "msg-0" (ADate 5)]
                   (onSnapshot 1 [doc "msg-1" (ADate 30)] subscribed) _ _)).
  - reflexivity.
  - discriminate.
Defined.

Lemma loadMore_guarded (chatId : string) (pageSize : Z)
    (fetched : option (list QueryDocumentSnapshot)) (st : State) :
  canLoadMore chatId st = false -> loadMore chatId pageSize fetched st = st.
Proof.
  unfold canLoadMore, loadMore. intros H.
  destruct (_ || _); [reflexivity | discriminate].
Qed.

(** X3: [loadMore] fetches nothing once the chat is known to be exhausted.
    After an emission without documents, and after a page shorter than
    [pageSize] (an empty one included), every further [loadMore] leaves the
    state as it is, whatever the query would answer; so does a query that
    fails. *)
Theorem loadMore_stops_when_exhausted (chatId : string) (pageSize : Z)
    (fetched : option (list QueryDocumentSnapshot)) (st : State) :
  (forall emittedPageSize,
     loadMore chatId pageSize fetched (onSnapshot emittedPageSize [] st)
     = onSnapshot emittedPageSize [] st) /\
  (forall docs, Z.of_nat (List.length docs) < pageSize ->
     canLoadMore chatId st = true ->
     loadMore chatId pageSize fetched (loadMore chatId pageSize (Some docs) st)
     = loadMore chatId pageSize (Some docs) st) /\
  loadMore chatId pageSize None st = st.
Proof.
  split; [|split].
  - intros emitted. apply loadMore_guarded. unfold canLoadMore. simpl.
    destruct (String.eqb chatId ""), (loadingMore st); reflexivity.
  - intros docs Hshort Hcan. apply loadMore_guarded.
    destruct docs as [|d ds].
    + unfold loadMore, canLoadMore in *.
      destruct (_ || _); [discriminate|]. simpl.
      destruct (String.eqb chatId ""); reflexivity.
    + rewrite (loadMore_runs _ _ _ _ _ Hcan). unfold canLoadMore.
      cbn [hasMore loadingMore oldestSnapshotRef].
      destruct (Z.ltb_spec (Z.of_nat (List.length (d :: ds))) pageSize)
        as [_ | Hge]; [|lia].
      destruct (String.eqb chatId ""); reflexivity.
  - unfold loadMore. destruct (_ || _); reflexivity.
Qed.

Lemma loadMore_stops_when_exhausted_witness :
  loadMore "c1" 40 (Some [doc "msg-9" (ADate 1)])
    (loadMore "c1" 40 (Some [doc "msg-0" (ADate 5)])
       (onSnapshot 1 [doc "msg-1" (ADate 30)] subscribed))
  = loadMore "c1" 40 (Some [doc "msg-0" (ADate 5)])
      (onSnapshot 1 [doc "msg-1" (ADate 30)] subscribed).
Proof.
  apply (proj1 (proj2 (loadMore_stops_when_exhausted "c1" 40
                         (Some [doc "msg-9" (ADate 1)])
                         (onSnapshot 1 [doc "msg-1" (ADate 30)] subscribed)))).
  - simpl. lia.
  - reflexivity.
Defined.

(** *** One entry per id *)

Lemma ids_NoDup_perm (l l' : list MessageRecord) :
  Permutation l l' -> List.NoDup (ids l) -> List.NoDup (ids l').
Proof. intros H. apply Permutation_NoDup, ids_perm, H. Qed.

Lemma ids_NoDup_normalize (l : list MessageRecord) :
  List.NoDup (ids l) -> List.NoDup (ids (normalizeMessages l)).
Proof. apply ids_NoDup_perm, Permutation_sym, normalize_perm. Qed.

Lemma findIndex_None_absent (i : string) (l : list MessageRecord) :
  findIndex (fun message => String.eqb (messageId message) i) l = None ->
  ~ In i (ids l).
Proof.
  intros H Hin. apply findIndex_None in H.
  unfold ids in Hin. apply List.in_map_iff in Hin. destruct Hin as [m [Hm Hin]].
  assert (Hf : In m (List.filter (fun message => String.eqb (messageId message) i) l)).
  { apply List.filter_In. split; [exact Hin|]. rewrite Hm. apply String.eqb_refl. }
  rewrite H in Hf. contradiction.
Qed.

Lemma settle_unique (optimisticId : string) (next : option MessageRecord)
    (prev : list MessageRecord) :
  List.NoDup (ids prev) ->
  List.NoDup (ids (settleMessages optimisticId next true prev)).
Proof.
  intros Hnd. unfold settleMessages.
  destruct next as [final|]; [|apply ids_NoDup_filter, Hnd].
  set (merged := List.filter _ (List.filter _ prev)).
  assert (Hm : List.NoDup (ids merged))
    by (unfold merged; apply ids_NoDup_filter, ids_NoDup_filter, Hnd).
  destruct (findIndex _ merged) as [i|] eqn:Ei.
  - destruct (findIndex_Some _ _ _ Ei) as [x [Hx Hp]]. rewrite Hx.
    apply ids_NoDup_normalize.
    rewrite (ids_assign _ _ x); [exact Hm | exact Hx|].
    simpl. symmetry. apply String.eqb_eq, Hp.
  - apply ids_NoDup_normalize. unfold ids. rewrite List.map_app. simpl.
    apply (Permutation_NoDup (l := messageId final :: List.map messageId merged)).
    + apply Permutation_cons_append.
    + constructor; [apply (findIndex_None_absent _ _ Ei) | exact Hm].
Qed.

Lemma keyed_set (k : string) (v : MessageRecord) (d : list (string * MessageRecord)) :
  messageId v = k -> keyed d -> keyed (Js.set k v d).
Proof.
  intros Hv Hk k0 v0 Hin. apply TableFacts.in_set in Hin.
  destruct Hin as [[-> ->] | Hin]; [exact Hv | apply (Hk _ _ Hin)].
Qed.

Lemma keyed_delete (k : string) (d : list (string * MessageRecord)) :
  keyed d -> keyed (Js.delete k d).
Proof. intros Hk k0 v0 Hin. apply in_delete in Hin. apply (Hk _ _ (proj1 Hin)). Qed.

Lemma wellKeyed_run (a : Action) (st : State) :
  wellKeyed st -> admissible a st ->
  exists st', run a st = Some st' /\ wellKeyed st'.
Proof.
  intros [Hids [Hk Hnd]] Hadm. destruct a as [ps docs | c ps fetched | m | i next | i patch];
    simpl in *.
  - eexists. split; [reflexivity|].
    destruct docs as [|d ds]; (split; [|split; assumption]); simpl.
    + rewrite (ids_values_keyed _ Hk). exact Hnd.
    + apply (mergeLive_spec (d :: ds) (optimisticRef st) (messages st)).
  - eexists. split; [reflexivity|].
    unfold loadMore. destruct (_ || _); [repeat split; assumption|].
    destruct fetched as [[|d ds]|]; (split; [|split; assumption]); simpl;
      try assumption.
    apply (mergeOlder_ids (d :: ds) (messages st)).
  - eexists. split; [reflexivity|].
    destruct Hadm as [Hfresh _]. split; [|split]; simpl.
    + apply ids_NoDup_normalize. unfold ids. rewrite List.map_app. simpl.
      apply (Permutation_NoDup (l := messageId m :: List.map messageId (messages st))).
      * apply Permutation_cons_append.
      * constructor; assumption.
    + apply keyed_set; [reflexivity | exact Hk].
    + apply TableFacts.set_NoDup, Hnd.
  - eexists. split; [reflexivity|].
    split; [|split]; simpl.
    + apply settle_unique, Hids.
    + apply keyed_delete, Hk.
    + apply delete_NoDup, Hnd.
  - destruct Hadm as [Hpatch Hname]. unfold updateOptimistic.
    destruct (Js.get i (optimisticRef st)) as [existing|] eqn:E.
    + eexists. split; [reflexivity|].
      assert (Hid : messageId (applyPatch existing patch) = i).
      { simpl. rewrite Hpatch. simpl. apply Hk, TableFacts.get_Some_in, E. }
      split; [|split]; simpl.
      * replace (ids (List.map _ (messages st))) with (ids (messages st)); [exact Hids|].
        unfold ids. rewrite List.map_map. apply List.map_ext. intros x.
        destruct (String.eqb_spec (messageId x) i) as [Hx | Hx]; [|reflexivity].
        rewrite Hx. symmetry. exact Hid.
      * apply keyed_set; [exact Hid | exact Hk].
      * apply TableFacts.set_NoDup, Hnd.
    + destruct Hname as [Hname | Hname]; [contradiction|].
      rewrite Hname. exists st. split; [reflexivity|]. repeat split; assumption.
Qed.

(** X4: the calls a component makes keep one entry per id.  From the state
    at subscription, any sequence of emissions, answers to [loadMore],
    [prependOptimistic] under an id that is not shown yet and is not
    [__proto__], [settleOptimistic] with null or with [{ mergeReadBy: true }],
    and [updateOptimistic] with a patch that does not carry [messageId], for
    a pending id or an id that is no name of [Object.prototype], runs to a
    state of message records in which the visible sequence holds no id twice
    and every entry of the side table stands under its own id. *)
Theorem session_keeps_ids_unique (actions : list Action) :
  allAdmissible actions subscribed ->
  exists st, runAll actions subscribed = Some st /\ wellKeyed st.
Proof.
  assert (H : forall st, wellKeyed st -> allAdmissible actions st ->
                         exists st', runAll actions st = Some st' /\ wellKeyed st').
  { induction actions as [|a rest IH]; intros st Hw Hadm; simpl.
    - exists st. split; [reflexivity | exact Hw].
    - destruct Hadm as [Ha Hrest].
      destruct (wellKeyed_run a st Hw Ha) as [st' [Hrun Hw']].
      rewrite Hrun in *. apply IH; assumption. }
  apply H. repeat split; simpl; try constructor. intros k v [].
Qed.

Lemma session_keeps_ids_unique_witness :
  exists st,
    runAll [Prepend m_opt; Update "optimistic-a1" noPatch;
            Emit 40 [doc "msg-1" (ATimestamp 0 30000000)];
            Settle "optimistic-a1" (Some m_final);
            Update "optimistic-zz" noPatch] subscribed = Some st
    /\ wellKeyed st.
Proof.
  apply (session_keeps_ids_unique
           [Prepend m_opt; Update "optimistic-a1" noPatch;
            Emit 40 [doc "msg-1" (ATimestamp 0 30000000)];
            Settle "optimistic-a1" (Some m_final);
            Update "optimistic-zz" noPatch]).
  vm_compute. repeat split; try discriminate; try tauto.
Defined.

(** *** Pending entries and emissions *)

Lemma pending_unique (st : State) (k : string) (m : MessageRecord)
    (docs : list QueryDocumentSnapshot) :
  wellKeyed st -> Js.get k (optimisticRef st) = Some m ->
  ~ In k (List.map doc_id docs) ->
  forall x, In x (List.map toMessageRecord docs ++ Js.values (optimisticRef st)) ->
            messageId x = messageId m -> x = m.
Proof.
  intros [_ [Hk Hnd]] Hget Hdocs x Hx Hid.
  assert (Hm : messageId m = k) by apply (Hk _ _ (TableFacts.get_Some_in _ _ _ Hget)).
  apply List.in_app_iff in Hx. destruct Hx as [Hx | Hx].
  - exfalso. apply Hdocs. rewrite <- ids_live, <- Hm, <- Hid.
    apply List.in_map. exact Hx.
  - unfold Js.values in Hx. apply List.in_map_iff in Hx.
    destruct Hx as [[k' v] [Hv Hx]]. simpl in Hv. subst v.
    assert (Hk' : k' = k) by (rewrite <- (Hk _ _ Hx), Hid; exact Hm).
    subst k'. apply (TableFacts.in_get_Some _ _ _ Hnd) in Hx.
    congruence.
Qed.

(** X5: a pending message is not lost to the subscription.  In a state of
    one entry per key, an entry of the side table is in the visible sequence
    after every emission that does not carry its id, empty or not, and it
    stays in the side table; a visible pending entry also stays visible
    through [loadMore], whatever page comes back without its id. *)
Theorem pending_survives_emissions (st : State) (k : string) (m : MessageRecord) :
  wellKeyed st -> Js.get k (optimisticRef st) = Some m ->
  (forall pageSize docs, ~ In k (List.map doc_id docs) ->
     In m (messages (onSnapshot pageSize docs st))
     /\ Js.get k (optimisticRef (onSnapshot pageSize docs st)) = Some m) /\
  (In m (messages st) ->
   forall chatId pageSize fetched,
     (forall docs, fetched = Some docs -> ~ In k (List.map doc_id docs)) ->
     In m (messages (loadMore chatId pageSize fetched st))).
Proof.
  intros Hw Hget.
  assert (Hm : messageId m = k).
  { destruct Hw as [_ [Hk _]]. apply (Hk _ _ (TableFacts.get_Some_in _ _ _ Hget)). }
  split.
  - intros pageSize docs Hdocs. destruct docs as [|d ds]; simpl.
    + split; [|exact Hget]. unfold Js.values.
      apply (List.in_map snd _ _ (TableFacts.get_Some_in _ _ _ Hget)).
    + split; [|exact Hget].
      apply (mergeLive_spec (d :: ds) (optimisticRef st) (messages st)).
      * apply List.in_or_app. right. unfold Js.values.
        apply (List.in_map snd _ _ (TableFacts.get_Some_in _ _ _ Hget)).
      * apply (pending_unique st k m (d :: ds) Hw Hget Hdocs).
  - intros Hvis chatId pageSize fetched Hfetched. unfold loadMore.
    destruct (_ || _); [exact Hvis|].
    destruct fetched as [[|d ds]|]; try exact Hvis. simpl.
    apply mergeOlder_keeps; [apply List.in_or_app; left; exact Hvis|].
    intros x Hx Hid. apply List.in_app_iff in Hx. destruct Hx as [Hx | Hx].
    + destruct Hw as [Hids _]. clear - Hids Hx Hvis Hid.
      induction (messages st) as [|y l IH]; [contradiction|].
      inversion Hids as [|? ? Hnotin Hnd]; subst.
      destruct Hx as [-> | Hx]; destruct Hvis as [-> | Hvis]; try reflexivity.
      * exfalso. apply Hnotin. rewrite Hid. apply List.in_map. exact Hvis.
      * exfalso. apply Hnotin. rewrite <- Hid. apply List.in_map. exact Hx.
      * apply IH; assumption.
    + exfalso. apply (Hfetched (d :: ds) eq_refl).
      rewrite <- ids_live, <- Hm, <- Hid. apply List.in_map. exact Hx.
Qed.

Lemma pending_survives_emissions_witness :
  In m_opt (messages (onSnapshot 40 [doc "msg-1" (ADate 30)]
                        (prependOptimistic m_opt subscribed))).
Proof.
  refine (proj1 (proj1 (pending_survives_emissions
                          (prependOptimistic m_opt subscribed) "optimistic-a1" m_opt
                          _ _) 40 [doc "msg-1" (ADate 30)] _)).
  - repeat split; simpl.
    + repeat constructor. intros [].
    + intros k v [H | []]. inversion H; subst. reflexivity.
    + repeat constructor. intros [].
  - reflexivity.
  - simpl. intros [H | []]. discriminate.
Defined.

(** X6: a settled optimistic entry does not come back.  When the entries of
    the side table stand under their own ids, then after [settleOptimistic]
    of an id with the optimistic prefix, with any outcome, no emission that
    does not carry that id shows an entry under it. *)
Theorem settled_id_stays_gone (st : State) (optimisticId : string)
    (next : option MessageRecord) (mergeReadBy : bool) (pageSize : Z)
    (docs : list QueryDocumentSnapshot) :
  keyed (optimisticRef st) ->
  isOptimistic optimisticId = true ->
  ~ In optimisticId (List.map doc_id docs) ->
  ~ In optimisticId
      (ids (messages (onSnapshot pageSize docs
                        (settleOptimistic optimisticId next mergeReadBy st)))).
Proof.
  intros Hk Hopt Hdocs.
  assert (Hpending : ~ In optimisticId
            (ids (Js.values (Js.delete optimisticId (optimisticRef st))))).
  { rewrite (ids_values_keyed _ (keyed_delete _ _ Hk)), keys_delete. tauto. }
  destruct docs as [|d ds]; simpl; [exact Hpending|].
  intros Hin.
  apply (mergeLive_spec (d :: ds)
           (Js.delete optimisticId (optimisticRef st))
           (settleMessages optimisticId next mergeReadBy (messages st))) in Hin.
  destruct Hin as [[_ H] | [H | H]].
  - congruence.
  - apply Hdocs. rewrite <- ids_live. exact H.
  - apply Hpending, H.
Qed.

Lemma settled_id_stays_gone_witness :
  ~ In "optimistic-a1"
      (ids (messages (onSnapshot 40 [doc "msg-1" (ADate 30)]
                        (settleOptimistic "optimistic-a1" None false
                           (prependOptimistic m_opt subscribed))))).
Proof.
  apply (settled_id_stays_gone (prependOptimistic m_opt subscribed)
           "optimistic-a1" None false 40 [doc "msg-1" (ADate 30)]).
  - intros k v [H | []]. inversion H; subst. reflexivity.
  - reflexivity.
  - simpl. intros [H | []]. discriminate.
Defined.

(** *** Merging into a delivered copy *)

Lemma ids_NoDup_unique (l : list MessageRecord) (x y : MessageRecord) :
  List.NoDup (ids l) -> In x l -> In y l -> messageId x = messageId y -> x = y.
Proof.
  induction l as [|z l IH]; [contradiction|].
  intros Hnd Hx Hy Hid. inversion Hnd as [|? ? Hnotin Hnd']; subst.
  destruct Hx as [-> | Hx]; destruct Hy as [-> | Hy]; try reflexivity.
  - exfalso. apply Hnotin. rewrite Hid. apply List.in_map. exact Hy.
  - exfalso. apply Hnotin. rewrite <- Hid. apply List.in_map. exact Hx.
  - apply IH; assumption.
Qed.

Lemma in_assign {A : Type} (i : nat) (v x : A) (l : list A) :
  List.nth_error l i = Some x -> In v (assign i v l).
Proof.
  revert i. induction l as [|z l IH]; intros [|i]; simpl; try discriminate.
  - intros _. left. reflexivity.
  - intros H. right. apply (IH i H).
Qed.

(** X7: settling with [{ mergeReadBy: true }] onto a copy the subscription
    already delivered merges the two.  When the sequence holds one entry per
    id and [existing] is its entry of the persisted id, the result holds
    [{ ...existing, ...next }] as its only entry of that id, and the readers
    of that entry are, without repetition, those of either copy. *)
Theorem settle_merges_delivered_copy (optimisticId : string)
    (final existing : MessageRecord) (prev : list MessageRecord) :
  List.NoDup (ids prev) ->
  In existing prev ->
  messageId existing = messageId final ->
  messageId final <> optimisticId ->
  isOptimistic (messageId final) = false ->
  let out := settleMessages optimisticId (Some final) true prev in
  In (mergeInto existing final) out /\
  (forall x, In x out -> messageId x = messageId final -> x = mergeInto existing final) /\
  exists readers,
    readBy (mergeInto existing final) = Some readers /\
    List.NoDup readers /\
    (forall u, In u readers <->
               In u (default [] (readBy existing)) \/ In u (default [] (readBy final))).
Proof.
  intros Hnd Hin Hid Hne Hopt out.
  assert (Hout : In (mergeInto existing final) out).
  { unfold out, settleMessages.
    set (merged := List.filter _ (List.filter _ prev)).
    assert (Hm : In existing merged).
    { unfold merged. apply List.filter_In. split; [apply List.filter_In; split|].
      - exact Hin.
      - rewrite Hid. destruct (String.eqb_spec (messageId final) optimisticId);
          [contradiction | reflexivity].
      - rewrite Hid, Hopt. rewrite Bool.andb_false_r. reflexivity. }
    destruct (findIndex _ merged) as [i|] eqn:Ei.
    - destruct (findIndex_Some _ _ _ Ei) as [x [Hx Hp]]. rewrite Hx.
      assert (Hxe : x = existing).
      { apply (ids_NoDup_unique merged).
        - unfold merged. apply ids_NoDup_filter, ids_NoDup_filter, Hnd.
        - apply (List.nth_error_In _ _ Hx).
        - exact Hm.
        - rewrite Hid. apply String.eqb_eq, Hp. }
      subst x. apply normalize_in. apply (in_assign _ _ _ _ Hx).
    - exfalso. apply (findIndex_None_absent _ _ Ei).
      rewrite <- Hid. apply List.in_map. exact Hm. }
  split; [exact Hout | split].
  - intros x Hx Hx_id. apply (ids_NoDup_unique out).
    + apply settle_unique, Hnd.
    + exact Hx.
    + exact Hout.
    + exact Hx_id.
  - eexists. split; [reflexivity | split].
    + apply TableFacts.addAll_NoDup. constructor.
    + intros u. unfold Js.setOfList. rewrite TableFacts.addAll_in, List.in_app_iff.
      simpl. tauto.
Qed.

Lemma settle_merges_delivered_copy_witness :
  In (mergeInto m_final m_final)
     (settleMessages "optimistic-a1" (Some m_final) true [m_opt; m_final]).
Proof.
  apply (settle_merges_delivered_copy "optimistic-a1" m_final m_final [m_opt; m_final]).
  - repeat constructor; simpl; intuition discriminate.
  - right. left. reflexivity.
  - reflexivity.
  - discriminate.
  - reflexivity.
Defined.

End MessageExtras.

(** ** Rate limits of many keys *)

Module RateLimiterExtras.
Import RateLimiter RateLimiterRuns.

Lemma assertRateLimit_other (now : Z) (key other : string)
    (options : RateLimiterOptions) (buckets : gmap string Bucket) :
  key <> other ->
  snd (assertRateLimit now key options buckets) !! other = buckets !! other.
Proof.
  intros Hne. unfold assertRateLimit.
  destruct (buckets !! key) as [b|]; simpl.
  - destruct (expiresAt b <=? now); simpl; [apply lookup_insert_ne, Hne|].
    destruct (count b >=? maxRequests options); simpl;
      [reflexivity | apply lookup_insert_ne, Hne].
  - apply lookup_insert_ne, Hne.
Qed.

Lemma assertRateLimit_local (now : Z) (key : string) (options : RateLimiterOptions)
    (buckets buckets' : gmap string Bucket) :
  buckets !! key = buckets' !! key ->
  fst (assertRateLimit now key options buckets)
  = fst (assertRateLimit now key options buckets')
  /\ snd (assertRateLimit now key options buckets) !! key
     = snd (assertRateLimit now key options buckets') !! key.
Proof.
  intros H. unfold assertRateLimit. rewrite <- H.
  destruct (buckets !! key) as [b|] eqn:E; simpl.
  - destruct (expiresAt b <=? now); simpl;
      [split; [reflexivity | rewrite !lookup_insert_eq; reflexivity]|].
    destruct (count b >=? maxRequests options); simpl.
    + split; [reflexivity | congruence].
    + split; [reflexivity | rewrite !lookup_insert_eq; reflexivity].
  - split; [reflexivity | rewrite !lookup_insert_eq; reflexivity].
Qed.

Lemma serve_cons (c : Call) (trace : list Call) (buckets : gmap string Bucket) :
  serve (c :: trace) buckets
  = (fst (assertRateLimit (call_now c) (call_key c) (call_options c) buckets)
       :: fst (serve trace
                 (snd (assertRateLimit (call_now c) (call_key c) (call_options c) buckets))),
     snd (serve trace
            (snd (assertRateLimit (call_now c) (call_key c) (call_options c) buckets)))).
Proof.
  simpl. destruct (assertRateLimit _ _ _ buckets) as [o b']. simpl.
  destruct (serve trace b') as [os b'']. reflexivity.
Qed.

(** X8: the limits of different keys do not interact.  In any run of calls
    on the shared table, the outcomes of the calls made for one key, and the
    window the key ends with, are those of these calls made alone, on any
    table that starts with the same window for the key; the calls for other
    keys, whatever their settings and clock readings, change neither. *)
Theorem keys_are_independent (key : string) (trace : list Call)
    (buckets buckets' : gmap string Bucket) :
  buckets !! key = buckets' !! key ->
  outcomesFor key trace (fst (serve trace buckets))
  = fst (serve (List.filter (forKey key) trace) buckets')
  /\ snd (serve trace buckets) !! key
     = snd (serve (List.filter (forKey key) trace) buckets') !! key.
Proof.
  revert buckets buckets'. induction trace as [|c trace IH]; intros buckets buckets' H.
  - split; [reflexivity | exact H].
  - rewrite serve_cons. unfold outcomesFor. cbn [List.combine List.filter fst snd].
    destruct (forKey key c) eqn:Ec.
    + apply String.eqb_eq in Ec. rewrite serve_cons. cbn [List.map fst snd].
      subst key.
      destruct (assertRateLimit_local (call_now c) (call_key c) (call_options c)
                  buckets buckets' H) as [Ho Hb].
      destruct (IH _ _ Hb) as [IHo IHb].
      split; [|exact IHb]. f_equal; [exact Ho | exact IHo].
    + apply String.eqb_neq in Ec.
      apply IH. rewrite assertRateLimit_other; [exact H | exact Ec].
Qed.

Lemma keys_are_independent_witness :
  outcomesFor "syncUsers:u1" mixedTrace (fst (serve mixedTrace ∅))
  = [Returned; Thrown resourceExhausted].
Proof.
  rewrite (proj1 (keys_are_independent "syncUsers:u1" mixedTrace ∅ ∅ eq_refl)).
  reflexivity.
Defined.

Lemma assertRateLimit_bound (now : Z) (key : string) (options : RateLimiterOptions)
    (buckets : gmap string Bucket) (b : Bucket) :
  (forall b0, buckets !! key = Some b0 ->
              1 <= count b0 <= Z.max 1 (maxRequests options)) ->
  snd (assertRateLimit now key options buckets) !! key = Some b ->
  1 <= count b <= Z.max 1 (maxRequests options).
Proof.
  intros Hb. unfold assertRateLimit.
  destruct (buckets !! key) as [b0|] eqn:E; simpl.
  - specialize (Hb b0 eq_refl).
    destruct (Z.leb_spec (expiresAt b0) now); simpl.
    + rewrite lookup_insert_eq. intros Heq; inversion Heq; subst; simpl. lia.
    + destruct (Z.geb_spec (count b0) (maxRequests options)); simpl.
      * rewrite E. intros Heq; inversion Heq; subst. exact Hb.
      * rewrite lookup_insert_eq. intros Heq; inversion Heq; subst; simpl. lia.
  - rewrite lookup_insert_eq. intros Heq; inversion Heq; subst; simpl. lia.
Qed.

Lemma serve_bound (policy : string -> RateLimiterOptions) (trace : list Call) :
  follows policy trace ->
  forall buckets,
    (forall k b, buckets !! k = Some b ->
                 1 <= count b <= Z.max 1 (maxRequests (policy k))) ->
    forall k b, snd (serve trace buckets) !! k = Some b ->
                1 <= count b <= Z.max 1 (maxRequests (policy k)).
Proof.
  induction trace as [|c trace IH]; intros Hf buckets Hb k b.
  - apply Hb.
  - inversion Hf as [|? ? Hc Hrest]; subst.
    rewrite serve_cons. simpl. apply (IH Hrest). clear k b.
    intros k b. destruct (String.eqb_spec (call_key c) k) as [Hk | Hk].
    + subst k. rewrite Hc. apply assertRateLimit_bound. apply Hb.
    + rewrite assertRateLimit_other; [apply Hb | exact Hk].
Qed.

(** X9: the counter of a window stays within the quota.  When every key is
    always used with one setting, then from [resetRateLimiter] on, after any
    run of calls, the counter of every window in the table is at least 1 and
    at most [maxRequests] of its key, or 1 where [maxRequests] is below 1. *)
Theorem counters_stay_within_quota (policy : string -> RateLimiterOptions)
    (trace : list Call) (buckets : gmap string Bucket) (key : string) (b : Bucket) :
  follows policy trace ->
  snd (serve trace (resetRateLimiter buckets)) !! key = Some b ->
  1 <= count b <= Z.max 1 (maxRequests (policy key)).
Proof.
  intros Hf. apply (serve_bound policy trace Hf).
  intros k b0 H. unfold resetRateLimiter in H. rewrite lookup_empty in H. discriminate.
Qed.

Lemma counters_stay_within_quota_witness :
  match snd (serve mixedTrace (resetRateLimiter spent)) !! "presence:u2" with
  | Some b => 1 <= count b <= 10
  | None => False
  end.
Proof.
  destruct (snd (serve mixedTrace (resetRateLimiter spent)) !! "presence:u2")
    as [b|] eqn:E; [|vm_compute in E; discriminate].
  apply (counters_stay_within_quota endpointPolicy mixedTrace spent "presence:u2" b).
  - repeat constructor.
  - exact E.
Defined.

End RateLimiterExtras.

(** ** The AI services *)

Module AiFacts.
Import Ai.

Lemma in_firstn {A : Type} (n : nat) (x : A) (l : list A) :
  In x (List.firstn n l) -> In x l.
Proof.
  intros H. rewrite <- (List.firstn_skipn n l). apply List.in_or_app. left. exact H.
Qed.

Lemma truthy_nonempty (s : string) : truthy s = true <-> s <> "".
Proof.
  unfold truthy. destruct (String.eqb_spec s ""); simpl; split; congruence.
Qed.

Section Drafts.
Variable isGeminiStub : bool.
Variable trim : string -> string.
Variable stripLeadingBullet : string -> string.
Variable fetchRecentMessages : string -> Z -> option (list TranscriptMessage).
Variable generateContent : string -> string -> option string.

Lemma draft_suggestions (chatId lastMessage : string) (result : GeminiResponse) :
  generateDraftReplies isGeminiStub trim stripLeadingBullet fetchRecentMessages
    generateContent chatId lastMessage = Some result ->
  exists l, suggestions result = Some l /\ usable l.
Proof.
  assert (Hcanned : exists l, suggestions cannedReplies = Some l /\ usable l).
  { eexists. split; [reflexivity|]. split; [discriminate|]. split; [simpl; lia|].
    repeat constructor; discriminate. }
  unfold generateDraftReplies.
  destruct (fetchRecentMessages chatId 10) as [messages|]; [|discriminate].
  destruct isGeminiStub eqn:Estub.
  - intros H; inversion H; subst; clear H. eexists. split; [reflexivity|].
    split; [discriminate|]. split; [simpl; lia|].
    repeat constructor; discriminate.
  - destruct (callGemini false generateContent DRAFT_MODEL _) as [text|];
      [|intros H; inversion H; subst; exact Hcanned].
    set (l := List.firstn 3 _).
    assert (Hl : (List.length l <= 3)%nat) by apply List.firstn_le_length.
    assert (Hne : List.Forall (fun s => s <> "") l).
    { apply List.Forall_forall. intros s Hs. apply in_firstn in Hs.
      apply List.filter_In in Hs. apply truthy_nonempty, Hs. }
    destruct l as [|s l]; intros H; inversion H; subst; [exact Hcanned|].
    eexists. split; [reflexivity|]. split; [discriminate|]. split; assumption.
Qed.

(** X10: [generateDraftReplies] answers with replies that can be shown.
    Whatever Gemini returns, and also when it fails or is not configured, a
    call that resolves carries between one and three suggestions, none of
    them empty; the call rejects only when the recent messages cannot be
    read. *)
Theorem draft_replies_are_usable (chatId lastMessage : string) :
  (generateDraftReplies isGeminiStub trim stripLeadingBullet fetchRecentMessages
     generateContent chatId lastMessage = None
   <-> fetchRecentMessages chatId 10 = None) /\
  (forall result,
     generateDraftReplies isGeminiStub trim stripLeadingBullet fetchRecentMessages
       generateContent chatId lastMessage = Some result ->
     exists l, suggestions result = Some l
               /\ (1 <= List.length l <= 3)%nat
               /\ List.Forall (fun s => s <> "") l).
Proof.
  split.
  - unfold generateDraftReplies.
    destruct (fetchRecentMessages chatId 10) as [messages|]; [|tauto].
    split; [|discriminate].
    destruct isGeminiStub; [discriminate|].
    destruct (callGemini false generateContent DRAFT_MODEL _) as [text|]; [|discriminate].
    destruct (List.firstn 3 _); discriminate.
  - intros result H. destruct (draft_suggestions _ _ _ H) as [l [Hl [Hne [Hlen Hall]]]].
    exists l. split; [exact Hl|]. split; [|exact Hall].
    destruct l; [congruence | simpl in *; lia].
Qed.

End Drafts.

Section Moderation.
Variable isGeminiStub : bool.
Variable toLowerCase : string -> string.
Variable trim : string -> string.
Variable generateContent : string -> string -> option string.

Lemma moderation_restricted (message : string) :
  restricted toLowerCase message ->
  moderateContent isGeminiStub toLowerCase trim generateContent message
  = {| summary := None; suggestions := None; approved := Some false;
       reason := Some "Message contains restricted terms." |}.
Proof.
  intros [term [Hin Hinc]]. unfold moderateContent.
  replace (List.existsb _ blocklist) with true; [reflexivity|].
  symmetry. apply List.existsb_exists. exists term. split; assumption.
Qed.

Lemma moderation_unrestricted (message : string) :
  ~ restricted toLowerCase message ->
  List.existsb (fun term => includes (toLowerCase message) term) blocklist = false.
Proof.
  intros H. destruct (List.existsb _ blocklist) eqn:E; [|reflexivity].
  exfalso. apply H. apply List.existsb_exists in E. exact E.
Qed.

(** X11: the moderation filter blocks by its own list first and fails open.
    A message that holds a term of the blocklist is rejected with the fixed
    reason, whatever Gemini would say.  Any other message is approved when
    Gemini is not configured or its call fails; it is rejected only on an
    answer of Gemini that holds the word block, and that answer is the
    reason.  The verdict is always present, and a reason comes with a
    rejection only. *)
Theorem moderation_fails_open (message : string) :
  let verdict :=
    moderateContent isGeminiStub toLowerCase trim generateContent message in
  (restricted toLowerCase message ->
   approved verdict = Some false
   /\ reason verdict = Some "Message contains restricted terms.") /\
  (~ restricted toLowerCase message ->
   (isGeminiStub = true \/ forall prompt, generateContent MODERATION_MODEL prompt = None) ->
   approved verdict = Some true /\ reason verdict = None) /\
  (~ restricted toLowerCase message -> approved verdict = Some false ->
   isGeminiStub = false /\
   exists prompt text,
     generateContent MODERATION_MODEL prompt = Some text
     /\ includes (toLowerCase text) "block" = true
     /\ reason verdict = Some text) /\
  (approved verdict = Some true \/ approved verdict = Some false) /\
  (reason verdict = None <-> approved verdict = Some true).
Proof.
  intros verdict. split; [|split; [|split]].
  - intros H. unfold verdict. rewrite (moderation_restricted _ H). split; reflexivity.
  - intros H Hfail. unfold verdict, moderateContent.
    rewrite (moderation_unrestricted _ H).
    destruct isGeminiStub; [split; reflexivity|].
    destruct Hfail as [Hstub | Hfail]; [discriminate|].
    unfold callGemini. rewrite Hfail. split; reflexivity.
  - intros H. unfold verdict, moderateContent.
    rewrite (moderation_unrestricted _ H).
    destruct isGeminiStub; [discriminate|].
    unfold callGemini.
    destruct (generateContent MODERATION_MODEL _) as [text|] eqn:E; [|discriminate].
    destruct (includes (toLowerCase text) "block") eqn:Eb; [|discriminate].
    intros _. split; [reflexivity|]. eexists. exists text.
    split; [exact E | split; [exact Eb | reflexivity]].
  - unfold verdict, moderateContent.
    destruct (List.existsb _ blocklist); [split; [right; reflexivity | split; discriminate]|].
    destruct isGeminiStub; [split; [left; reflexivity | split; reflexivity]|].
    destruct (callGemini false generateContent MODERATION_MODEL _) as [text|];
      [|split; [left; reflexivity | split; reflexivity]].
    destruct (includes (toLowerCase text) "block");
      [split; [right; reflexivity | split; discriminate]
      |split; [left; reflexivity | split; reflexivity]].
Qed.

End Moderation.

Lemma draft_replies_are_usable_witness :
  match generateDraftReplies false (fun s => s) (fun s => s) (fun _ _ => Some [])
          (fun _ _ => Some ("Sure" +:+ newline +:+ newline +:+ "On it"))
          "c1" "Lunch?" with
  | Some result =>
      exists l, suggestions result = Some l
                /\ (1 <= List.length l <= 3)%nat
                /\ List.Forall (fun s => s <> "") l
  | None => False
  end.
Proof.
  destruct (generateDraftReplies _ _ _ _ _ _ _) as [result|] eqn:E;
    [|vm_compute in E; discriminate].
  apply (proj2 (draft_replies_are_usable false (fun s => s) (fun s => s)
                  (fun _ _ => Some [])
                  (fun _ _ => Some ("Sure" +:+ newline +:+ newline +:+ "On it"))
                  "c1" "Lunch?") result E).
Defined.

Lemma moderation_fails_open_witness :
  approved (moderateContent false lower (fun s => s) (fun _ _ => None)
              "Buy SPAM today") = Some false
  /\ reason (moderateContent false lower (fun s => s) (fun _ _ => None)
               "Buy SPAM today") = Some "Message contains restricted terms.".
Proof.
  apply (proj1 (moderation_fails_open false lower (fun s => s) (fun _ _ => None)
                  "Buy SPAM today")).
  exists "spam". split; [left; reflexivity | reflexivity].
Defined.

End AiFacts.

(** ** The endpoints *)

Module FunctionFacts.
Import RateLimiter Functions.

Lemma ensureChatParticipant_Ok (chats : gmap string Notifications.ChatData)
    (uid chatId : string) (chatData : Notifications.ChatData) :
  ensureChatParticipant chats uid chatId = Ok chatData ->
  chats !! chatId = Some chatData /\ participates chats uid chatId.
Proof.
  unfold ensureChatParticipant, participates.
  destruct (chats !! chatId) as [c|] eqn:Ec; [|discriminate].
  destruct (Notifications.participants c) as [ps|] eqn:Ep; [|discriminate].
  destruct (List.existsb (String.eqb uid) ps) eqn:Ee; [|discriminate].
  intros H; inversion H; subst. split; [reflexivity|].
  exists chatData, ps. repeat split; try assumption.
  apply List.existsb_exists in Ee. destruct Ee as [x [Hin Hx]].
  apply String.eqb_eq in Hx. subst x. exact Hin.
Qed.

Lemma ensureChatParticipant_participant (chats : gmap string Notifications.ChatData)
    (uid chatId : string) :
  participates chats uid chatId ->
  exists chatData, ensureChatParticipant chats uid chatId = Ok chatData.
Proof.
  intros [c [ps [Hc [Hp Hin]]]]. unfold ensureChatParticipant. rewrite Hc, Hp.
  replace (List.existsb (String.eqb uid) ps) with true; [exists c; reflexivity|].
  symmetry. apply List.existsb_exists. exists uid. split; [exact Hin | apply String.eqb_refl].
Qed.

Lemma ensureChatParticipant_Err (chats : gmap string Notifications.ChatData)
    (uid chatId : string) (f : Failure) :
  ensureChatParticipant chats uid chatId = Err f ->
  exists e, f = Https e /\ (code e = "not-found" \/ code e = "permission-denied").
Proof.
  unfold ensureChatParticipant.
  destruct (chats !! chatId) as [c|];
    [|intros H; inversion H; subst; eexists; split; [reflexivity | left; reflexivity]].
  destruct (Notifications.participants c) as [ps|];
    [|intros H; inversion H; subst; eexists; split; [reflexivity | right; reflexivity]].
  destruct (List.existsb (String.eqb uid) ps); [discriminate|].
  intros H; inversion H; subst; eexists; split; [reflexivity | right; reflexivity].
Qed.

Lemma assertRateLimit_outcome (now : Z) (key : string) (options : RateLimiterOptions)
    (buckets : gmap string Bucket) (e : HttpsError) (buckets' : gmap string Bucket) :
  assertRateLimit now key options buckets = (Thrown e, buckets') ->
  e = resourceExhausted /\ buckets' = buckets.
Proof.
  unfold assertRateLimit. destruct (buckets !! key) as [b|]; [|discriminate].
  destruct (expiresAt b <=? now); [discriminate|].
  destruct (count b >=? maxRequests options); [|discriminate].
  intros H; inversion H; subst. split; reflexivity.
Qed.

(** X12: [aiSummarizeChat] charges the quota and asks for a summary only
    after its checks.  A call that changes the table of windows, that
    returns a summary, that fails because the summary service rejects or
    that is turned away for the quota, comes from an authenticated caller
    with a chat id who is a participant of that chat, and the table it leaves
    is the one [assertRateLimit] leaves for the caller's key.  A call that
    fails with an [HttpsError] has the same outcome whatever the summary
    service would answer. *)
Theorem summarize_charges_after_checks (chats : gmap string Notifications.ChatData)
    (generateChatSummary : string -> option Ai.GeminiResponse)
    (now : Z) (request : CallableRequest) (buckets : gmap string Bucket) :
  let out := aiSummarizeChat chats generateChatSummary now request buckets in
  (snd out <> buckets \/ isOk (fst out) = true \/ fst out = Err Rejection
   \/ fst out = Err (Https resourceExhausted) ->
   exists uid chatId,
     auth request = Some uid
     /\ summarizeInput (data request) = Some chatId
     /\ participates chats uid chatId
     /\ snd out = snd (assertRateLimit now ("aiSummarize:" +:+ uid) (perMinute 3) buckets)) /\
  (forall e, fst out = Err (Https e) ->
     forall otherService,
       aiSummarizeChat chats otherService now request buckets = out).
Proof.
  intros out. unfold out, aiSummarizeChat, ensureAuthenticated.
  destruct (auth request) as [uid|] eqn:Ea.
  2:{ split; [|reflexivity]. simpl.
      intros [H | [H | [H | H]]];
        [contradiction | discriminate | discriminate
        | unfold resourceExhausted in H; discriminate]. }
  destruct (summarizeInput (data request)) as [chatId|] eqn:Ei.
  2:{ split; [|reflexivity]. simpl.
      intros [H | [H | [H | H]]];
        [contradiction | discriminate | discriminate
        | unfold resourceExhausted in H; discriminate]. }
  destruct (ensureChatParticipant chats uid chatId) as [chatData | f] eqn:Ep.
  2:{ split; [|reflexivity]. simpl.
      destruct (ensureChatParticipant_Err _ _ _ _ Ep) as [e [-> Hcode]].
      intros [H | [H | [H | H]]]; try congruence.
      inversion H; subst. destruct Hcode; discriminate. }
  apply ensureChatParticipant_Ok in Ep. destruct Ep as [_ Hp].
  change {| windowMs := 60000; maxRequests := 3 |} with (perMinute 3).
  destruct (assertRateLimit now ("aiSummarize:" +:+ uid) (perMinute 3) buckets)
    as [[|e] buckets'] eqn:Er.
  - split.
    + intros _. exists uid, chatId. repeat split; try assumption.
      rewrite Er. destruct (generateChatSummary chatId); reflexivity.
    + intros e. destruct (generateChatSummary chatId); discriminate.
  - split.
    + intros _. exists uid, chatId. repeat split; try assumption.
      rewrite Er. reflexivity.
    + reflexivity.
Qed.

Lemma summarizeAt_calls (chats : gmap string Notifications.ChatData)
    (generateChatSummary : string -> option Ai.GeminiResponse) (uid chatId : string) :
  participates chats uid chatId -> chatId <> "" ->
  generateChatSummary chatId <> None ->
  forall clock buckets,
    List.Forall2
      (fun r o => match o with
                  | Returned => isOk r = true
                  | Thrown _ => r = Err (Https resourceExhausted)
                  end)
      (fst (summarizeAt chats generateChatSummary clock
              (summarizeRequest uid chatId) buckets))
      (fst (calls ("aiSummarize:" +:+ uid) (perMinute 3) clock buckets)).
Proof.
  intros Hp Hc Hgen.
  destruct (ensureChatParticipant_participant _ _ _ Hp) as [chatData Hcd].
  assert (Hin : summarizeInput (data (summarizeRequest uid chatId)) = Some chatId).
  { unfold summarizeInput, requiredString. simpl.
    destruct (String.eqb_spec chatId ""); [contradiction | reflexivity]. }
  induction clock as [|now clock IH]; intros buckets; simpl; [constructor|].
  unfold aiSummarizeChat, ensureAuthenticated.
  cbn [auth summarizeRequest]. fold (summarizeRequest uid chatId). rewrite Hin, Hcd.
  change {| windowMs := 60000; maxRequests := 3 |} with (perMinute 3).
  destruct (assertRateLimit now ("aiSummarize:" +:+ uid) (perMinute 3) buckets)
    as [[|e] buckets'] eqn:Er.
  - destruct (generateChatSummary chatId) as [result|]; [|contradiction].
    specialize (IH buckets').
    destruct (summarizeAt _ _ clock _ buckets') as [rs b2].
    destruct (calls _ _ clock buckets') as [os b3]. simpl in *.
    constructor; [reflexivity | exact IH].
  - destruct (assertRateLimit_outcome _ _ _ _ _ _ Er) as [-> ->].
    specialize (IH buckets).
    destruct (summarizeAt _ _ clock _ buckets) as [rs b2].
    destruct (calls _ _ clock buckets) as [os b3]. simpl in *.
    constructor; [reflexivity | exact IH].
Qed.

(** X13: a participant gets three summaries a minute.  When the summary
    service resolves, of the calls one participant makes for a chat from a
    call that finds no open window until 60 seconds later, the first three
    return a summary and every later one fails with resource-exhausted. *)
Theorem summarize_three_per_minute (chats : gmap string Notifications.ChatData)
    (generateChatSummary : string -> option Ai.GeminiResponse) (uid chatId : string)
    (now : Z) (later : list Z) (buckets : gmap string Bucket) :
  participates chats uid chatId -> chatId <> "" ->
  generateChatSummary chatId <> None ->
  ~ live now ("aiSummarize:" +:+ uid) buckets ->
  List.Forall (fun t => t < now + 60000) later ->
  forall i r,
    List.nth_error
      (fst (summarizeAt chats generateChatSummary (now :: later)
              (summarizeRequest uid chatId) buckets)) i = Some r ->
    if (i <? 3)%nat then isOk r = true else r = Err (Https resourceExhausted).
Proof.
  intros Hp Hc Hgen Hdead Hlater i r Hr.
  pose proof (summarizeAt_calls chats generateChatSummary uid chatId Hp Hc Hgen
                (now :: later) buckets) as Hall.
  assert (Hcalls : forall j o,
             List.nth_error
               (fst (calls ("aiSummarize:" +:+ uid) (perMinute 3) (now :: later) buckets)) j
             = Some o ->
             succeeded o = (j <? 3)%nat).
  { intros j o. simpl.
    rewrite (RateLimiterFacts.assertRateLimit_opens now _ (perMinute 3) buckets Hdead).
    destruct (RateLimiterFacts.calls_live ("aiSummarize:" +:+ uid) (perMinute 3) later
                (<["aiSummarize:" +:+ uid := fresh now (perMinute 3)]> buckets)
                (fresh now (perMinute 3)) (lookup_insert_eq _ _ _) Hlater) as [Hlive _].
    destruct (calls _ _ later _) as [os b'] eqn:Ec. simpl in *.
    destruct j as [|j]; simpl.
    - intros H; inversion H; subst. reflexivity.
    - intros H. rewrite (Hlive j o H).
      destruct (Z.ltb_spec (1 + Z.of_nat j) 3), (Nat.ltb_spec (S j) 3); try reflexivity; lia. }
  revert Hall Hcalls Hr.
  generalize (fst (summarizeAt chats generateChatSummary (now :: later)
                     (summarizeRequest uid chatId) buckets)).
  generalize (fst (calls ("aiSummarize:" +:+ uid) (perMinute 3) (now :: later) buckets)).
  intros os rs Hall. revert i.
  induction Hall as [|r0 o rs os Hro Hall IH]; intros i Hcalls Hr.
  - destruct i; discriminate.
  - destruct i as [|i]; simpl in Hr.
    + inversion Hr; subst. specialize (Hcalls 0%nat o eq_refl). simpl in Hcalls.
      destruct o; [exact Hro | discriminate].
    + assert (Hi : exists o', List.nth_error os i = Some o').
      { apply List.Forall2_length in Hall.
        destruct (List.nth_error os i) eqn:E; [eexists; reflexivity|].
        apply List.nth_error_None in E.
        assert (List.nth_error rs i <> None) by congruence.
        apply List.nth_error_Some in H. lia. }
      destruct Hi as [o' Ho'].
      pose proof (Hcalls (S i) o' Ho') as Hs.
      clear IH.
      assert (Hpair : match o' with
                      | Returned => isOk r = true
                      | Thrown _ => r = Err (Https resourceExhausted)
                      end).
      { clear - Hall Ho' Hr. revert i Ho' Hr.
        induction Hall as [|r1 o1 rs os H1 Hall IH]; intros [|i] Ho' Hr;
          simpl in *; try discriminate.
        - inversion Ho'; inversion Hr; subst. exact H1.
        - apply (IH i Ho' Hr). }
      destruct ((S i <? 3)%nat); destruct o'; simpl in Hs; try discriminate; exact Hpair.
Qed.

Lemma prefixed_inj (p a b : string) : p +:+ a = p +:+ b -> a = b.
Proof.
  induction p as [|c p IH]; simpl; intros H; [exact H|].
  injection H as H. apply IH, H.
Qed.

Lemma assertRateLimit_changes (now : Z) (key other : string)
    (options : RateLimiterOptions) (buckets : gmap string Bucket) :
  snd (assertRateLimit now key options buckets) !! other <> buckets !! other ->
  other = key.
Proof.
  intros H. destruct (String.eqb_spec key other) as [Heq | Hne]; [congruence|].
  exfalso. apply H. apply RateLimiterExtras.assertRateLimit_other, Hne.
Qed.

(** X14: each endpoint counts in windows of its own.  A call changes at
    most one window of the table: the one under the endpoint's prefix and
    the caller's uid.  The keys of the four endpoints never coincide, and
    under one prefix the keys of two callers differ; so no call counts
    against the quota of another endpoint or of another caller. *)
Theorem endpoints_count_separately (chats : gmap string Notifications.ChatData)
    (generateChatSummary : string -> option Ai.GeminiResponse)
    (generateDraftReplies : string -> string -> option Ai.GeminiResponse)
    (moderateContent : string -> Ai.GeminiResponse)
    (verifyIdToken : string -> option string) (jsonParse : string -> option Value)
    (trim : string -> string) (setResolves : PresenceWrite -> bool)
    (now : Z) (request : CallableRequest) (req : HttpRequest)
    (buckets : gmap string Bucket) (key : string) :
  (snd (aiSummarizeChat chats generateChatSummary now request buckets) !! key
     <> buckets !! key ->
   exists uid, auth request = Some uid /\ key = "aiSummarize:" +:+ uid) /\
  (snd (aiDraftReply chats generateDraftReplies now request buckets) !! key
     <> buckets !! key ->
   exists uid, auth request = Some uid /\ key = "aiDraft:" +:+ uid) /\
  (snd (aiModerateMessage moderateContent now request buckets) !! key
     <> buckets !! key ->
   exists uid, auth request = Some uid /\ key = "aiModerate:" +:+ uid) /\
  (snd (fst (presencePing verifyIdToken jsonParse trim setResolves now req buckets)) !! key
     <> buckets !! key ->
   exists uid, verifyBearerToken verifyIdToken trim (authorization req) = Ok uid
               /\ key = "presence:" +:+ uid) /\
  (forall u u',
     "aiSummarize:" +:+ u <> "aiDraft:" +:+ u'
     /\ "aiSummarize:" +:+ u <> "aiModerate:" +:+ u'
     /\ "aiSummarize:" +:+ u <> "presence:" +:+ u'
     /\ "aiDraft:" +:+ u <> "aiModerate:" +:+ u'
     /\ "aiDraft:" +:+ u <> "presence:" +:+ u'
     /\ "aiModerate:" +:+ u <> "presence:" +:+ u') /\
  (forall prefix u u', prefix +:+ u = prefix +:+ u' -> u = u').
Proof.
  split; [|split; [|split; [|split; [|split]]]].
  - unfold aiSummarizeChat, ensureAuthenticated.
    destruct (auth request) as [uid|]; [|simpl; congruence].
    destruct (summarizeInput (data request)) as [chatId|]; [|simpl; congruence].
    destruct (ensureChatParticipant chats uid chatId); [|simpl; congruence].
    intros H. exists uid. split; [reflexivity|].
    apply (assertRateLimit_changes now _ _ {| windowMs := 60000; maxRequests := 3 |} buckets).
    destruct (assertRateLimit now _ _ buckets) as [[|e] b'];
      [destruct (generateChatSummary chatId)|]; exact H.
  - unfold aiDraftReply, ensureAuthenticated.
    destruct (auth request) as [uid|]; [|simpl; congruence].
    destruct (draftInput (data request)) as [[chatId messageContext]|];
      [|simpl; congruence].
    destruct (ensureChatParticipant chats uid chatId); [|simpl; congruence].
    intros H. exists uid. split; [reflexivity|].
    apply (assertRateLimit_changes now _ _ {| windowMs := 60000; maxRequests := 5 |} buckets).
    destruct (assertRateLimit now _ _ buckets) as [[|e] b'];
      [destruct (generateDraftReplies chatId messageContext)|]; exact H.
  - unfold aiModerateMessage, ensureAuthenticated.
    destruct (auth request) as [uid|]; [|simpl; congruence].
    destruct (moderationInput (data request)) as [message|]; [|simpl; congruence].
    intros H. exists uid. split; [reflexivity|].
    apply (assertRateLimit_changes now _ _ {| windowMs := 30000; maxRequests := 10 |} buckets).
    destruct (assertRateLimit now _ _ buckets) as [[|e] b']; exact H.
  - unfold presencePing.
    destruct (negb (String.eqb (method req) "POST")); [simpl; congruence|].
    destruct (verifyBearerToken verifyIdToken trim (authorization req)) as [uid | [e| |]];
      try (simpl; congruence).
    intros H. exists uid. split; [reflexivity|].
    apply (assertRateLimit_changes now _ _ {| windowMs := 15000; maxRequests := 10 |} buckets).
    destruct (assertRateLimit now _ _ buckets) as [[|e] b'].
    + destruct (match bodyOf jsonParse (body req) with
                | Some parsed => presencePayload parsed
                | None => None
                end) as [payloadStatus|]; [|exact H].
      destruct (setResolves _); exact H.
    + destruct (String.eqb (code e) "resource-exhausted"); exact H.
  - intros u u'. repeat split; simpl; discriminate.
  - apply prefixed_inj.
Qed.

Lemma endpoints_count_separately_witness :
  exists uid, auth (summarizeRequest "u1" "c1") = Some uid
              /\ "aiSummarize:u1" = "aiSummarize:" +:+ uid.
Proof.
  apply (proj1 (endpoints_count_separately Notifications.chats1
                  (fun _ => Some Ai.noResponse) (fun _ _ => None)
                  (fun _ => Ai.noResponse) (fun _ => None) (fun _ => None)
                  (fun s => s) (fun _ => true) 0 (summarizeRequest "u1" "c1")
                  {| method := "GET"; authorization := None; body := VNullish |}
                  ∅ "aiSummarize:u1")).
  vm_compute. discriminate.
Defined.

Lemma summarize_charges_after_checks_witness :
  exists uid chatId,
    auth (summarizeRequest "u1" "c1") = Some uid
    /\ summarizeInput (data (summarizeRequest "u1" "c1")) = Some chatId
    /\ participates Notifications.chats1 uid chatId
    /\ snd (aiSummarizeChat Notifications.chats1 (fun _ => Some Ai.noResponse) 0
              (summarizeRequest "u1" "c1") ∅)
       = snd (assertRateLimit 0 ("aiSummarize:" +:+ uid) (perMinute 3) ∅).
Proof.
  apply (proj1 (summarize_charges_after_checks Notifications.chats1
                  (fun _ => Some Ai.noResponse) 0 (summarizeRequest "u1" "c1") ∅)).
  right. left. reflexivity.
Defined.

Lemma summarize_three_per_minute_witness :
  match List.nth_error
          (fst (summarizeAt Notifications.chats1 (fun _ => Some Ai.noResponse)
                  [0; 10; 20; 30] (summarizeRequest "u1" "c1") ∅)) 3 with
  | Some r => r = Err (Https resourceExhausted)
  | None => False
  end.
Proof.
  destruct (List.nth_error _ 3) as [r|] eqn:E; [|vm_compute in E; discriminate].
  refine (summarize_three_per_minute Notifications.chats1 (fun _ => Some Ai.noResponse)
            "u1" "c1" 0 [10; 20; 30] ∅ _ _ _ _ _ 3%nat r E).
  - exists Notifications.chat1, ["u1"; "u2"; "u3"].
    split; [reflexivity | split; [reflexivity | left; reflexivity]].
  - discriminate.
  - discriminate.
  - intros [b [Hb _]]. rewrite lookup_empty in Hb. discriminate.
  - repeat constructor.
Defined.

Ltac status_cases :=
  simpl; repeat split; intros;
  repeat match goal with
         | H : _ \/ _ |- _ => destruct H
         | H : Some _ = Some _ |- _ => inversion H; subst; clear H
         end;
  try contradiction; try discriminate; try tauto; try lia; try congruence.

(** X15: [presencePing] always answers, and writes only what it was asked.
    The handler sends one of the statuses 405, 401, 429, 400, 200 and 500 and
    never throws; 405 is the answer to every method but POST.  It attempts a
    write exactly when it answers 200 or 500, for the uid of the verified
    token, with [isOnline] set exactly when the payload's status is online,
    and 200 tells that the write resolved.  The quota is untouched by the
    answers 405, 401 and 429, and a ping with an invalid payload has already
    been counted when 400 is sent. *)
Theorem presencePing_answers (verifyIdToken : string -> option string)
    (jsonParse : string -> option Value) (trim : string -> string)
    (setResolves : PresenceWrite -> bool)
    (now : Z) (req : HttpRequest) (buckets : gmap string Bucket) :
  let out := presencePing verifyIdToken jsonParse trim setResolves now req buckets in
  exists response,
    fst (fst out) = Some response /\
    In (status response) [405; 401; 429; 400; 200; 500] /\
    (status response = 405 <-> method req <> "POST") /\
    (snd out <> None <-> status response = 200 \/ status response = 500) /\
    (forall w, snd out = Some w ->
       verifyBearerToken verifyIdToken trim (authorization req) = Ok (write_uid w)
       /\ (write_isOnline w = true <->
           exists parsed, bodyOf jsonParse (body req) = Some parsed
                          /\ presencePayload parsed = Some "online")
       /\ (status response = 200 <-> setResolves w = true)) /\
    (In (status response) [405; 401; 429] -> snd (fst out) = buckets) /\
    (status response = 400 ->
     exists uid,
       verifyBearerToken verifyIdToken trim (authorization req) = Ok uid
       /\ assertRateLimit now ("presence:" +:+ uid)
            {| windowMs := 15000; maxRequests := 10 |} buckets
          = (Returned, snd (fst out))).
Proof.
  intros out. unfold out, presencePing.
  destruct (String.eqb_spec (method req) "POST") as [Hm | Hm]; simpl negb; cbv iota.
  2:{ eexists. split; [reflexivity|]. status_cases. }
  destruct (verifyBearerToken verifyIdToken trim (authorization req))
    as [uid | f] eqn:Ev.
  2:{ destruct f as [e| |]; (eexists; split; [reflexivity|]); status_cases. }
  destruct (assertRateLimit now ("presence:" +:+ uid)
              {| windowMs := 15000; maxRequests := 10 |} buckets)
    as [[|e] buckets'] eqn:Er.
  - destruct (bodyOf jsonParse (body req)) as [parsed|] eqn:Eb.
    2:{ eexists; split; [reflexivity|]. status_cases.
        exists uid. split; [reflexivity | exact Er]. }
    destruct (presencePayload parsed) as [payloadStatus|] eqn:Ep.
    2:{ eexists; split; [reflexivity|]. status_cases.
        exists uid. split; [reflexivity | exact Er]. }
    destruct (setResolves _) eqn:Es; (eexists; split; [reflexivity|]); status_cases.
    all: simpl in *.
    all: try match goal with
             | H : (_ =? _)%string = true |- _ =>
                 apply String.eqb_eq in H; subst; exists parsed;
                 split; [reflexivity | exact Ep]
             end.
    all: match goal with
         | H : exists _, _ |- _ =>
             destruct H as [p [Hp1 Hp2]]; inversion Hp1; subst;
             rewrite Ep in Hp2; inversion Hp2; subst; reflexivity
         end.
  - destruct (assertRateLimit_outcome _ _ _ _ _ _ Er) as [-> ->].
    eexists; split; [reflexivity|]. status_cases.
Qed.

Lemma presencePing_answers_witness :
  verifyBearerToken (fun token => Some token) (fun s => s) (Some "Bearer u1") = Ok "u1"
  /\ assertRateLimit 0 "presence:u1" {| windowMs := 15000; maxRequests := 10 |} ∅
     = (Returned, <["presence:u1" := fresh 0 {| windowMs := 15000; maxRequests := 10 |}]> ∅).
Proof.
  destruct (presencePing_answers (fun token => Some token) (fun _ => None) (fun s => s)
              (fun _ => true) 0
              {| method := "POST"; authorization := Some "Bearer u1";
                 body := VString "{" |} ∅)
    as [response [Hres [_ [_ [_ [_ [_ H400]]]]]]].
  vm_compute in Hres. inversion Hres; subst; clear Hres.
  destruct (H400 eq_refl) as [uid [Huid Hrate]].
  vm_compute in Huid. inversion Huid; subst. split; [reflexivity|].
  exact Hrate.
Defined.

End FunctionFacts.

(** ** The chat room *)

Module ChatRoomFacts.
Import Messages ChatRoom.

Lemma created_is_optimistic (now : Z) (nanoid chatId senderId text : string)
    (attachments : list DraftAttachment) :
  isOptimistic
    (messageId (createOptimisticMessage now nanoid chatId senderId text attachments))
  = true.
Proof. unfold isOptimistic. simpl. destruct nanoid; reflexivity. Qed.

Lemma prefixed_is_optimistic (nanoid : string) :
  isOptimistic ("optimistic-" +:+ nanoid) = true.
Proof. unfold isOptimistic. destruct nanoid; reflexivity. Qed.

Ltac send_tail services :=
  try match goal with
      | |- context [uploadAttachments services ?c ?a] =>
          destruct (uploadAttachments services c a) as [uploaded|]
      end;
  try (unfold sendApproved;
       match goal with
       | |- context [sendMessage services ?p] =>
           destruct (sendMessage services p) as [docId|] eqn:Esend;
           [destruct (getDoc services docId) as [[data|]|] eqn:Edoc|]
       end).

Ltac send_settled docId data :=
  eexists; eexists; split; [reflexivity|]; simpl;
  split; [reflexivity|]; split; [reflexivity|];
  split; [apply prefixed_is_optimistic|]; split; [reflexivity|];
  intros persisted Hp; inversion Hp; subst;
  (split; [reflexivity|]; eexists; exists docId, data;
   repeat split; try reflexivity; assumption).

(** X16: every send that starts is settled, once.  [handleSend] either
    touches nothing of the message list and calls no service (no user, or
    nothing to send), or it prepends one optimistic message, whose id has the
    optimistic prefix, settles that id exactly once, and ends by clearing the
    sending flag, whatever the services answer.  The settle carries a message
    only when [sendMessage] resolved and the document was read back: then it
    is that document under the id of the new document, with [mergeReadBy]. *)
Theorem handleSend_settles_once (user : option string) (chatId : string)
    (participants : option (list string)) (services : Services)
    (trim : string -> string) (now : Z) (nanoid : string)
    (text : string) (attachments : list DraftAttachment) :
  let effects :=
    handleSend user chatId participants services trim now nanoid text attachments in
  (prepends effects = [] /\ settles effects = [] /\ sends effects = []
   /\ uploads effects = [] /\ ~ In (Moderate (trim text)) effects
   /\ (user = None \/ (trim text = "" /\ attachments = []))) \/
  (exists uid next mergeReadBy,
     user = Some uid
     /\ prepends effects
        = [createOptimisticMessage now nanoid chatId uid (trim text) attachments]
     /\ settles effects = [("optimistic-" +:+ nanoid, next, mergeReadBy)]
     /\ isOptimistic ("optimistic-" +:+ nanoid) = true
     /\ List.last effects (SetSending true) = SetSending false
     /\ (forall persisted, next = Some persisted ->
           mergeReadBy = true
           /\ exists payload docId data,
                sends effects = [payload]
                /\ sendMessage services payload = Some docId
                /\ getDoc services docId = Some (Some data)
                /\ persisted = withMessageId data docId)).
Proof.
  intros effects. unfold effects, handleSend.
  destruct user as [uid|].
  2:{ left. simpl. repeat split; auto. }
  destruct (String.eqb_spec (trim text) "") as [Ht | Ht]; simpl andb.
  - destruct attachments as [|a attachments]; simpl Nat.eqb; cbv iota.
    + left. simpl. repeat split; auto.
      intros H. destruct H as [H | H]; [discriminate | exact H].
    + right. exists uid.
      destruct (aiModerateMessage services (trim text)) as [[[|] reason]|];
        [send_tail services| |]; send_settled docId data.
  - right. exists uid.
    destruct (aiModerateMessage services (trim text)) as [[[|] reason]|];
      [destruct attachments as [|a attachments]; send_tail services| |];
      send_settled docId data.
Qed.

(** X17: nothing is uploaded or written before the moderation approves.
    Every [sendMessage] that [handleSend] makes, and every upload, follows an
    answer of [aiModerateMessage] that approved the trimmed text; a message
    that is turned down, or whose moderation fails, is never sent.  At most
    one message is sent, for the signed-in user and the chat of the room,
    with the trimmed text, or without text when it is empty. *)
Theorem send_only_after_approval (user : option string) (chatId : string)
    (participants : option (list string)) (services : Services)
    (trim : string -> string) (now : Z) (nanoid : string)
    (text : string) (attachments : list DraftAttachment) :
  let effects :=
    handleSend user chatId participants services trim now nanoid text attachments in
  (sends effects <> [] \/ uploads effects <> [] ->
   exists reason, aiModerateMessage services (trim text) = Some (true, reason)) /\
  (List.length (sends effects) <= 1)%nat /\
  (forall payload, In payload (sends effects) ->
     user = Some (send_senderId payload)
     /\ send_chatId payload = chatId
     /\ send_participants payload = participants
     /\ send_text payload
        = (if String.eqb (trim text) "" then None else Some (trim text))
     /\ (attachments = [] ->
         send_attachments payload = None /\ send_type payload = TText)).
Proof.
  intros effects. unfold effects, handleSend.
  destruct user as [uid|]; [|simpl; repeat split; try tauto; lia].
  destruct (String.eqb (trim text) "" && Nat.eqb (List.length attachments) 0) eqn:E;
    [simpl; repeat split; try tauto; lia|].
  destruct (aiModerateMessage services (trim text)) as [[[|] reason]|].
  - split; [intros _; exists reason; reflexivity|].
    destruct attachments as [|a attachments]; send_tail services; simpl;
      (split; [lia|]); intros payload Hin;
      repeat match goal with
             | H : _ \/ _ |- _ => destruct H
             | H : False |- _ => contradiction
             end;
      subst; simpl; repeat split; try reflexivity; intros; discriminate.
  - simpl. repeat split; try tauto; try lia.
  - simpl. repeat split; try tauto; try lia.
Qed.

Lemma send_only_after_approval_witness :
  exists reason,
    aiModerateMessage (delivered m_final) "Hello" = Some (true, reason).
Proof.
  apply (proj1 (send_only_after_approval (Some "u1") "c1" None (delivered m_final)
                  (fun s => s) 20 "a1" "Hello" [])).
  left. discriminate.
Defined.

Lemma handleSend_on_state (user : option string) (chatId : string)
    (participants : option (list string)) (services : Services)
    (trim : string -> string) (now : Z) (nanoid : string)
    (text : string) (attachments : list DraftAttachment) (st : State) :
  let effects :=
    handleSend user chatId participants services trim now nanoid text attachments in
  (applyEffects effects st = st /\ settles effects = []) \/
  (exists uid next mergeReadBy,
     settles effects = [("optimistic-" +:+ nanoid, next, mergeReadBy)]
     /\ applyEffects effects st
        = settleOptimistic ("optimistic-" +:+ nanoid) next mergeReadBy
            (prependOptimistic
               (createOptimisticMessage now nanoid chatId uid (trim text) attachments) st)
     /\ (forall persisted, next = Some persisted ->
           mergeReadBy = true
           /\ exists payload, sendMessage services payload = Some (messageId persisted))).
Proof.
  intros effects. unfold effects, handleSend.
  destruct user as [uid|]; [|left; split; reflexivity].
  destruct (String.eqb (trim text) "" && Nat.eqb (List.length attachments) 0) eqn:E;
    [left; split; reflexivity|].
  right. exists uid.
  destruct (aiModerateMessage services (trim text)) as [[[|] reason]|];
    [destruct attachments as [|a attachments]; send_tail services| |];
    (eexists; eexists; split; [reflexivity|]; split; [reflexivity|];
     intros persisted Hp; inversion Hp; subst;
     (split; [reflexivity|]; eexists; exact Esend)).
Qed.

Lemma countId_absent (i : string) (l : list MessageRecord) :
  countId i l = 0%nat <-> ~ In i (ids l).
Proof.
  unfold countId, ids. induction l as [|x l IH]; simpl; [tauto|].
  destruct (String.eqb_spec (messageId x) i) as [Hx | Hx]; simpl.
  - split; [discriminate | intros H; exfalso; apply H; left; exact Hx].
  - rewrite IH. tauto.
Qed.

(** X18: a send leaves the list settled.  From a list in ascending order
    that does not know the new optimistic id, and with a server that hands
    out ids without the optimistic prefix, the calls [handleSend] makes on
    the hook leave the side table as it was and no entry under the optimistic
    id, whatever the services answer.  When no document was read back, the
    whole state is as before the send; when one was, the list shows it,
    exactly once if the list showed its id at most once before. *)
Theorem send_settles_the_list (user : option string) (chatId : string)
    (participants : option (list string)) (services : Services)
    (trim : string -> string) (now : Z) (nanoid : string)
    (text : string) (attachments : list DraftAttachment) (st : State) :
  ascending (messages st) ->
  ~ In ("optimistic-" +:+ nanoid) (ids (messages st)) ->
  ~ In ("optimistic-" +:+ nanoid) (Js.keys (optimisticRef st)) ->
  (forall payload docId,
     sendMessage services payload = Some docId -> isOptimistic docId = false) ->
  let effects :=
    handleSend user chatId participants services trim now nanoid text attachments in
  let st' := applyEffects effects st in
  optimisticRef st' = optimisticRef st /\
  ~ In ("optimistic-" +:+ nanoid) (ids (messages st')) /\
  ((forall i persisted mergeReadBy,
      ~ In (i, Some persisted, mergeReadBy) (settles effects)) -> st' = st) /\
  (forall i persisted mergeReadBy,
     In (i, Some persisted, mergeReadBy) (settles effects) ->
     (1 <= countId (messageId persisted) (messages st'))%nat
     /\ ((countId (messageId persisted) (messages st) <= 1)%nat ->
         countId (messageId persisted) (messages st') = 1%nat)).
Proof.
  intros Hasc Hfresh Htable Hserver effects st'.
  destruct (handleSend_on_state user chatId participants services trim now nanoid
              text attachments st) as [[Hst Hs] | [uid [next [mrb [Hs [Hst Hnext]]]]]];
    fold effects in Hs, Hst; fold st' in Hst.
  - rewrite Hst. split; [reflexivity|]. split; [exact Hfresh|].
    split; [reflexivity|].
    intros i persisted mergeReadBy Hin; rewrite Hs in Hin; contradiction.
  - set (m := createOptimisticMessage now nanoid chatId uid (trim text) attachments) in *.
    assert (Hid : messageId m = "optimistic-" +:+ nanoid) by reflexivity.
    assert (Htbl : optimisticRef st' = optimisticRef st).
    { rewrite Hst. simpl. rewrite <- Hid. apply MessageExtras.delete_set_fresh.
      rewrite Hid. exact Htable. }
    destruct next as [persisted|].
    + destruct (Hnext persisted eq_refl) as [-> [payload Hpayload]].
      pose proof (Hserver _ _ Hpayload) as Hopt.
      assert (Hne : messageId persisted <> "optimistic-" +:+ nanoid).
      { intros Heq. rewrite Heq, prefixed_is_optimistic in Hopt. discriminate. }
      destruct (MessageFacts.settle_count ("optimistic-" +:+ nanoid) persisted true
                  (normalizeMessages (messages st ++ [m])) Hopt Hne) as [H0 H1].
      assert (Hc : countId (messageId persisted) (normalizeMessages (messages st ++ [m]))
                   = countId (messageId persisted) (messages st)).
      { rewrite MessageFacts.countId_normalize, MessageFacts.countId_app.
        unfold countId at 2. cbn [List.filter].
        destruct (String.eqb_spec (messageId m) (messageId persisted)) as [Heq | Hneq];
          [rewrite Hid in Heq; congruence | simpl; lia]. }
      rewrite Hc in H1.
      assert (Hm : messages st'
                   = settleMessages ("optimistic-" +:+ nanoid) (Some persisted) true
                       (normalizeMessages (messages st ++ [m]))) by (rewrite Hst; reflexivity).
      split; [exact Htbl|]. split; [rewrite Hm; apply countId_absent, H0|].
      split.
      * intros Hnone. exfalso. apply (Hnone ("optimistic-" +:+ nanoid) persisted true).
        rewrite Hs. left. reflexivity.
      * intros i p b Hin. rewrite Hs in Hin. destruct Hin as [Hin | []].
        inversion Hin; subst. rewrite Hm, H1. simpl.
        destruct (Nat.ltb_spec 0 (countId (messageId p) (messages st))); split; lia.
    + assert (Hback : st' = st).
      { rewrite Hst. rewrite <- Hid in Hfresh, Htable. rewrite <- Hid.
        clear Hid Hst Htbl Hnext Hs. clearbody m.
        destruct st as [ms ld lm hm o1 o2 tbl].
        unfold settleOptimistic, prependOptimistic, setMessages, setOptimistic,
          settleMessages. simpl in *.
        rewrite (MessageExtras.delete_set_fresh _ _ _ Htable).
        rewrite (MessageExtras.without_prepended m ms Hasc Hfresh). reflexivity. }
      rewrite Hback. split; [reflexivity|]. split; [exact Hfresh|].
      split; [reflexivity|].
      intros i p b Hin. rewrite Hs in Hin. destruct Hin as [Hin | []]. discriminate.
Qed.

Lemma send_settles_the_list_witness :
  countId "msg-1"
    (messages
       (applyEffects
          (handleSend (Some "u1") "c1" None (delivered m_final) (fun s => s) 20 "a1"
             "Hello" [])
          (onSnapshot 40 [doc "msg-1" (ATimestamp 0 30000000)] subscribed)))
  = 1%nat.
Proof.
  refine (proj2 (proj2 (proj2 (proj2
            (send_settles_the_list (Some "u1") "c1" None (delivered m_final)
               (fun s => s) 20 "a1" "Hello" []
               (onSnapshot 40 [doc "msg-1" (ATimestamp 0 30000000)] subscribed)
               _ _ _ _))) "optimistic-a1" (withMessageId m_final "msg-1") true _) _).
  - repeat constructor.
  - simpl. intros [H | []]. discriminate.
  - simpl. intros [].
  - intros payload docId H. inversion H; subst. reflexivity.
  - left. reflexivity.
  - vm_compute. lia.
Defined.

(** X19: what the status line of a message says.  There is none for a
    message of somebody else; an own message under an optimistic id is
    Sending; an own persisted message is Read exactly when the chat has
    another participant and every other participant is among its readers,
    and Delivered otherwise.  The message [createOptimisticMessage] builds is
    Sending for its sender, whoever takes part. *)
Theorem messageStatus_cases (message : MessageRecord) (currentUserId : string)
    (participants : list string) :
  (messageStatus message currentUserId participants = None
   <-> senderId message <> currentUserId) /\
  (messageStatus message currentUserId participants = Some "Sending…"
   <-> senderId message = currentUserId /\ isOptimistic (messageId message) = true) /\
  (messageStatus message currentUserId participants = Some "Read"
   <-> senderId message = currentUserId
       /\ isOptimistic (messageId message) = false
       /\ (exists other, In other participants /\ other <> currentUserId)
       /\ readByAll message currentUserId participants) /\
  (senderId message = currentUserId ->
   isOptimistic (messageId message) = false ->
   messageStatus message currentUserId participants = Some "Read"
   \/ messageStatus message currentUserId participants = Some "Delivered") /\
  (forall now nanoid chatId text attachments,
     messageStatus
       (createOptimisticMessage now nanoid chatId currentUserId text attachments)
       currentUserId participants = Some "Sending…").
Proof.
  assert (Hothers : forall other,
             In other (List.filter
                         (fun participant => negb (String.eqb participant currentUserId))
                         participants)
             <-> In other participants /\ other <> currentUserId).
  { intros other. rewrite List.filter_In.
    destruct (String.eqb_spec other currentUserId); simpl; intuition congruence. }
  assert (Hread : forall member,
             List.existsb (String.eqb member)
               (Js.setOfList (default [] (readBy message))) = true
             <-> In member (default [] (readBy message))).
  { intros member. rewrite List.existsb_exists. unfold Js.setOfList.
    split.
    - intros [x [Hx Heq]]. apply String.eqb_eq in Heq. subst x.
      apply TableFacts.addAll_in in Hx. destruct Hx as [[] | Hx]. exact Hx.
    - intros H. exists member. split; [|apply String.eqb_refl].
      apply TableFacts.addAll_in. right. exact H. }
  unfold messageStatus.
  destruct (String.eqb_spec (senderId message) currentUserId) as [Hs | Hs]; simpl negb;
    cbv iota.
  2:{ repeat split; try tauto; try discriminate; try (intros [H _]; contradiction).
      intros now nanoid chatId text attachments. simpl.
      rewrite String.eqb_refl. simpl. rewrite prefixed_is_optimistic. reflexivity. }
  destruct (isOptimistic (messageId message)) eqn:Eo.
  { repeat split; try tauto; try discriminate; try congruence.
    - intros [_ [H _]]. discriminate.
    - intros now nanoid chatId text attachments. simpl.
      rewrite String.eqb_refl. simpl. rewrite prefixed_is_optimistic. reflexivity. }
  destruct (List.filter _ participants) as [|o others] eqn:Ef.
  { repeat split; try tauto; try discriminate; try congruence.
    - intros [_ H]. discriminate.
    - intros [_ [_ [[other Hother] _]]]. apply Hothers in Hother. contradiction.
    - intros now nanoid chatId text attachments. simpl.
      rewrite String.eqb_refl. simpl. rewrite prefixed_is_optimistic. reflexivity. }
  destruct (List.filter _ (o :: others)) as [|u unread] eqn:Eu.
  - repeat split; try tauto; try discriminate; try congruence.
    + intros [_ H]. discriminate.
    + exists o. apply Hothers. left. reflexivity.
    + intros member Hin Hne.
      assert (Hm : In member (o :: others)) by (apply Hothers; split; assumption).
      destruct (List.existsb (String.eqb member)
                  (Js.setOfList (default [] (readBy message)))) eqn:Ee.
      * apply Hread, Ee.
      * exfalso.
        assert (Hf : In member
                       (List.filter
                          (fun member =>
                             negb (List.existsb (String.eqb member)
                                     (Js.setOfList (default [] (readBy message)))))
                          (o :: others))).
        { apply List.filter_In. split; [exact Hm | rewrite Ee; reflexivity]. }
        rewrite Eu in Hf. contradiction.
    + intros now nanoid chatId text attachments. simpl.
      rewrite String.eqb_refl. simpl. rewrite prefixed_is_optimistic. reflexivity.
  - repeat split; try tauto; try discriminate; try congruence.
    + intros [_ H]. discriminate.
    + intros [_ [_ [_ Hall]]]. exfalso.
      assert (Hu : In u (u :: unread)) by (left; reflexivity).
      rewrite <- Eu in Hu. apply List.filter_In in Hu. destruct Hu as [Hu Hneg].
      apply Hothers in Hu. destruct Hu as [Hin Hne].
      apply (Hall u Hin) in Hne. apply Hread in Hne. rewrite Hne in Hneg. discriminate.
    + intros now nanoid chatId text attachments. simpl.
      rewrite String.eqb_refl. simpl. rewrite prefixed_is_optimistic. reflexivity.
Qed.

Lemma messageStatus_cases_witness :
  messageStatus m_final (senderId m_final) [] = Some "Read"
  \/ messageStatus m_final (senderId m_final) [] = Some "Delivered".
Proof.
  apply (proj1 (proj2 (proj2 (proj2
           (messageStatus_cases m_final (senderId m_final) []))))); reflexivity.
Defined.

Lemma isUnread_spec (uid : string) (message : MessageRecord) :
  isUnread uid message = true <-> unreadFor uid message.
Proof.
  unfold isUnread, unreadFor.
  rewrite !Bool.andb_true_iff, !Bool.negb_true_iff.
  destruct (String.eqb_spec (senderId message) uid) as [Hs | Hs].
  - split; [intros [[H _] _]; discriminate | intros [H _]; contradiction].
  - destruct (isOptimistic (messageId message));
      [split; [intros [[_ H] _] | intros [_ [H _]]]; discriminate|].
    destruct (List.existsb (String.eqb uid) (default [] (readBy message))) eqn:E.
    + split; [intros [_ H]; discriminate|]. intros [_ [_ H]]. exfalso. apply H.
      apply List.existsb_exists in E. destruct E as [x [Hx Heq]].
      apply String.eqb_eq in Heq. subst x. exact Hx.
    + split; [|tauto]. intros _. repeat split; [exact Hs|].
      intros Hin. assert (Ht : List.existsb (String.eqb uid)
                                 (default [] (readBy message)) = true).
      { apply List.existsb_exists. exists uid. split; [exact Hin | apply String.eqb_refl]. }
      congruence.
Qed.

Lemma sliceLast_spec {A : Type} (n : nat) (l : list A) :
  (List.length (sliceLast n l) <= n)%nat
  /\ (exists earlier, l = earlier ++ sliceLast n l)%list
  /\ (l <> [] -> (0 < n)%nat -> sliceLast n l <> []).
Proof.
  unfold sliceLast. split; [|split].
  - rewrite List.length_skipn. lia.
  - exists (List.firstn (List.length l - n) l). symmetry. apply List.firstn_skipn.
  - intros Hl Hn Hnil.
    assert (Hlen : List.length (List.skipn (List.length l - n) l) = 0%nat)
      by (rewrite Hnil; reflexivity).
    rewrite List.length_skipn in Hlen. destruct l; [congruence | simpl in Hlen; lia].
Qed.

(** X20: which messages the room marks as read.  With no user nothing is
    marked.  For a user, [markMessagesRead] is called exactly when some
    message of the list was sent by somebody else, has a persisted id and
    does not list the user among its readers; the ids passed are the last of
    these, in list order, at most thirty and at least one.  So a message the
    user sent, an optimistic message and a message already read are never
    passed. *)
Theorem markRead_selects_unread (uid : string) (messages : list MessageRecord) :
  markRead None messages = None /\
  (markRead (Some uid) messages = None
   <-> forall m, In m messages -> ~ unreadFor uid m) /\
  (forall selected, markRead (Some uid) messages = Some selected ->
     selected <> [] /\ (List.length selected <= 30)%nat
     /\ (exists earlier,
           ids (List.filter (isUnread uid) messages) = (earlier ++ selected)%list)
     /\ (forall i, In i selected ->
           exists m, In m messages /\ messageId m = i /\ unreadFor uid m)).
Proof.
  split; [reflexivity|].
  unfold markRead. fold (isUnread uid).
  change (fun message => isUnread uid message) with (isUnread uid).
  fold (ids (List.filter (isUnread uid) messages)).
  destruct (ids (List.filter (isUnread uid) messages)) as [|i unread] eqn:E.
  - split; [|discriminate]. split; [|reflexivity]. intros _ m Hin Hun.
    apply isUnread_spec in Hun.
    assert (Hf : In (messageId m) (ids (List.filter (isUnread uid) messages))).
    { apply List.in_map. apply List.filter_In. split; assumption. }
    rewrite E in Hf. contradiction.
  - split.
    + split; [discriminate|]. intros Hnone. exfalso.
      assert (Hi : In i (ids (List.filter (isUnread uid) messages)))
        by (rewrite E; left; reflexivity).
      unfold ids in Hi. apply List.in_map_iff in Hi. destruct Hi as [m [_ Hm]].
      apply List.filter_In in Hm. destruct Hm as [Hin Hun].
      apply (Hnone m Hin). apply isUnread_spec, Hun.
    + intros selected Hsel. inversion Hsel; subst; clear Hsel.
      destruct (sliceLast_spec 30 (i :: unread)) as [Hlen [[earlier Hearlier] Hne]].
      split; [apply Hne; [discriminate | lia]|]. split; [exact Hlen|].
      split; [exists earlier; exact Hearlier|].
      intros j Hj.
      assert (Hin : In j (ids (List.filter (isUnread uid) messages))).
      { rewrite E, Hearlier. apply List.in_or_app. right. exact Hj. }
      unfold ids in Hin. apply List.in_map_iff in Hin. destruct Hin as [m [Hm Hf]].
      apply List.filter_In in Hf. destruct Hf as [Hmin Hun].
      exists m. split; [exact Hmin | split; [exact Hm | apply isUnread_spec, Hun]].
Qed.

Lemma markRead_selects_unread_witness :
  markRead (Some "u2") [m_opt; m_final] = Some ["msg-1"]
  /\ exists m, In m [m_opt; m_final] /\ messageId m = "msg-1" /\ unreadFor "u2" m.
Proof.
  split; [reflexivity|].
  destruct (proj2 (proj2 (markRead_selects_unread "u2" [m_opt; m_final]))
              ["msg-1"] eq_refl) as [_ [_ [_ H]]].
  apply H. left. reflexivity.
Defined.

End ChatRoomFacts.

(** ** Identities of direct-message chats *)

Module SharedExtras.
Import Shared.

Lemma joined_inj (a b c d : string) :
  plain a = true -> plain c = true ->
  a +:+ "__" +:+ b = c +:+ "__" +:+ d -> a = c /\ b = d.
Proof.
  revert c. induction a as [|x a IH]; intros [|y c] Ha Hc H; simpl in *.
  - injection H as H. split; [reflexivity | exact H].
  - injection H as Hy _. subst y. discriminate.
  - injection H as Hx _. subst x. discriminate.
  - injection H as Hxy H. subst y.
    apply Bool.andb_true_iff in Ha, Hc.
    destruct (IH c (proj2 Ha) (proj2 Hc) H) as [-> ->]. split; reflexivity.
Qed.

(** X21: two pairs of users share a direct-message chat only when they are
    the same pair.  For ids that hold no underscore, [dmChatId] gives the
    same identity to two pairs only if they list the same two ids, in either
    order; for ids with underscores two different pairs can collide. *)
Theorem dmChatId_injective (a b c d : string) :
  (plain a = true -> plain b = true -> plain c = true -> plain d = true ->
   dmChatId a b = dmChatId c d ->
   (a = c /\ b = d) \/ (a = d /\ b = c)) /\
  dmChatId "x__y" "z" = dmChatId "x" "y__z".
Proof.
  split; [|reflexivity].
  intros Ha Hb Hc Hd. unfold dmChatId.
  rewrite !SharedFacts.sort_pair.
  destruct (String.leb a b), (String.leb c d); simpl; intros H;
    apply joined_inj in H; try assumption; tauto.
Qed.

Lemma dmChatId_injective_witness :
  ("u1" = "u2" /\ "u2" = "u1") \/ ("u1" = "u1" /\ "u2" = "u2").
Proof.
  apply (proj1 (dmChatId_injective "u1" "u2" "u2" "u1")); reflexivity.
Defined.

End SharedExtras.

(** ** The list of chats *)

Module ChatFacts.
Import Timestamps Chats.

Lemma StronglySorted_impl {A : Type} (R S : A -> A -> Prop) (l : list A) :
  (forall a b, R a b -> S a b) -> StronglySorted R l -> StronglySorted S l.
Proof.
  intros H. induction 1 as [|x l Hs IH Hall]; constructor; [exact IH|].
  eapply List.Forall_impl; [|exact Hall]. intros b. apply H.
Qed.

Section Runtime.
Variable StringToNumber : string -> Binary64.Number.
Variable ObjectToNumber : JsValue -> Completion Binary64.Number.
Variable Timestamp_toDate : Z -> Z -> Date.

Lemma comparison_timed (a b : Chat) :
  timed StringToNumber ObjectToNumber Timestamp_toDate a ->
  timed StringToNumber ObjectToNumber Timestamp_toDate b ->
  comparison StringToNumber ObjectToNumber Timestamp_toDate a b
  = - timeOf StringToNumber ObjectToNumber Timestamp_toDate a
    - - timeOf StringToNumber ObjectToNumber Timestamp_toDate b.
Proof.
  intros [ta Ha] [tb Hb]. unfold comparison, compareChats, timeOf.
  rewrite Ha, Hb. simpl. lia.
Qed.

(** X22: the chats are listed by latest activity.  When the activity time
    of every chat of a snapshot is a number, the sort completes, keeps every
    chat, puts a chat of later activity before one of earlier activity, and
    leaves chats of one activity time in the order of the snapshot. *)
Theorem chats_sorted_by_activity (chats : list Chat) :
  (forall chat, In chat chats ->
     timed StringToNumber ObjectToNumber Timestamp_toDate chat) ->
  exists sorted,
    sortChats StringToNumber ObjectToNumber Timestamp_toDate chats = Normal sorted
    /\ Permutation sorted chats
    /\ StronglySorted
         (fun a b => timeOf StringToNumber ObjectToNumber Timestamp_toDate b
                     <= timeOf StringToNumber ObjectToNumber Timestamp_toDate a) sorted
    /\ (forall t,
          List.filter
            (fun chat => timeOf StringToNumber ObjectToNumber Timestamp_toDate chat =? t)
            sorted
          = List.filter
              (fun chat => timeOf StringToNumber ObjectToNumber Timestamp_toDate chat =? t)
              chats).
Proof.
  intros Htimed.
  set (key := fun chat => - timeOf StringToNumber ObjectToNumber Timestamp_toDate chat).
  assert (Hsort : Js.sort (comparison StringToNumber ObjectToNumber Timestamp_toDate) chats
                  = Js.sort (fun a b => key a - key b) chats).
  { apply SortExtras.sort_ext. intros a b Ha Hb.
    apply comparison_timed; apply Htimed; assumption. }
  assert (Hres : sortChats StringToNumber ObjectToNumber Timestamp_toDate chats
                 = Normal (Js.sort (fun a b => key a - key b) chats)).
  { destruct chats as [|a [|b rest]]; [reflexivity | reflexivity|].
    unfold sortChats.
    replace (List.forallb _ (a :: b :: rest)) with true; [rewrite Hsort; reflexivity|].
    symmetry. apply List.forallb_forall. intros chat Hin.
    destruct (Htimed chat Hin) as [t Ht]. rewrite Ht. reflexivity. }
  exists (Js.sort (fun a b => key a - key b) chats).
  split; [exact Hres|]. split; [apply (SortFacts.sort_perm key)|]. split.
  - eapply StronglySorted_impl; [|apply (SortFacts.sort_sorted key)].
    intros a b Hab. unfold key in Hab. simpl in Hab. lia.
  - intros t.
    pose proof (SortFacts.sort_tie key (- t) chats) as Htie. simpl in Htie.
    assert (Hext : forall l : list Chat,
               List.filter (fun a => key a =? - t) l
               = List.filter
                   (fun chat =>
                      timeOf StringToNumber ObjectToNumber Timestamp_toDate chat =? t) l).
    { intros l. apply List.filter_ext. intros a. unfold key.
      destruct (Z.eqb_spec (- timeOf StringToNumber ObjectToNumber Timestamp_toDate a) (- t)),
               (Z.eqb_spec (timeOf StringToNumber ObjectToNumber Timestamp_toDate a) t);
        try reflexivity; lia. }
    rewrite <- !Hext. exact Htie.
Qed.

End Runtime.

Lemma chats_sorted_by_activity_witness :
  exists sorted,
    sortChats readsNaN convertsToNaN wholeMillis
      [chatAt "c1" (JDate (Num 10)) ["u1"; "u2"];
       chatAt "c2" (JTimestamp 5 0) ["u1"; "u3"]] = Normal sorted
    /\ List.map chatId sorted = ["c2"; "c1"].
Proof.
  destruct (chats_sorted_by_activity readsNaN convertsToNaN wholeMillis
              [chatAt "c1" (JDate (Num 10)) ["u1"; "u2"];
               chatAt "c2" (JTimestamp 5 0) ["u1"; "u3"]])
    as [sorted [Hs _]].
  - intros chat [<- | [<- | []]]; eexists; reflexivity.
  - exists sorted. split; [exact Hs|].
    vm_compute in Hs. inversion Hs; subst. reflexivity.
Defined.

(** *** The directory of users *)

Lemma missing_inner (userId : string) (directory : gmap string User)
    (ps : list string) (acc : list string) :
  let inner :=
    List.fold_left
      (fun missing participantId =>
         if String.eqb participantId userId then missing
         else if known directory participantId then missing
         else Js.setAdd participantId missing) ps acc in
  (List.NoDup acc -> List.NoDup inner) /\
  (forall p, In p inner <->
             In p acc \/ (In p ps /\ p <> userId /\ known directory p = false)).
Proof.
  revert acc. induction ps as [|q ps IH]; intros acc; simpl.
  - split; [auto|]. intros p. tauto.
  - destruct (String.eqb_spec q userId) as [Hq | Hq].
    + destruct (IH acc) as [Hnd Hin]. split; [exact Hnd|].
      intros p. rewrite Hin. simpl. intuition (subst; try congruence; auto).
    + destruct (known directory q) eqn:Ed.
      * destruct (IH acc) as [Hnd Hin]. split; [exact Hnd|].
        intros p. rewrite Hin. simpl. intuition (subst; try congruence; auto).
      * destruct (IH (Js.setAdd q acc)) as [Hnd Hin]. split.
        -- intros H. apply Hnd, TableFacts.setAdd_NoDup, H.
        -- intros p. rewrite Hin, TableFacts.setAdd_in. simpl.
           intuition (subst; try congruence; auto).
Qed.

Lemma missing_outer (userId : string) (directory : gmap string User)
    (chats : list Chat) (acc : list string) :
  let outer :=
    List.fold_left
      (fun missing chat =>
         List.fold_left
           (fun missing participantId =>
              if String.eqb participantId userId then missing
              else if known directory participantId then missing
              else Js.setAdd participantId missing)
           (participants chat) missing)
      chats acc in
  (List.NoDup acc -> List.NoDup outer) /\
  (forall p, In p outer <->
             In p acc \/ (counterpartIn userId chats p /\ known directory p = false)).
Proof.
  revert acc. induction chats as [|chat chats IH]; intros acc; simpl.
  - split; [auto|]. intros p. split; [tauto|].
    intros [H | [[_ [c [[] _]]] _]]. exact H.
  - destruct (missing_inner userId directory (participants chat) acc) as [Hnd1 Hin1].
    simpl in Hnd1, Hin1.
    destruct (IH (List.fold_left
                    (fun missing participantId =>
                       if String.eqb participantId userId then missing
                       else if known directory participantId then missing
                       else Js.setAdd participantId missing)
                    (participants chat) acc)) as [Hnd2 Hin2].
    simpl in Hnd2, Hin2. split; [auto|].
    intros p. rewrite Hin2, Hin1. unfold counterpartIn. split.
    + intros [[H | [Hp [Hne Hd]]] | [[Hne [c [Hc Hp]]] Hd]].
      * left; exact H.
      * right. split; [|exact Hd]. split; [exact Hne|]. exists chat. split; [left; reflexivity | exact Hp].
      * right. split; [|exact Hd]. split; [exact Hne|]. exists c. split; [right; exact Hc | exact Hp].
    + intros [H | [[Hne [c [[Hc | Hc] Hp]]] Hd]].
      * left; left; exact H.
      * subst c. left; right. tauto.
      * right. split; [|exact Hd]. split; [exact Hne|]. exists c. tauto.
Qed.

Lemma known_false (directory : gmap string User) (p : string) :
  known directory p = false <-> directory !! p = None /\ Js.inherits p = false.
Proof.
  unfold known. destruct (directory !! p).
  - split; [discriminate | intros [H _]; discriminate].
  - tauto.
Qed.

Lemma missingOf_spec (userId : string) (directory : gmap string User)
    (chats : list Chat) :
  List.NoDup (missingOf userId directory chats) /\
  (forall p, In p (missingOf userId directory chats) <->
             counterpartIn userId chats p
             /\ directory !! p = None /\ Js.inherits p = false).
Proof.
  destruct (missing_outer userId directory chats []) as [Hnd Hin]. simpl in Hnd, Hin.
  split; [apply Hnd; constructor|].
  intros p. unfold missingOf. rewrite Hin, known_false. simpl. tauto.
Qed.

Lemma mergeDirectory_keeps (snapshots : list UserSnapshot)
    (prev next : gmap string User) (k : string) :
  mergeDirectory snapshots prev = Some next ->
  is_Some (prev !! k) -> is_Some (next !! k).
Proof.
  revert prev. induction snapshots as [|s snapshots IH]; intros prev Hm H; simpl in Hm.
  - inversion Hm; subst. exact H.
  - destruct (snap_data s) as [payload|]; [|apply (IH prev Hm H)].
    destruct (String.eqb (default (snap_id s) (uid payload)) "__proto__");
      [discriminate|].
    apply (IH _ Hm).
    destruct (String.eqb_spec (default (snap_id s) (uid payload)) k) as [-> | Hne].
    + rewrite lookup_insert_eq. eexists; reflexivity.
    + rewrite lookup_insert_ne by exact Hne. exact H.
Qed.

Lemma mergeDirectory_stored (getDoc : string -> UserSnapshot) (ids : list string)
    (prev : gmap string User) :
  wellStored getDoc ids ->
  (forall i, In i ids -> Js.inherits i = false) ->
  exists next,
    mergeDirectory (List.map getDoc ids) prev = Some next /\
    (forall k, In k ids -> is_Some (next !! k)) /\
    (forall k, ~ In k ids -> next !! k = prev !! k).
Proof.
  revert prev. induction ids as [|i ids IH]; intros prev Hstored Hnames; simpl.
  - exists prev. split; [reflexivity|]. split; [tauto | reflexivity].
  - assert (Hrest : wellStored getDoc ids)
      by (intros j Hj; apply Hstored; right; exact Hj).
    destruct (Hstored i (or_introl eq_refl)) as [Hid [payload [Hdata Huid]]].
    rewrite Hdata.
    assert (Hkey : default (snap_id (getDoc i)) (uid payload) = i).
    { destruct Huid as [-> | ->]; simpl; [exact Hid | reflexivity]. }
    rewrite Hkey.
    assert (Hproto : String.eqb i "__proto__" = false).
    { destruct (String.eqb_spec i "__proto__") as [-> | _]; [|reflexivity].
      specialize (Hnames "__proto__" (or_introl eq_refl)). discriminate. }
    rewrite Hproto.
    destruct (IH (<[i := {| uid := Some i; email := email payload;
                            displayName := displayName payload;
                            photoURL := photoURL payload |}]> prev) Hrest)
      as [next [Hm [Hin Hout]]].
    { intros j Hj. apply Hnames. right; exact Hj. }
    exists next. split; [exact Hm|]. split.
    + intros k [-> | Hk].
      * apply (mergeDirectory_keeps _ _ _ _ Hm).
        rewrite lookup_insert_eq. eexists; reflexivity.
      * apply Hin, Hk.
    + intros k Hk. rewrite Hout by tauto.
      apply lookup_insert_ne. intros ->. apply Hk. left; reflexivity.
Qed.

Lemma refresh_merge (userId : string) (getDoc : string -> UserSnapshot)
    (chats : list Chat) (directory : gmap string User) :
  refresh userId getDoc chats directory
  = mergeDirectory (List.map getDoc (missingOf userId directory chats)) directory.
Proof. unfold refresh. destruct (missingOf userId directory chats); reflexivity. Qed.

(** X23: the directory learns the other participants and forgets nobody.
    The directory is a plain object, and a read of it finds the entry it
    owns or the member it inherits under a name of [Object.prototype].  The
    callback looks up, once each, exactly the participants of the chats,
    other than the user, that the read does not find: those without an entry
    whose id is no such name.  A refreshed directory still has an entry
    under every key it had.  When the user documents looked up exist and are
    stored under their uid, the refresh ends with a directory that has an
    entry for every other participant whose id is no name of
    [Object.prototype], keeps the entries of everyone else as they were, and
    a further snapshot of the same chats looks nobody up. *)
Theorem directory_refresh (userId : string) (getDoc : string -> UserSnapshot)
    (chats : list Chat) (directory : gmap string User) :
  let missing := missingOf userId directory chats in
  List.NoDup missing /\
  (forall p, In p missing <->
             counterpartIn userId chats p
             /\ directory !! p = None /\ Js.inherits p = false) /\
  (forall next, refresh userId getDoc chats directory = Some next ->
     forall k, is_Some (directory !! k) -> is_Some (next !! k)) /\
  (wellStored getDoc missing ->
   exists next,
     refresh userId getDoc chats directory = Some next
     /\ (forall p, counterpartIn userId chats p -> Js.inherits p = false ->
                   is_Some (next !! p))
     /\ (forall k, ~ In k missing -> next !! k = directory !! k)
     /\ missingOf userId next chats = []).
Proof.
  intros missing.
  destruct (missingOf_spec userId directory chats) as [Hnd Hin].
  split; [exact Hnd|]. split; [exact Hin|]. split.
  - intros next Hr k Hk. rewrite refresh_merge in Hr.
    apply (mergeDirectory_keeps _ _ _ _ Hr Hk).
  - intros Hstored.
    destruct (mergeDirectory_stored getDoc missing directory Hstored)
      as [next [Hm [Hknown Hout]]].
    { intros i Hi. apply Hin in Hi. tauto. }
    exists next. rewrite refresh_merge. split; [exact Hm|].
    assert (Hall : forall p, counterpartIn userId chats p -> Js.inherits p = false ->
                             is_Some (next !! p)).
    { intros p Hp Hname. destruct (directory !! p) as [u|] eqn:Ed.
      - apply (mergeDirectory_keeps _ _ _ _ Hm). rewrite Ed. eexists; reflexivity.
      - apply Hknown, Hin. tauto. }
    split; [exact Hall|]. split; [exact Hout|].
    destruct (missingOf userId next chats) as [|p rest] eqn:Em; [reflexivity|].
    exfalso.
    assert (Hp : In p (missingOf userId next chats)) by (rewrite Em; left; reflexivity).
    apply (missingOf_spec userId next chats) in Hp. destruct Hp as [Hc [Hnone Hname]].
    destruct (Hall p Hc Hname) as [u Hu]. congruence.
Qed.

Lemma directory_refresh_witness :
  exists next,
    refresh "u1" storedUser
      [chatAt "c1" JNull ["u1"; "u2"];
       chatAt "c2" JNull ["u3"; "u1"; "constructor"; "u2"]] ∅ = Some next
    /\ missingOf "u1" next
         [chatAt "c1" JNull ["u1"; "u2"];
          chatAt "c2" JNull ["u3"; "u1"; "constructor"; "u2"]]
       = [].
Proof.
  destruct (proj2 (proj2 (proj2
              (directory_refresh "u1" storedUser
                 [chatAt "c1" JNull ["u1"; "u2"];
                  chatAt "c2" JNull ["u3"; "u1"; "constructor"; "u2"]]
                 ∅)))) as [next [Hr [_ [_ Hm]]]].
  - intros i _. split; [reflexivity|].
    eexists. split; [reflexivity | right; reflexivity].
  - exists next. split; [exact Hr | exact Hm].
Defined.

(** A participant whose id is a name of [Object.prototype] is never looked
    up, and a user document whose [uid] is [__proto__] gives no entry. *)
Lemma directory_inherited_names :
  missingOf "u1" ∅ [chatAt "c1" JNull ["u1"; "constructor"; "u2"; "toString"]]
  = ["u2"]
  /\ mergeDirectory
       [{| snap_id := "u2";
           snap_data := Some {| uid := Some "__proto__"; email := None;
                                displayName := None; photoURL := None |} |}] ∅
     = None.
Proof. split; reflexivity. Qed.

End ChatFacts.

(** ** The sync of the Auth users *)

Module SyncFacts.
Import RateLimiter Functions SyncUsers.

(** *** The size of the batches *)

Lemma commit_sized (commitResolves : list Write -> bool)
    (stored : gmap string UserDoc) (st : Loop) :
  List.Forall (fun c => (1 <= List.length c <= BATCH_SIZE)%nat) (committed st) ->
  (1 <= List.length (batch st) <= BATCH_SIZE)%nat ->
  failed st = false ->
  totalSynced st = Z.of_nat (List.length (List.concat (committed st))) ->
  users st = List.fold_left applyWrite (List.concat (committed st)) stored ->
  sized stored (commit commitResolves st).
Proof.
  intros Hc Hpos Hf Ht Hu. unfold commit.
  destruct (commitResolves (batch st)); unfold sized; simpl.
  - repeat split.
    + apply List.Forall_app. split; [exact Hc|]. constructor; [lia | constructor].
    + unfold BATCH_SIZE. lia.
    + intros _. unfold BATCH_SIZE. lia.
    + rewrite List.concat_app, List.length_app. simpl. rewrite List.app_nil_r. lia.
    + rewrite List.concat_app, List.fold_left_app. simpl. rewrite List.app_nil_r.
      rewrite Hu. reflexivity.
  - repeat split; try assumption; try lia; discriminate.
Qed.

Lemma visit_sized (commitResolves : list Write -> bool)
    (stored : gmap string UserDoc) (st : Loop) (userRecord : UserRecord) :
  sized stored st -> sized stored (visit commitResolves st userRecord).
Proof.
  intros Hs. unfold visit.
  destruct (failed st) eqn:Ef; [exact Hs|].
  destruct (needsSync (users st) userRecord); [|exact Hs].
  destruct Hs as [Hc [Hb [Hf [Ht Hu]]]]. specialize (Hf Ef).
  set (st' := {| users := users st;
                 batch := (batch st ++ [writeFor (users st) userRecord])%list;
                 totalSynced := totalSynced st; committed := committed st;
                 failed := false |}).
  assert (Hlen : List.length (batch st') = S (List.length (batch st))).
  { unfold st'. simpl. rewrite List.length_app. simpl. lia. }
  destruct (Nat.leb_spec BATCH_SIZE (List.length (batch st'))) as [Hfull | Hroom].
  - apply commit_sized; try assumption; try reflexivity. lia.
  - unfold sized. repeat split; try assumption; lia.
Qed.

Lemma page_sized (commitResolves : list Write -> bool)
    (stored : gmap string UserDoc) (st : Loop) (listed : list UserRecord) :
  sized stored st -> sized stored (page commitResolves st listed).
Proof.
  intros Hs. unfold page. destruct (failed st) eqn:Ef; [exact Hs|].
  set (st0 := {| users := users st; batch := []; totalSynced := totalSynced st;
                 committed := committed st; failed := false |}).
  assert (H0 : sized stored st0).
  { destruct Hs as [Hc [Hb [Hf [Ht Hu]]]]. unfold sized, st0. simpl.
    repeat split; try assumption; unfold BATCH_SIZE; lia. }
  assert (Hfold : forall l st1, sized stored st1 ->
                    sized stored (List.fold_left (visit commitResolves) l st1)).
  { induction l as [|u l IH]; intros st1 H1; simpl; [exact H1|].
    apply IH, visit_sized, H1. }
  specialize (Hfold listed st0 H0).
  destruct (failed (List.fold_left (visit commitResolves) listed st0)) eqn:Efold;
    [exact Hfold|].
  destruct (Nat.ltb_spec 0 (List.length
                              (batch (List.fold_left (visit commitResolves) listed st0))));
    [|exact Hfold].
  destruct Hfold as [Hc [Hb [_ [Ht Hu]]]].
  apply commit_sized; try assumption. lia.
Qed.

Lemma pages_sized (commitResolves : list Write -> bool)
    (stored : gmap string UserDoc) (pages : list (list UserRecord)) (st : Loop) :
  sized stored st -> sized stored (List.fold_left (page commitResolves) pages st).
Proof.
  revert st. induction pages as [|p pages IH]; intros st Hs; simpl; [exact Hs|].
  apply IH, page_sized, Hs.
Qed.

(** X24: the sync commits in batches Firestore accepts.  Whatever the Auth
    pages hold and whichever commit rejects, every batch the function commits
    holds between 1 and 500 writes, and the collection ends as the committed
    writes leave it, in order.  A call that returns reports success and, as
    [synced], the number of writes committed.  A caller who is not
    authenticated or is over the quota of one call a minute commits
    nothing. *)
Theorem sync_commits_in_batches (commitResolves : list Write -> bool) (now : Z)
    (request : CallableRequest) (pages : list (list UserRecord))
    (buckets : gmap string Bucket) (stored : gmap string UserDoc) :
  let out := syncAuthUsersToFirestore commitResolves now request pages buckets stored in
  let commits := snd out in
  let final := snd (fst out) in
  let result := fst (fst (fst out)) in
  List.Forall (fun c => (1 <= List.length c <= 500)%nat) commits /\
  final = List.fold_left applyWrite (List.concat commits) stored /\
  (forall response, result = Ok response ->
     success response = true
     /\ synced response = Z.of_nat (List.length (List.concat commits))) /\
  (forall e, result = Err (Https e) ->
     code e = "unauthenticated" \/ code e = "resource-exhausted" ->
     commits = [] /\ final = stored).
Proof.
  intros out commits final result.
  unfold result, final, commits, out, syncAuthUsersToFirestore, ensureAuthenticated.
  destruct (auth request) as [uid|]; simpl.
  2:{ repeat split; try constructor; try discriminate. }
  destruct (assertRateLimit now ("syncUsers:" +:+ uid) _ buckets) as [[|e] buckets'];
    simpl.
  2:{ repeat split; try constructor; try discriminate. }
  set (st0 := {| users := stored; batch := []; totalSynced := 0; committed := [];
                 failed := false |}).
  assert (H0 : sized stored st0).
  { unfold sized, st0. simpl. repeat split; try constructor; unfold BATCH_SIZE; lia. }
  pose proof (pages_sized commitResolves stored pages st0 H0) as [Hc [_ [_ [Ht Hu]]]].
  destruct (failed (List.fold_left (page commitResolves) pages st0)); simpl.
  - split; [exact Hc|]. split; [exact Hu|]. split; [discriminate|].
    intros e H Hcode. inversion H; subst. simpl in Hcode.
    destruct Hcode; discriminate.
  - split; [exact Hc|]. split; [exact Hu|]. split; [|discriminate].
    intros response H. inversion H; subst. simpl. split; [reflexivity | exact Ht].
Qed.

(** *** Which users are written *)

Lemma applyWrite_other (stored : gmap string UserDoc) (w : Write) (k : string) :
  w_uid w <> k -> applyWrite stored w !! k = stored !! k.
Proof. intros H. unfold applyWrite. apply lookup_insert_ne, H. Qed.

Lemma applyWrite_local (a b : gmap string UserDoc) (w : Write) :
  a !! w_uid w = b !! w_uid w ->
  applyWrite a w !! w_uid w = applyWrite b w !! w_uid w.
Proof.
  intros H. unfold applyWrite. rewrite !lookup_insert_eq, H. reflexivity.
Qed.

Lemma writes_other (ws : list Write) (stored : gmap string UserDoc) (k : string) :
  ~ In k (List.map w_uid ws) ->
  List.fold_left applyWrite ws stored !! k = stored !! k.
Proof.
  revert stored. induction ws as [|w ws IH]; intros stored H; simpl; [reflexivity|].
  rewrite IH by (intros Hin; apply H; right; exact Hin).
  apply applyWrite_other. intros Heq. apply H. left. exact Heq.
Qed.

Lemma writes_lookup (ws : list Write) (stored : gmap string UserDoc) (w : Write) :
  List.NoDup (List.map w_uid ws) -> In w ws ->
  List.fold_left applyWrite ws stored !! w_uid w = applyWrite stored w !! w_uid w.
Proof.
  revert stored. induction ws as [|x ws IH]; intros stored Hnd Hin; [contradiction|].
  simpl in *. inversion Hnd as [|? ? Hx Hnd']; subst.
  destruct Hin as [-> | Hin].
  - apply writes_other, Hx.
  - rewrite (IH _ Hnd' Hin). apply applyWrite_local, applyWrite_other.
    intros Heq. apply Hx. rewrite Heq. apply List.in_map, Hin.
Qed.

Lemma writesFor_keys (stored : gmap string UserDoc) (listed : list UserRecord) :
  List.map w_uid (writesFor stored listed)
  = List.map rec_uid (List.filter (needsSync stored) listed).
Proof. unfold writesFor. rewrite List.map_map. reflexivity. Qed.

Lemma writesFor_app (stored : gmap string UserDoc) (a b : list UserRecord) :
  writesFor stored (a ++ b) = (writesFor stored a ++ writesFor stored b)%list.
Proof. unfold writesFor. rewrite List.filter_app, List.map_app. reflexivity. Qed.

Lemma filtered_keys_in (stored : gmap string UserDoc) (listed : list UserRecord)
    (k : string) :
  In k (List.map rec_uid (List.filter (needsSync stored) listed)) ->
  In k (List.map rec_uid listed).
Proof.
  rewrite !List.in_map_iff. intros [u [Hu Hin]]. apply List.filter_In in Hin.
  exists u. tauto.
Qed.

Lemma filtered_keys_NoDup (stored : gmap string UserDoc) (listed : list UserRecord) :
  List.NoDup (List.map rec_uid listed) ->
  List.NoDup (List.map rec_uid (List.filter (needsSync stored) listed)).
Proof.
  induction listed as [|u listed IH]; simpl; intros H; [constructor|].
  inversion H as [|? ? Hu Hnd]; subst.
  destruct (needsSync stored u); simpl; [|apply IH, Hnd].
  constructor; [|apply IH, Hnd].
  intros Hin. apply Hu. apply (filtered_keys_in stored). exact Hin.
Qed.

Lemma unseen_unchanged (stored : gmap string UserDoc) (seen : list UserRecord)
    (st : Loop) (u : UserRecord) :
  sized stored st -> written stored seen st ->
  ~ In (rec_uid u) (List.map rec_uid seen) ->
  users st !! rec_uid u = stored !! rec_uid u.
Proof.
  intros [_ [_ [_ [_ Hu]]]] [_ Hw] Hnew. rewrite Hu. apply writes_other.
  intros Hin. apply Hnew. apply (filtered_keys_in stored).
  rewrite <- writesFor_keys, <- Hw, List.map_app. apply List.in_or_app. left. exact Hin.
Qed.

Lemma visit_written (stored : gmap string UserDoc) (seen : list UserRecord)
    (st : Loop) (u : UserRecord) :
  sized stored st -> written stored seen st ->
  ~ In (rec_uid u) (List.map rec_uid seen) ->
  written stored (seen ++ [u]) (visit always st u).
Proof.
  intros Hs Hw Hnew. pose proof (unseen_unchanged stored seen st u Hs Hw Hnew) as Hsame.
  destruct Hw as [Hf Hw]. unfold visit. rewrite Hf.
  assert (Hneeds : needsSync (users st) u = needsSync stored u)
    by (unfold needsSync; rewrite Hsame; reflexivity).
  assert (Hwrite : writeFor (users st) u = writeFor stored u)
    by (unfold writeFor; rewrite Hsame; reflexivity).
  rewrite Hneeds, Hwrite. unfold written. rewrite writesFor_app.
  assert (Hone : writesFor stored [u]
                 = if needsSync stored u then [writeFor stored u] else []).
  { unfold writesFor. simpl. destruct (needsSync stored u); reflexivity. }
  rewrite Hone.
  destruct (needsSync stored u).
  - match goal with
    | |- context [if ?c then commit _ _ else _] => destruct c
    end; unfold commit; simpl.
    + split; [reflexivity|]. rewrite List.concat_app. simpl.
      rewrite !List.app_nil_r, List.app_assoc, Hw. reflexivity.
    + split; [reflexivity|]. rewrite List.app_assoc, Hw. reflexivity.
  - split; [exact Hf|]. rewrite List.app_nil_r. exact Hw.
Qed.

Lemma visits_written (stored : gmap string UserDoc) (listed : list UserRecord) :
  forall (seen : list UserRecord) (st : Loop),
    sized stored st -> written stored seen st ->
    List.NoDup (List.map rec_uid (seen ++ listed)) ->
    written stored (seen ++ listed) (List.fold_left (visit always) listed st)
    /\ sized stored (List.fold_left (visit always) listed st).
Proof.
  induction listed as [|u listed IH]; intros seen st Hs Hw Hnd; simpl.
  - rewrite List.app_nil_r. split; assumption.
  - assert (Hnew : ~ In (rec_uid u) (List.map rec_uid seen)).
    { rewrite List.map_app in Hnd. simpl in Hnd.
      apply List.NoDup_remove_2 in Hnd. intros Hin. apply Hnd.
      apply List.in_or_app. left. exact Hin. }
    replace (seen ++ u :: listed)%list with ((seen ++ [u]) ++ listed)%list
      by (rewrite <- List.app_assoc; reflexivity).
    apply IH.
    + apply visit_sized, Hs.
    + apply visit_written; assumption.
    + rewrite <- List.app_assoc. exact Hnd.
Qed.

Lemma page_written (stored : gmap string UserDoc) (listed seen : list UserRecord)
    (st : Loop) :
  sized stored st -> written stored seen st -> batch st = [] ->
  List.NoDup (List.map rec_uid (seen ++ listed)) ->
  written stored (seen ++ listed) (page always st listed)
  /\ sized stored (page always st listed)
  /\ batch (page always st listed) = [].
Proof.
  intros Hs Hw Hb Hnd.
  pose proof (page_sized always stored st listed Hs) as Hsized.
  split; [|split; [exact Hsized|]].
  - unfold page. destruct Hw as [Hf Hw]. rewrite Hf.
    assert (Heq : {| users := users st; batch := []; totalSynced := totalSynced st;
                     committed := committed st; failed := false |} = st).
    { destruct st; simpl in *; subst; reflexivity. }
    rewrite Heq.
    destruct (visits_written stored listed seen st Hs (conj Hf Hw) Hnd) as [[Hf' Hw'] _].
    rewrite Hf'.
    destruct (0 <? _)%nat; [|split; assumption].
    unfold commit. simpl. split; [reflexivity|]. simpl.
    rewrite List.concat_app. simpl. rewrite !List.app_nil_r. exact Hw'.
  - unfold page. destruct Hw as [Hf Hw]. rewrite Hf.
    assert (Heq : {| users := users st; batch := []; totalSynced := totalSynced st;
                     committed := committed st; failed := false |} = st).
    { destruct st; simpl in *; subst; reflexivity. }
    rewrite Heq.
    destruct (visits_written stored listed seen st Hs (conj Hf Hw) Hnd) as [[Hf' Hw'] _].
    rewrite Hf'.
    destruct (Nat.ltb_spec 0 (List.length (batch (List.fold_left (visit always) listed st))))
      as [Hpos | Hzero].
    + reflexivity.
    + destruct (batch (List.fold_left (visit always) listed st));
        [reflexivity | simpl in Hzero; lia].
Qed.

Lemma pages_written (stored : gmap string UserDoc) (pages : list (list UserRecord)) :
  forall (seen : list UserRecord) (st : Loop),
    sized stored st -> written stored seen st -> batch st = [] ->
    List.NoDup (List.map rec_uid (seen ++ listedUsers pages)) ->
    let final := List.fold_left (page always) pages st in
    written stored (seen ++ listedUsers pages) final
    /\ sized stored final /\ batch final = [].
Proof.
  induction pages as [|p pages IH]; intros seen st Hs Hw Hb Hnd.
  - unfold listedUsers. simpl. rewrite List.app_nil_r.
    split; [exact Hw | split; assumption].
  - assert (Happ : (seen ++ listedUsers (p :: pages))%list
                   = ((seen ++ p) ++ listedUsers pages)%list).
    { unfold listedUsers. simpl. apply List.app_assoc. }
    rewrite Happ in *. cbn [List.fold_left].
    destruct (page_written stored p seen st Hs Hw Hb) as [Hw' [Hs' Hb']].
    { rewrite List.map_app in Hnd. apply List.NoDup_app_remove_r in Hnd. exact Hnd. }
    apply IH; assumption.
Qed.

(** X25: one run brings every listed user up to date.  When the listed
    users have different uids and the commits resolve, a call that passes the
    checks returns, as [synced], the number of listed users whose document
    was missing or without email when the call started, and commits exactly
    their writes in the order listed.  Their documents then carry the uid,
    the email or the empty string, a display name and the photo of the Auth
    record; all other documents are as before.  A user without email in Auth
    still counts as needing a sync afterwards, every other user no longer
    does. *)
Theorem sync_reaches_every_user (now : Z) (request : CallableRequest)
    (pages : list (list UserRecord)) (buckets : gmap string Bucket)
    (stored : gmap string UserDoc) (uid : string) :
  List.NoDup (List.map rec_uid (listedUsers pages)) ->
  auth request = Some uid ->
  fst (assertRateLimit now ("syncUsers:" +:+ uid)
         {| windowMs := 60000; maxRequests := 1 |} buckets) = Returned ->
  let out := syncAuthUsersToFirestore always now request pages buckets stored in
  let commits := snd out in
  let final := snd (fst out) in
  fst (fst (fst out))
  = Ok {| success := true;
          synced := Z.of_nat (List.length
                                (List.filter (needsSync stored) (listedUsers pages))) |} /\
  List.concat commits = writesFor stored (listedUsers pages) /\
  (forall u, In u (listedUsers pages) -> needsSync stored u = true ->
     final !! rec_uid u = applyWrite stored (writeFor stored u) !! rec_uid u
     /\ needsSync final u = negb (truthy (rec_email u))) /\
  (forall u, In u (listedUsers pages) -> needsSync stored u = false ->
     final !! rec_uid u = stored !! rec_uid u /\ needsSync final u = false) /\
  (forall k, ~ In k (List.map rec_uid (listedUsers pages)) -> final !! k = stored !! k).
Proof.
  intros Hnd Hauth Hrate out commits final.
  unfold final, commits, out, syncAuthUsersToFirestore, ensureAuthenticated.
  rewrite Hauth.
  destruct (assertRateLimit now ("syncUsers:" +:+ uid) _ buckets) as [[|e] buckets'];
    [|discriminate].
  set (st0 := {| users := stored; batch := []; totalSynced := 0; committed := [];
                 failed := false |}).
  assert (H0 : sized stored st0).
  { unfold sized, st0. simpl. repeat split; try constructor; unfold BATCH_SIZE; lia. }
  assert (W0 : written stored [] st0) by (split; reflexivity).
  destruct (pages_written stored pages [] st0 H0 W0 eq_refl Hnd)
    as [[Hf Hw] [[_ [_ [_ [Ht Hu]]]] Hb]].
  simpl in Hw. rewrite Hb, List.app_nil_r in Hw.
  rewrite Hf. cbn [fst snd].
  assert (Hkeys : List.NoDup (List.map w_uid (writesFor stored (listedUsers pages)))).
  { rewrite writesFor_keys. apply filtered_keys_NoDup, Hnd. }
  split; [|split; [exact Hw|split; [|split]]].
  - rewrite Ht, Hw. unfold writesFor. rewrite List.length_map. reflexivity.
  - intros u Hin Hneeds.
    assert (Hfinal : users (List.fold_left (page always) pages st0) !! rec_uid u
                     = applyWrite stored (writeFor stored u) !! rec_uid u).
    { rewrite Hu, Hw.
      apply (writes_lookup _ stored (writeFor stored u) Hkeys).
      unfold writesFor. apply List.in_map. apply List.filter_In. split; assumption. }
    split; [exact Hfinal|].
    unfold needsSync at 1. rewrite Hfinal. unfold applyWrite.
    change (w_uid (writeFor stored u)) with (rec_uid u).
    rewrite lookup_insert_eq. simpl.
    destruct (rec_email u) as [e|]; simpl; [|reflexivity].
    destruct (String.eqb_spec e ""); simpl; [reflexivity|].
    destruct (String.eqb_spec e ""); [contradiction | reflexivity].
  - intros u Hin Hneeds.
    assert (Hfinal : users (List.fold_left (page always) pages st0) !! rec_uid u
                     = stored !! rec_uid u).
    { rewrite Hu, Hw. apply writes_other. rewrite writesFor_keys.
      intros Hk. apply List.in_map_iff in Hk. destruct Hk as [v [Hv Hvin]].
      apply List.filter_In in Hvin. destruct Hvin as [Hvin Hvneeds].
      assert (v = u).
      { clear - Hnd Hv Hvin Hin. induction (listedUsers pages) as [|x l IH];
          [contradiction|].
        simpl in Hnd. inversion Hnd as [|? ? Hx Hnd']; subst.
        destruct Hvin as [-> | Hvin]; destruct Hin as [-> | Hin]; try reflexivity.
        - exfalso. apply Hx. rewrite Hv. apply List.in_map, Hin.
        - exfalso. apply Hx. rewrite <- Hv. apply List.in_map, Hvin.
        - apply IH; assumption. }
      subst v. congruence. }
    split; [exact Hfinal|]. unfold needsSync in *. rewrite Hfinal. exact Hneeds.
  - intros k Hk. rewrite Hu, Hw. apply writes_other. rewrite writesFor_keys.
    intros Hin. apply Hk. apply (filtered_keys_in stored). exact Hin.
Qed.

Lemma sync_reaches_every_user_witness :
  fst (fst (fst (syncAuthUsersToFirestore always 0 syncRequest [[alice; bob]] ∅ ∅)))
  = Ok {| success := true; synced := 2 |}.
Proof.
  refine (proj1 (sync_reaches_every_user 0 syncRequest [[alice; bob]] ∅ ∅ "admin"
                   _ _ _)).
  - repeat constructor; simpl; intuition discriminate.
  - reflexivity.
  - reflexivity.
Defined.

End SyncFacts.

(** ** The endpoints with the AI services behind them *)

Module EndpointFacts.
Import RateLimiter Functions.

(** X26: [aiDraftReply] never answers without suggestions.  With
    [generateDraftReplies] of ai.ts behind it, a call that returns carries
    between one and three suggestions, none of them empty, whatever Gemini
    answers; they are the suggestions of the service, so the list the
    endpoint keeps for a missing answer is never the one returned for that
    reason. *)
Theorem aiDraftReply_suggests (chats : gmap string Notifications.ChatData)
    (isGeminiStub : bool) (trim stripLeadingBullet : string -> string)
    (fetchRecentMessages : string -> Z -> option (list Ai.TranscriptMessage))
    (generateContent : string -> string -> option string)
    (now : Z) (request : CallableRequest) (buckets : gmap string Bucket)
    (response : DraftResponse) :
  let service :=
    Ai.generateDraftReplies isGeminiStub trim stripLeadingBullet fetchRecentMessages
      generateContent in
  fst (aiDraftReply chats service now request buckets) = Ok response ->
  (1 <= List.length (res_suggestions response) <= 3)%nat
  /\ List.Forall (fun s => s <> "") (res_suggestions response)
  /\ exists chatId messageContext result,
       draftInput (data request) = Some (chatId, messageContext)
       /\ service chatId messageContext = Some result
       /\ Ai.suggestions result = Some (res_suggestions response).
Proof.
  intros service. unfold aiDraftReply.
  destruct (ensureAuthenticated request) as [uid|]; [|discriminate].
  destruct (draftInput (data request)) as [[chatId messageContext]|]; [|discriminate].
  destruct (ensureChatParticipant chats uid chatId); [|discriminate].
  destruct (assertRateLimit now _ _ buckets) as [[|e] buckets']; [|discriminate].
  destruct (service chatId messageContext) as [result|] eqn:Es; [|discriminate].
  destruct (AiFacts.draft_suggestions _ _ _ _ _ _ _ _ Es) as [l [Hl [Hne [Hlen Hall]]]].
  simpl. intros H. inversion H; subst; clear H. simpl. rewrite Hl. simpl.
  split; [destruct l; [congruence | simpl in *; lia]|].
  split; [exact Hall|].
  exists chatId, messageContext, result. repeat split; assumption.
Qed.

Lemma aiDraftReply_suggests_witness :
  match fst (aiDraftReply Notifications.chats1
               (Ai.generateDraftReplies true (fun s => s) (fun s => s)
                  (fun _ _ => Some []) (fun _ _ => None))
               0 {| auth := Some "u1";
                    data := VObject [("chatId", FString "c1");
                                     ("messageContext", FString "Lunch?")] |} ∅) with
  | Ok response => (1 <= List.length (res_suggestions response) <= 3)%nat
  | Err _ => False
  end.
Proof.
  destruct (fst (aiDraftReply _ _ _ _ _)) as [response | f] eqn:E;
    [|vm_compute in E; discriminate].
  apply (aiDraftReply_suggests Notifications.chats1 true (fun s => s) (fun s => s)
           (fun _ _ => Some []) (fun _ _ => None) 0 _ ∅ response E).
Defined.

(** X27: [aiSummarizeChat] always answers with a text.  With
    [generateChatSummary] of ai.ts behind it, a call that returns carries the
    summary of the service, which is never missing: the standing message when
    the chat has no recent messages, and also when Gemini is configured and
    its call fails; the text Gemini returns when its call succeeds. *)
Theorem aiSummarizeChat_answers (chats : gmap string Notifications.ChatData)
    (isGeminiStub : bool) (trim : string -> string)
    (fetchRecentMessages : string -> Z -> option (list Ai.TranscriptMessage))
    (generateContent : string -> string -> option string)
    (now : Z) (request : CallableRequest) (buckets : gmap string Bucket)
    (response : SummaryResponse) :
  let service :=
    Ai.generateChatSummary isGeminiStub trim fetchRecentMessages generateContent in
  fst (aiSummarizeChat chats service now request buckets) = Ok response ->
  exists chatId messages result,
    summarizeInput (data request) = Some chatId
    /\ fetchRecentMessages chatId 30 = Some messages
    /\ service chatId = Some result
    /\ Ai.summary result = Some (res_summary response)
    /\ (messages = [] -> res_summary response = Ai.DEFAULT_CHAT_SUMMARY_MESSAGE)
    /\ (messages <> [] -> isGeminiStub = false ->
        exists prompt,
          match generateContent Ai.SUMMARY_MODEL prompt with
          | Some text => res_summary response = text
          | None => res_summary response = Ai.DEFAULT_CHAT_SUMMARY_MESSAGE
          end).
Proof.
  intros service. unfold aiSummarizeChat.
  destruct (ensureAuthenticated request) as [uid|]; [|discriminate].
  destruct (summarizeInput (data request)) as [chatId|]; [|discriminate].
  destruct (ensureChatParticipant chats uid chatId); [|discriminate].
  destruct (assertRateLimit now _ _ buckets) as [[|e] buckets']; [|discriminate].
  destruct (service chatId) as [result|] eqn:Es; [|discriminate].
  simpl. intros H. inversion H; subst; clear H. simpl.
  unfold service, Ai.generateChatSummary in Es.
  destruct (fetchRecentMessages chatId 30) as [messages|] eqn:Ef; [|discriminate].
  exists chatId, messages, result.
  split; [reflexivity|]. split; [exact Ef|].
  split; [unfold service, Ai.generateChatSummary; rewrite Ef; exact Es|].
  destruct messages as [|first rest].
  - inversion Es; subst. simpl. repeat split; try reflexivity; congruence.
  - destruct isGeminiStub.
    + inversion Es; subst. simpl. repeat split; try reflexivity; discriminate.
    + unfold Ai.callGemini in Es.
      destruct (generateContent Ai.SUMMARY_MODEL _) as [text|] eqn:Eg;
        inversion Es; subst; simpl.
      * split; [reflexivity|]. split; [discriminate|].
        intros _ _. eexists. rewrite Eg. reflexivity.
      * split; [reflexivity|]. split; [discriminate|].
        intros _ _. eexists. rewrite Eg. reflexivity.
Qed.

Lemma aiSummarizeChat_answers_witness :
  match fst (aiSummarizeChat Notifications.chats1
               (Ai.generateChatSummary false (fun s => s) (fun _ _ => Some [])
                  (fun _ _ => None))
               0 (summarizeRequest "u1" "c1") ∅) with
  | Ok response => res_summary response = Ai.DEFAULT_CHAT_SUMMARY_MESSAGE
  | Err _ => False
  end.
Proof.
  destruct (fst (aiSummarizeChat _ _ _ _ _)) as [response | f] eqn:E;
    [|vm_compute in E; discriminate].
  destruct (aiSummarizeChat_answers Notifications.chats1 false (fun s => s)
              (fun _ _ => Some []) (fun _ _ => None) 0 _ ∅ response E)
    as [chatId [messages [result [_ [Hm [_ [_ [Hempty _]]]]]]]].
  apply Hempty. inversion Hm. reflexivity.
Defined.

Lemma moderation_endpoint (moderateContent : string -> Ai.GeminiResponse)
    (now : Z) (uid text : string) (buckets : gmap string Bucket) :
  fst (aiModerateMessage moderateContent now
         {| auth := Some uid; data := VObject [("message", FString text)] |} buckets)
  = if String.eqb text "" then Err ZodError
    else match fst (assertRateLimit now ("aiModerate:" +:+ uid)
                      {| windowMs := 30000; maxRequests := 10 |} buckets) with
         | Thrown e => Err (Https e)
         | Returned =>
             Ok {| res_approved := default true (Ai.approved (moderateContent text));
                   res_reason := Ai.reason (moderateContent text) |}
         end.
Proof.
  unfold aiModerateMessage, ensureAuthenticated, moderationInput, requiredString.
  cbn [auth data objectOf].
  assert (Hget : Js.get "message" [("message", FString text)] = Some (FString text))
    by reflexivity.
  rewrite Hget. destruct (String.eqb text ""); [reflexivity|].
  destruct (assertRateLimit now _ _ buckets) as [[|e] buckets']; reflexivity.
Qed.

(** X28: what the moderation endpoint means for a send.  When the client's
    moderation call passes the trimmed text as [message] to
    [aiModerateMessage], with [moderateContent] of ai.ts behind it, and hands
    back its answer, [handleSend] sends nothing and uploads nothing for a
    text that holds a term of the blocklist, whatever Gemini says and whatever
    the quota; it also sends nothing when the trimmed text is empty, since
    the endpoint does not accept an empty message: a message of attachments
    only is not sent. *)
Theorem moderated_send (user : option string) (chatId : string)
    (participants : option (list string)) (services : ChatRoom.Services)
    (trim : string -> string) (now : Z) (nanoid : string)
    (text : string) (attachments : list ChatRoom.DraftAttachment)
    (isGeminiStub : bool) (toLowerCase serverTrim : string -> string)
    (generateContent : string -> string -> option string)
    (serverNow : Z) (buckets : gmap string Bucket) :
  (forall uid t,
     user = Some uid ->
     ChatRoom.aiModerateMessage services t
     = ChatRoom.moderatedBy
         (fun request =>
            fst (aiModerateMessage
                   (Ai.moderateContent isGeminiStub toLowerCase serverTrim generateContent)
                   serverNow request buckets))
         uid t) ->
  Ai.restricted toLowerCase (trim text) \/ trim text = "" ->
  let effects :=
    ChatRoom.handleSend user chatId participants services trim now nanoid text
      attachments in
  ChatRoom.sends effects = [] /\ ChatRoom.uploads effects = [].
Proof.
  intros Hclient Hcase effects. unfold effects, ChatRoom.handleSend.
  destruct user as [uid|]; [|split; reflexivity].
  destruct (String.eqb (trim text) "" && Nat.eqb (List.length attachments) 0);
    [split; reflexivity|].
  rewrite (Hclient uid (trim text) eq_refl).
  unfold ChatRoom.moderatedBy. rewrite moderation_endpoint.
  destruct (String.eqb_spec (trim text) "") as [Hempty | Hfull]; [split; reflexivity|].
  destruct Hcase as [Hrestricted | Hcase]; [|contradiction].
  destruct (fst (assertRateLimit serverNow _ _ buckets)) as [|e];
    [|split; reflexivity].
  rewrite (AiFacts.moderation_restricted isGeminiStub toLowerCase serverTrim
             generateContent (trim text) Hrestricted).
  split; reflexivity.
Qed.

Lemma moderated_send_witness :
  ChatRoom.sends
    (ChatRoom.handleSend (Some "u1") "c1" None
       {| ChatRoom.aiModerateMessage :=
            ChatRoom.moderatedBy
              (fun request =>
                 fst (aiModerateMessage
                        (Ai.moderateContent true Ai.lower (fun s => s) (fun _ _ => None))
                        0 request ∅)) "u1";
          ChatRoom.uploadAttachments := fun _ _ => Some [];
          ChatRoom.sendMessage := fun _ => Some "msg-1";
          ChatRoom.getDoc := fun _ => None |}
       (fun s => s) 20 "a1" "Free SPAM" []) = [].
Proof.
  refine (proj1 (moderated_send (Some "u1") "c1" None _ (fun s => s) 20 "a1"
                   "Free SPAM" [] true Ai.lower (fun s => s) (fun _ _ => None)
                   0 ∅ _ _)).
  - intros uid t H. inversion H; subst. reflexivity.
  - left. exists "spam". split; [left; reflexivity | reflexivity].
Defined.

End EndpointFacts.
